(** * sharedptr.cpp: reference-counted control blocks, SharedPtr and WeakPtr

    A shallow embedding of [src/sharedptr.cpp].  Control blocks live in a
    heap indexed by block addresses; SharedPtr and WeakPtr objects live in
    two object stores indexed by locations, so that aliasing between
    [*this] and an argument (self-assignment) is the aliasing of the
    source.  Temporaries and function locals are objects at fresh
    locations whose lifetime ends inside the member function that declares
    them.  The calls that leave the library (allocator, disposer, object
    destructor) and the two virtual calls [destroy()] and [deallocate()]
    are recorded in a trace; the code they run is the client's.  [exec]
    takes that code to return without using a pointer object or a control
    block; [exec_nested] runs, inside [destroy()], the statements on
    pointer objects that the disposer or the destructor of the managed
    object makes, and is [exec] when there are none. *)

From stdpp Require Import base gmap list fin_maps.
From Stdlib Require Import ZArith Lia.

Open Scope Z_scope.

(** ** Machine integers and addresses *)

(** [size_t] is a 64-bit unsigned integer: arithmetic wraps modulo 2^64. *)
Definition size_t_modulus : Z := 2 ^ 64.
Definition size_t_wrap (z : Z) : Z := z mod size_t_modulus.

(** Addresses of control blocks and locations of pointer objects. *)
Abbreviation addr := nat (only parsing).
Abbreviation loc := nat (only parsing).

(** Values of type [T*] / [void*]. *)
Inductive pointer : Type :=
| nullptr
| at_address (p : N)     (* an object the caller allocated on its own *)
| object_of (a : nat).   (* [&object] of the control block at [a] *)

Definition is_nullptr (p : pointer) : bool :=
  match p with nullptr => true | _ => false end.

(** A type with a default constructor, as [Deleter()] and [Allocator()]. *)
Class DefaultConstructible (X : Type) := default_construct : X.

Section SharedPtr.

(** [T] is the managed type, [Args] the arguments of its constructor,
    [construct_T] the constructor itself ([None]: it throws), [Deleter]
    and [Allocator] the disposer and allocator types. *)
Context {T Args Deleter Allocator : Type}.
Context `{DefaultConstructible Deleter} `{DefaultConstructible Allocator}.
Variable construct_T : Args → option T.

(** ** Control blocks *)

(** The two classes derived from [BaseControlBlock], with their fields. *)
Inductive derived_block : Type :=
| ControlBlockWithoutMakeShared (ptr : pointer) (deleter : Deleter) (rebind_alloc : Allocator)
| ControlBlockWithMakeShared (object : T) (rebind_alloc : Allocator).

Record BaseControlBlock : Type := mkBlock {
  shared_count : Z;
  weak_count : Z;
  derived : derived_block
}.

Definition set_shared_count (v : Z) (b : BaseControlBlock) : BaseControlBlock :=
  mkBlock v (weak_count b) (derived b).
Definition set_weak_count (v : Z) (b : BaseControlBlock) : BaseControlBlock :=
  mkBlock (shared_count b) v (derived b).

Definition block_alloc (b : BaseControlBlock) : Allocator :=
  match derived b with
  | ControlBlockWithoutMakeShared _ _ al => al
  | ControlBlockWithMakeShared _ al => al
  end.

(** Memory obtained from [AllocTraits::allocate]: raw until a control block
    has been constructed in it. *)
Inductive cell : Type :=
| uninitialized
| constructed (b : BaseControlBlock).

(** ** Trace *)

Inductive event : Type :=
| EvAllocate (al : Allocator) (a : nat)           (* AllocTraits::allocate(al, 1) = a *)
| EvDestroy (a : nat)                             (* cb->destroy() on the block at a *)
| EvDeleter (a : nat) (d : Deleter) (p : pointer) (* deleter(ptr) of the block at a *)
| EvDestructObject (a : nat) (al : Allocator)     (* AllocTraits::destroy(al, &object) *)
| EvDeallocate (a : nat) (al : Allocator).        (* cb->deallocate(): AllocTraits::deallocate(al, this, 1) *)

(** ** Program state *)

(** A SharedPtr or WeakPtr object is its single field [cb];
    [None] is the null pointer. *)
Record state : Type := mkState {
  heap : gmap nat cell;
  next_addr : nat;
  shared_ptrs : gmap nat (option nat);
  weak_ptrs : gmap nat (option nat);
  trace : list event
}.

Definition initial_state : state := mkState ∅ 0%nat ∅ ∅ [].

Definition with_heap (h : gmap nat cell) (s : state) : state :=
  mkState h (next_addr s) (shared_ptrs s) (weak_ptrs s) (trace s).
Definition with_shared_ptrs (m : gmap nat (option nat)) (s : state) : state :=
  mkState (heap s) (next_addr s) m (weak_ptrs s) (trace s).
Definition with_weak_ptrs (m : gmap nat (option nat)) (s : state) : state :=
  mkState (heap s) (next_addr s) (shared_ptrs s) m (trace s).
Definition with_trace (t : list event) (s : state) : state :=
  mkState (heap s) (next_addr s) (shared_ptrs s) (weak_ptrs s) t.

(** ** The monad of the embedding

    A computation returns a value, leaves with an exception, or has
    undefined behaviour (a dead object or a freed block is accessed). *)
Inductive outcome (X : Type) : Type :=
| Ret (x : X) (s : state)
| Throw (s : state)
| Undefined.
Arguments Ret {X} x s.
Arguments Throw {X} s.
Arguments Undefined {X}.

Definition M (X : Type) : Type := state → outcome X.

Definition ret {X} (x : X) : M X := λ s, Ret x s.
Definition bind {X Y} (m : M X) (k : X → M Y) : M Y :=
  λ s, match m s with
       | Ret x s' => k x s'
       | Throw s' => Throw s'
       | Undefined => Undefined
       end.
Definition throw {X} : M X := λ s, Throw s.
Definition undefined {X} : M X := λ _, Undefined.

#[global] Instance M_ret : MRet M := @ret.
#[global] Instance M_bind : MBind M := λ X Y k m, bind m k.

(** Stack unwinding out of a constructor: the storage of the object under
    construction goes away, its destructor does not run. *)
Definition unwinding {X} (cleanup : state → state) (m : M X) : M X :=
  λ s, match m s with
       | Throw s' => Throw (cleanup s')
       | o => o
       end.

(** *** Pointer objects *)

Definition sp_get (l : nat) : M (option nat) :=
  λ s, match shared_ptrs s !! l with
       | Some c => Ret c s
       | None => Undefined
       end.
Definition sp_set (l : nat) (c : option nat) : M unit :=
  λ s, match shared_ptrs s !! l with
       | Some _ => Ret tt (with_shared_ptrs (<[l := c]> (shared_ptrs s)) s)
       | None => Undefined
       end.
(** The lifetime of the object at [l] starts (member initialiser [cb = nullptr]). *)
Definition sp_begin (l : nat) : M unit :=
  λ s, match shared_ptrs s !! l with
       | Some _ => Undefined
       | None => Ret tt (with_shared_ptrs (<[l := None]> (shared_ptrs s)) s)
       end.
Definition sp_drop (l : nat) (s : state) : state :=
  with_shared_ptrs (delete l (shared_ptrs s)) s.
Definition sp_end (l : nat) : M unit := λ s, Ret tt (sp_drop l s).
(** A local object or temporary is placed where no live object is. *)
Definition sp_fresh : M nat := λ s, Ret (fresh (dom (shared_ptrs s))) s.
(** A member function is called on a live object. *)
Definition sp_live (l : nat) : M unit :=
  λ s, match shared_ptrs s !! l with
       | Some _ => Ret tt s
       | None => Undefined
       end.

Definition wp_get (l : nat) : M (option nat) :=
  λ s, match weak_ptrs s !! l with
       | Some c => Ret c s
       | None => Undefined
       end.
Definition wp_set (l : nat) (c : option nat) : M unit :=
  λ s, match weak_ptrs s !! l with
       | Some _ => Ret tt (with_weak_ptrs (<[l := c]> (weak_ptrs s)) s)
       | None => Undefined
       end.
Definition wp_begin (l : nat) : M unit :=
  λ s, match weak_ptrs s !! l with
       | Some _ => Undefined
       | None => Ret tt (with_weak_ptrs (<[l := None]> (weak_ptrs s)) s)
       end.
Definition wp_drop (l : nat) (s : state) : state :=
  with_weak_ptrs (delete l (weak_ptrs s)) s.
Definition wp_end (l : nat) : M unit := λ s, Ret tt (wp_drop l s).
Definition wp_fresh : M nat := λ s, Ret (fresh (dom (weak_ptrs s))) s.
Definition wp_live (l : nat) : M unit :=
  λ s, match weak_ptrs s !! l with
       | Some _ => Ret tt s
       | None => Undefined
       end.

(** *** Heap and trace *)

Definition emit (e : event) : M unit :=
  λ s, Ret tt (with_trace (trace s ++ [e]) s).

(** Read and write the fields of the block at [a]. *)
Definition load (a : nat) : M BaseControlBlock :=
  λ s, match heap s !! a with
       | Some (constructed b) => Ret b s
       | _ => Undefined
       end.
Definition store (a : nat) (b : BaseControlBlock) : M unit :=
  λ s, match heap s !! a with
       | Some (constructed _) => Ret tt (with_heap (<[a := constructed b]> (heap s)) s)
       | _ => Undefined
       end.

(** [AllocTraits::allocate(al, 1)]: a block address never handed out before. *)
Definition allocate (al : Allocator) : M nat :=
  λ s, let a := next_addr s in
       Ret a (mkState (<[a := uninitialized]> (heap s)) (S a)
                      (shared_ptrs s) (weak_ptrs s) (trace s ++ [EvAllocate al a])).

(** Placement of a fully constructed block into raw memory. *)
Definition emplace (a : nat) (b : BaseControlBlock) : M unit :=
  λ s, match heap s !! a with
       | Some uninitialized => Ret tt (with_heap (<[a := constructed b]> (heap s)) s)
       | _ => Undefined
       end.

(** [AllocTraits::deallocate(al, this, 1)]. *)
Definition release_memory (al : Allocator) (a : nat) : M unit :=
  λ s, match heap s !! a with
       | Some _ => Ret tt (mkState (delete a (heap s)) (next_addr s) (shared_ptrs s)
                                   (weak_ptrs s) (trace s ++ [EvDeallocate a al]))
       | None => Undefined
       end.

(** ** The virtual functions of the control block *)

(** [get()]: the stored pointer, or the address of the embedded object. *)
Definition block_get (a : nat) (b : BaseControlBlock) : pointer :=
  match derived b with
  | ControlBlockWithoutMakeShared ptr _ _ => ptr
  | ControlBlockWithMakeShared _ _ => object_of a
  end.
Definition cb_get (a : nat) : M pointer :=
  b ← load a; ret (block_get a b).

(** [destroy()]. *)
Definition cb_destroy (a : nat) : M unit :=
  b ← load a;
  emit (EvDestroy a);;
  match derived b with
  | ControlBlockWithoutMakeShared ptr deleter _ =>
      if is_nullptr ptr then ret tt else emit (EvDeleter a deleter ptr)
  | ControlBlockWithMakeShared _ rebind_alloc =>
      emit (EvDestructObject a rebind_alloc)
  end.

(** [deallocate()]. *)
Definition cb_deallocate (a : nat) : M unit :=
  b ← load a;
  release_memory (block_alloc b) a.

(** Constructor of [ControlBlockWithMakeShared], run in the memory at [a]:
    base, then [object(args...)], then [rebind_alloc(alloc)]. *)
Definition ControlBlockWithMakeShared_ctor
    (a : nat) (sc wc : Z) (alloc : Allocator) (args : Args) : M unit :=
  match construct_T args with
  | Some object => emplace a (mkBlock sc wc (ControlBlockWithMakeShared object alloc))
  | None => throw
  end.

(** Constructor of [ControlBlockWithoutMakeShared]. *)
Definition ControlBlockWithoutMakeShared_ctor
    (a : nat) (ptr : pointer) (sc wc : Z) (deleter : Deleter) (alloc : Allocator) : M unit :=
  emplace a (mkBlock sc wc (ControlBlockWithoutMakeShared ptr deleter alloc)).

(** ** SharedPtr *)

(** [SharedPtr(BaseControlBlock* other_cb)] *)
Definition SharedPtr_ctor_cb (this : nat) (other_cb : option nat) : M unit :=
  sp_begin this;;
  sp_set this other_cb;;
  cb ← sp_get this;
  match cb with
  | Some a => b ← load a; store a (set_shared_count (size_t_wrap (shared_count b + 1)) b)
  | None => ret tt
  end.

(** [SharedPtr(size_t shared_count, size_t weak_count, Allocator alloc, Args&&... args)] *)
Definition SharedPtr_ctor_alloc
    (this : nat) (sc wc : Z) (alloc : Allocator) (args : Args) : M unit :=
  unwinding (sp_drop this)
    (sp_begin this;;
     let rebind_alloc := alloc in
     mem_alloc ← allocate rebind_alloc;
     sp_set this (Some mem_alloc);;
     ControlBlockWithMakeShared_ctor mem_alloc sc wc alloc args).

(** [SharedPtr()] *)
Definition SharedPtr_ctor_default (this : nat) : M unit := sp_begin this.

(** [SharedPtr(const SharedPtr& other)], also from [SharedPtr<Y>] *)
Definition SharedPtr_ctor_copy (this other : nat) : M unit :=
  other_cb ← sp_get other;
  SharedPtr_ctor_cb this other_cb.

(** [SharedPtr(Y* ptr, Deleter deleter = Deleter(), Allocator alloc = Allocator())]:
    the block is allocated by, and keeps, a default-constructed rebound
    allocator; [alloc] is not used. *)
Definition SharedPtr_ctor_ptr
    (this : nat) (ptr : pointer) (deleter : option Deleter) (alloc : option Allocator) : M unit :=
  let deleter := default default_construct deleter in
  let alloc := default default_construct alloc in
  sp_begin this;;
  let rebind_alloc : Allocator := default_construct in
  a ← allocate rebind_alloc;
  sp_set this (Some a);;
  ControlBlockWithoutMakeShared_ctor a ptr 1 0 deleter rebind_alloc.

(** [SharedPtr(SharedPtr<Y>&& other)] *)
Definition SharedPtr_ctor_move (this other : nat) : M unit :=
  other_cb ← sp_get other;
  sp_begin this;;
  sp_set this other_cb;;
  sp_set other None.

(** [swap(SharedPtr<Y>& other)] *)
Definition SharedPtr_swap (this other : nat) : M unit :=
  cb ← sp_get this;
  other_cb ← sp_get other;
  sp_set this other_cb;;
  sp_set other cb.

(** [~SharedPtr()], after which the storage of the object is gone. *)
Definition SharedPtr_dtor (this : nat) : M unit :=
  cb ← sp_get this;
  match cb with
  | None => ret tt
  | Some a =>
      b ← load a;
      store a (set_shared_count (size_t_wrap (shared_count b - 1)) b);;
      b ← load a;
      if shared_count b =? 0 then
        cb_destroy a;;
        b ← load a;
        if weak_count b =? 0 then cb_deallocate a else ret tt
      else ret tt
  end;;
  sp_end this.

(** [operator=(SharedPtr&& other)], also from [SharedPtr<Y>&&] *)
Definition SharedPtr_assign_move (this other : nat) : M unit :=
  sp_live this;;
  new_ptr ← sp_fresh;
  SharedPtr_ctor_move new_ptr other;;
  SharedPtr_swap this new_ptr;;
  SharedPtr_dtor new_ptr.

(** [operator=(const SharedPtr& other)], also from [const SharedPtr<Y>&] *)
Definition SharedPtr_assign_copy (this other : nat) : M unit :=
  sp_live this;;
  tmp_shared_ptr ← sp_fresh;
  SharedPtr_ctor_copy tmp_shared_ptr other;;
  SharedPtr_swap this tmp_shared_ptr;;
  SharedPtr_dtor tmp_shared_ptr.

(** [use_count()] *)
Definition SharedPtr_use_count (this : nat) : M Z :=
  cb ← sp_get this;
  match cb with
  | Some a => b ← load a; ret (shared_count b)
  | None => ret 0
  end.

(** [get()] *)
Definition SharedPtr_get (this : nat) : M pointer :=
  cb ← sp_get this;
  match cb with
  | None => ret nullptr
  | Some a => cb_get a
  end.

(** [operator*()]: [*get()].  The reference it returns is given by the
    address of the object it designates; indirection through the null
    pointer is undefined. *)
Definition SharedPtr_deref (this : nat) : M pointer :=
  p ← SharedPtr_get this;
  if is_nullptr p then undefined else ret p.

(** [operator->()] *)
Definition SharedPtr_arrow (this : nat) : M pointer :=
  SharedPtr_get this.

(** [reset()]: [*this = SharedPtr();] *)
Definition SharedPtr_reset (this : nat) : M unit :=
  sp_live this;;
  tmp ← sp_fresh;
  SharedPtr_ctor_default tmp;;
  SharedPtr_assign_move this tmp;;
  SharedPtr_dtor tmp.

(** [reset(Y* ptr)]: [*this = SharedPtr<T>(ptr);] *)
Definition SharedPtr_reset_ptr (this : nat) (ptr : pointer) : M unit :=
  sp_live this;;
  tmp ← sp_fresh;
  SharedPtr_ctor_ptr tmp ptr None None;;
  SharedPtr_assign_move this tmp;;
  SharedPtr_dtor tmp.

(** [allocateShared<Y>(alloc, args...)], the result constructed in [result]. *)
Definition allocateShared (result : nat) (alloc : Allocator) (args : Args) : M unit :=
  SharedPtr_ctor_alloc result 1 0 alloc args.

(** [makeShared<Y>(args...)] *)
Definition makeShared (result : nat) (args : Args) : M unit :=
  allocateShared result default_construct args.

(** ** WeakPtr *)

(** [WeakPtr(BaseControlBlock* other_cb)] *)
Definition WeakPtr_ctor_cb (this : nat) (other_cb : option nat) : M unit :=
  wp_begin this;;
  wp_set this other_cb;;
  cb ← wp_get this;
  match cb with
  | Some a => b ← load a; store a (set_weak_count (size_t_wrap (weak_count b + 1)) b)
  | None => ret tt
  end.

(** [swap(WeakPtr<Y>& other)] *)
Definition WeakPtr_swap (this other : nat) : M unit :=
  cb ← wp_get this;
  other_cb ← wp_get other;
  wp_set this other_cb;;
  wp_set other cb.

(** [WeakPtr()] *)
Definition WeakPtr_ctor_default (this : nat) : M unit := wp_begin this.

(** [WeakPtr(const WeakPtr& other)], also from [WeakPtr<Y>] *)
Definition WeakPtr_ctor_copy (this other : nat) : M unit :=
  other_cb ← wp_get other;
  WeakPtr_ctor_cb this other_cb.

(** [WeakPtr(const SharedPtr<Y>& other)] *)
Definition WeakPtr_ctor_shared (this other : nat) : M unit :=
  other_cb ← sp_get other;
  WeakPtr_ctor_cb this other_cb.

(** [WeakPtr(WeakPtr&& other)], also from [WeakPtr<Y>&&] *)
Definition WeakPtr_ctor_move (this other : nat) : M unit :=
  other_cb ← wp_get other;
  wp_begin this;;
  wp_set this other_cb;;
  wp_set other None.

(** [use_count()] *)
Definition WeakPtr_use_count (this : nat) : M Z :=
  cb ← wp_get this;
  match cb with
  | Some a => b ← load a; ret (shared_count b)
  | None => ret 0
  end.

(** [expired()] *)
Definition WeakPtr_expired (this : nat) : M bool :=
  u ← WeakPtr_use_count this;
  ret (u =? 0).

(** [~WeakPtr()], after which the storage of the object is gone. *)
Definition WeakPtr_dtor (this : nat) : M unit :=
  cb ← wp_get this;
  match cb with
  | None => ret tt
  | Some a =>
      b ← load a;
      store a (set_weak_count (size_t_wrap (weak_count b - 1)) b);;
      u ← WeakPtr_use_count this;
      b ← load a;
      if size_t_wrap (u + weak_count b) =? 0 then cb_deallocate a else ret tt
  end;;
  wp_end this.

(** [operator=(WeakPtr&& other)]: [other_weak_ptr] is a named reference, an
    lvalue, so [new_ptr] is copy-constructed from it. *)
Definition WeakPtr_assign_move (this other : nat) : M unit :=
  wp_live this;;
  new_ptr ← wp_fresh;
  WeakPtr_ctor_copy new_ptr other;;
  WeakPtr_swap this new_ptr;;
  WeakPtr_dtor new_ptr.

(** [operator=(const WeakPtr& other)], also from [const WeakPtr<Y>&] *)
Definition WeakPtr_assign_copy (this other : nat) : M unit :=
  wp_live this;;
  tmp_weak_ptr ← wp_fresh;
  WeakPtr_ctor_copy tmp_weak_ptr other;;
  WeakPtr_swap this tmp_weak_ptr;;
  WeakPtr_dtor tmp_weak_ptr.

(** [operator=(const SharedPtr<T>& other)], also from [const SharedPtr<Y>&] *)
Definition WeakPtr_assign_shared (this other : nat) : M unit :=
  wp_live this;;
  tmp_shared_ptr ← wp_fresh;
  WeakPtr_ctor_shared tmp_shared_ptr other;;
  WeakPtr_swap this tmp_shared_ptr;;
  WeakPtr_dtor tmp_shared_ptr.

(** [lock()], the result constructed in [result]. *)
Definition WeakPtr_lock (this result : nat) : M unit :=
  e ← WeakPtr_expired this;
  if negb e then
    cb ← wp_get this;
    SharedPtr_ctor_cb result cb
  else SharedPtr_ctor_default result.

(** ** Client programs

    A statement constructs, assigns or destroys one named pointer object. *)
Inductive stmt : Type :=
| DeclShared (x : nat)                     (* SharedPtr<T> x; *)
| DeclSharedCopy (x y : nat)               (* SharedPtr<T> x(y); *)
| DeclSharedMove (x y : nat)               (* SharedPtr<T> x(std::move(y)); *)
| DeclSharedPtr (x : nat) (p : pointer) (d : option Deleter) (al : option Allocator)
                                           (* SharedPtr<T> x(p, d, al); *)
| DeclAllocateShared (x : nat) (al : Allocator) (args : Args)
                                           (* auto x = allocateShared<T>(al, args...); *)
| DeclMakeShared (x : nat) (args : Args)   (* auto x = makeShared<T>(args...); *)
| AssignShared (x y : nat)                 (* x = y; *)
| MoveAssignShared (x y : nat)             (* x = std::move(y); *)
| SwapShared (x y : nat)                   (* x.swap(y); *)
| ResetShared (x : nat)                    (* x.reset(); *)
| ResetSharedPtr (x : nat) (p : pointer)   (* x.reset(p); *)
| DestroyShared (x : nat)                  (* the lifetime of x ends *)
| DeclWeak (w : nat)                       (* WeakPtr<T> w; *)
| DeclWeakCopy (w v : nat)                 (* WeakPtr<T> w(v); *)
| DeclWeakShared (w x : nat)               (* WeakPtr<T> w(x); *)
| DeclWeakMove (w v : nat)                 (* WeakPtr<T> w(std::move(v)); *)
| AssignWeak (w v : nat)                   (* w = v; *)
| MoveAssignWeak (w v : nat)               (* w = std::move(v); *)
| AssignWeakShared (w x : nat)             (* w = x; *)
| DestroyWeak (w : nat)                    (* the lifetime of w ends *)
| DeclLock (x w : nat).                    (* SharedPtr<T> x = w.lock(); *)

Definition exec (c : stmt) : M unit :=
  match c with
  | DeclShared x => SharedPtr_ctor_default x
  | DeclSharedCopy x y => SharedPtr_ctor_copy x y
  | DeclSharedMove x y => SharedPtr_ctor_move x y
  | DeclSharedPtr x p d al => SharedPtr_ctor_ptr x p d al
  | DeclAllocateShared x al args => allocateShared x al args
  | DeclMakeShared x args => makeShared x args
  | AssignShared x y => SharedPtr_assign_copy x y
  | MoveAssignShared x y => SharedPtr_assign_move x y
  | SwapShared x y => SharedPtr_swap x y
  | ResetShared x => SharedPtr_reset x
  | ResetSharedPtr x p => SharedPtr_reset_ptr x p
  | DestroyShared x => SharedPtr_dtor x
  | DeclWeak w => WeakPtr_ctor_default w
  | DeclWeakCopy w v => WeakPtr_ctor_copy w v
  | DeclWeakShared w x => WeakPtr_ctor_shared w x
  | DeclWeakMove w v => WeakPtr_ctor_move w v
  | AssignWeak w v => WeakPtr_assign_copy w v
  | MoveAssignWeak w v => WeakPtr_assign_move w v
  | AssignWeakShared w x => WeakPtr_assign_shared w x
  | DestroyWeak w => WeakPtr_dtor w
  | DeclLock x w => WeakPtr_lock w x
  end.

(** A program runs its statements in order. *)
Fixpoint run (p : list stmt) : M unit :=
  match p with
  | [] => ret tt
  | c :: p' => exec c;; run p'
  end.

(** ** Counting references and calls *)

Definition one_if (c : option nat) (a : nat) : nat :=
  if decide (c = Some a) then 1%nat else 0%nat.

(** The number of pointer objects of a store whose [cb] is the block at [a]. *)
Definition refs (m : gmap nat (option nat)) (a : nat) : nat :=
  length (filter (λ kv : nat * option nat, kv.2 = Some a) (map_to_list m)).

Definition about_destroy (a : nat) (e : event) : bool :=
  match e with EvDestroy a' => bool_decide (a' = a) | _ => false end.
Definition about_deallocate (a : nat) (e : event) : bool :=
  match e with EvDeallocate a' _ => bool_decide (a' = a) | _ => false end.

Definition occurrences (p : event → bool) (t : list event) : nat :=
  length (List.filter p t).

(** How often [destroy()] and [deallocate()] were called on the block at [a]. *)
Definition destroy_calls (a : nat) (t : list event) : nat := occurrences (about_destroy a) t.
Definition deallocate_calls (a : nat) (t : list event) : nat := occurrences (about_deallocate a) t.

(** The disposer invocations made by the block at [a], in order. *)
Fixpoint deleter_calls (a : nat) (t : list event) : list (Deleter * pointer) :=
  match t with
  | [] => []
  | EvDeleter a' d p :: t' =>
      if bool_decide (a' = a) then (d, p) :: deleter_calls a t' else deleter_calls a t'
  | _ :: t' => deleter_calls a t'
  end.

(** The counts of the block at [a] as the heap has them; a block that is
    not (or no longer) there counts zero. *)
Definition shared_of (s : state) (a : nat) : Z :=
  match heap s !! a with Some (constructed b) => shared_count b | _ => 0 end.
Definition weak_of (s : state) (a : nat) : Z :=
  match heap s !! a with Some (constructed b) => weak_count b | _ => 0 end.

(** ** The counting invariant *)

Definition unheld (s : state) (a : nat) : Prop :=
  refs (shared_ptrs s) a = 0%nat ∧ refs (weak_ptrs s) a = 0%nat.

Record block_ok (s : state) (a : nat) (b : BaseControlBlock) : Prop := mkBlockOk {
  ok_shared : shared_count b = Z.of_nat (refs (shared_ptrs s) a);
  ok_weak : weak_count b = Z.of_nat (refs (weak_ptrs s) a);
  ok_held : (0 < refs (shared_ptrs s) a + refs (weak_ptrs s) a)%nat;
  ok_destroy : destroy_calls a (trace s) =
               if decide (refs (shared_ptrs s) a = 0%nat) then 1%nat else 0%nat;
  ok_dealloc : deallocate_calls a (trace s) = 0%nat
}.

Definition cell_ok (s : state) (a : nat) : Prop :=
  match heap s !! a with
  | Some (constructed b) => (a < next_addr s)%nat ∧ block_ok s a b
  | Some uninitialized =>
      (a < next_addr s)%nat ∧ unheld s a ∧
      destroy_calls a (trace s) = 0%nat ∧ deallocate_calls a (trace s) = 0%nat
  | None =>
      unheld s a ∧
      destroy_calls a (trace s) = (if decide (a < next_addr s)%nat then 1%nat else 0%nat) ∧
      deallocate_calls a (trace s) = (if decide (a < next_addr s)%nat then 1%nat else 0%nat)
  end.

(** Every live block counts exactly the pointer objects that reference it,
    a block is in the heap as long as some pointer references it, and the
    trace has one [destroy()] for each block without strong references and
    one [deallocate()] for each block that has left the heap. *)
Definition wf (s : state) : Prop := ∀ a, cell_ok s a.

(** The number of live pointer objects. *)
Definition population (s : state) : nat :=
  (size (shared_ptrs s) + size (weak_ptrs s))%nat.

(** A pointer object occupies eight bytes of a 64-bit address space. *)
Definition fits (s : state) : Prop := 8 * Z.of_nat (population s) < size_t_modulus.

(** The events of [destroy()] on the block [b] at [a]. *)
Definition destroy_events (a : nat) (b : BaseControlBlock) : list event :=
  EvDestroy a ::
  match derived b with
  | ControlBlockWithoutMakeShared ptr deleter _ =>
      if is_nullptr ptr then [] else [EvDeleter a deleter ptr]
  | ControlBlockWithMakeShared _ rebind_alloc => [EvDestructObject a rebind_alloc]
  end.

(** ** Calls of constructors, destructors and swap

    [quiet s s']: a call that releases no reference.
    [released a s s']: a destructor call on an object that references [a]. *)
Inductive quiet : state → state → Prop :=
| quiet_sp_default s l :
    shared_ptrs s !! l = None →
    quiet s (with_shared_ptrs (<[l := None]> (shared_ptrs s)) s)
| quiet_sp_acquire s l a b :
    shared_ptrs s !! l = None →
    heap s !! a = Some (constructed b) →
    (0 < shared_count b) →
    quiet s (mkState (<[a := constructed (set_shared_count (shared_count b + 1) b)]> (heap s))
                     (next_addr s) (<[l := Some a]> (shared_ptrs s)) (weak_ptrs s) (trace s))
| quiet_sp_new s l al d :
    shared_ptrs s !! l = None →
    quiet s (mkState (<[next_addr s := constructed (mkBlock 1 0 d)]> (heap s))
                     (S (next_addr s)) (<[l := Some (next_addr s)]> (shared_ptrs s))
                     (weak_ptrs s) (trace s ++ [EvAllocate al (next_addr s)]))
| quiet_leak s al :
    quiet s (mkState (<[next_addr s := uninitialized]> (heap s))
                     (S (next_addr s)) (shared_ptrs s)
                     (weak_ptrs s) (trace s ++ [EvAllocate al (next_addr s)]))
| quiet_sp_move s l y c :
    shared_ptrs s !! l = None →
    shared_ptrs s !! y = Some c →
    quiet s (with_shared_ptrs (<[y := None]> (<[l := c]> (shared_ptrs s))) s)
| quiet_sp_swap s x y cx cy :
    shared_ptrs s !! x = Some cx →
    shared_ptrs s !! y = Some cy →
    quiet s (with_shared_ptrs (<[y := cx]> (<[x := cy]> (shared_ptrs s))) s)
| quiet_sp_end s l :
    shared_ptrs s !! l = Some None →
    quiet s (with_shared_ptrs (delete l (shared_ptrs s)) s)
| quiet_wp_default s l :
    weak_ptrs s !! l = None →
    quiet s (with_weak_ptrs (<[l := None]> (weak_ptrs s)) s)
| quiet_wp_acquire s l a b :
    weak_ptrs s !! l = None →
    heap s !! a = Some (constructed b) →
    quiet s (mkState (<[a := constructed (set_weak_count (weak_count b + 1) b)]> (heap s))
                     (next_addr s) (shared_ptrs s) (<[l := Some a]> (weak_ptrs s)) (trace s))
| quiet_wp_move s l y c :
    weak_ptrs s !! l = None →
    weak_ptrs s !! y = Some c →
    quiet s (with_weak_ptrs (<[y := None]> (<[l := c]> (weak_ptrs s))) s)
| quiet_wp_swap s x y cx cy :
    weak_ptrs s !! x = Some cx →
    weak_ptrs s !! y = Some cy →
    quiet s (with_weak_ptrs (<[y := cx]> (<[x := cy]> (weak_ptrs s))) s)
| quiet_wp_end s l :
    weak_ptrs s !! l = Some None →
    quiet s (with_weak_ptrs (delete l (weak_ptrs s)) s).

(** The state after [~SharedPtr()] on an object that references the block
    [b] at [a]. *)
Definition after_shared_release (l a : nat) (b : BaseControlBlock) (s : state) : state :=
  if shared_count b =? 1 then
    if weak_count b =? 0 then
      mkState (delete a (heap s)) (next_addr s) (delete l (shared_ptrs s)) (weak_ptrs s)
              (trace s ++ destroy_events a b ++ [EvDeallocate a (block_alloc b)])
    else
      mkState (<[a := constructed (set_shared_count 0 b)]> (heap s)) (next_addr s)
              (delete l (shared_ptrs s)) (weak_ptrs s) (trace s ++ destroy_events a b)
  else
    mkState (<[a := constructed (set_shared_count (shared_count b - 1) b)]> (heap s))
            (next_addr s) (delete l (shared_ptrs s)) (weak_ptrs s) (trace s).

(** The state after [~WeakPtr()] on an object that references the block
    [b] at [a]. *)
Definition after_weak_release (l a : nat) (b : BaseControlBlock) (s : state) : state :=
  if (weak_count b =? 1) && (shared_count b =? 0) then
    mkState (delete a (heap s)) (next_addr s) (shared_ptrs s) (delete l (weak_ptrs s))
            (trace s ++ [EvDeallocate a (block_alloc b)])
  else
    mkState (<[a := constructed (set_weak_count (weak_count b - 1) b)]> (heap s))
            (next_addr s) (shared_ptrs s) (delete l (weak_ptrs s)) (trace s).

Inductive released (a : nat) : state → state → Prop :=
| released_shared s l b :
    shared_ptrs s !! l = Some (Some a) →
    heap s !! a = Some (constructed b) →
    released a s (after_shared_release l a b s)
| released_weak s l b :
    weak_ptrs s !! l = Some (Some a) →
    heap s !! a = Some (constructed b) →
    released a s (after_weak_release l a b s).

(** ** What a statement does, as calls

    A statement makes quiet calls and at most one releasing destructor call,
    on a reference to a block that was there when the statement began. *)
Definition is_constructed (s : state) (a : nat) : Prop :=
  ∃ b, heap s !! a = Some (constructed b).

Inductive summary (s s' : state) : Prop :=
| summary_quiet :
    rtc quiet s s' → summary s s'
| summary_release a s1 s2 :
    rtc quiet s s1 → is_constructed s a → released a s1 s2 → rtc quiet s2 s' →
    summary s s'.

(** The pointer stores after a statement that returns. *)
Definition cb_of (m : gmap nat (option nat)) (l : nat) : option nat :=
  default None (m !! l).

Definition shared_ptrs_after (c : stmt) (s : state) : gmap nat (option nat) :=
  let m := shared_ptrs s in
  match c with
  | DeclShared x => <[x := None]> m
  | DeclSharedCopy x y => <[x := cb_of m y]> m
  | DeclSharedMove x y => <[y := None]> (<[x := cb_of m y]> m)
  | DeclSharedPtr x _ _ _ => <[x := Some (next_addr s)]> m
  | DeclAllocateShared x _ _ => <[x := Some (next_addr s)]> m
  | DeclMakeShared x _ => <[x := Some (next_addr s)]> m
  | AssignShared x y => <[x := cb_of m y]> m
  | MoveAssignShared x y => <[x := cb_of m y]> (<[y := None]> m)
  | SwapShared x y => <[y := cb_of m x]> (<[x := cb_of m y]> m)
  | ResetShared x => <[x := None]> m
  | ResetSharedPtr x _ => <[x := Some (next_addr s)]> m
  | DestroyShared x => delete x m
  | DeclLock x w =>
      <[x := if 0 <? match cb_of (weak_ptrs s) w with
                     | Some a => shared_of s a
                     | None => 0
                     end
             then cb_of (weak_ptrs s) w else None]> m
  | _ => m
  end.

Definition weak_ptrs_after (c : stmt) (s : state) : gmap nat (option nat) :=
  let m := weak_ptrs s in
  match c with
  | DeclWeak w => <[w := None]> m
  | DeclWeakCopy w v => <[w := cb_of m v]> m
  | DeclWeakShared w x => <[w := cb_of (shared_ptrs s) x]> m
  | DeclWeakMove w v => <[v := None]> (<[w := cb_of m v]> m)
  | AssignWeak w v => <[w := cb_of m v]> m
  | MoveAssignWeak w v => <[w := cb_of m v]> m
  | AssignWeakShared w x => <[w := cb_of (shared_ptrs s) x]> m
  | DestroyWeak w => delete w m
  | _ => m
  end.

(** ** Reachable states

    The states a client program can be in between two statements; a
    statement that throws leaves a state too.  The pointer objects of every
    state fit in memory. *)
Inductive reachable : state → Prop :=
| reachable_initial : reachable initial_state
| reachable_ret s c s' :
    reachable s → fits s → exec c s = Ret tt s' → reachable s'
| reachable_throw s c s' :
    reachable s → fits s → exec c s = Throw s' → reachable s'.

(** Room for one more pointer object without a count reaching 2^64. *)
Definition room (s : state) : Prop :=
  Z.of_nat (population s) < size_t_modulus - 1.

(** [n] more pointer objects fit without a count reaching 2^64. *)
Definition spare (n : Z) (s : state) : Prop :=
  Z.of_nat (population s) + n < size_t_modulus.

(** Quiet calls, then the destructor of an object whose [cb] is [c]. *)
Definition transfer (c : option nat) (s s' : state) : Prop :=
  ∃ s1, rtc quiet s s1 ∧
        match c with
        | Some a => released a s1 s'
        | None => quiet s1 s'
        end.

Definition never_throws {X} (m : M X) : Prop := ∀ s s', m s ≠ Throw s'.

(** ** What calls leave as it is, seen from one block address *)

(** A block address not handed out yet, raw memory, or a block that has
    strong references. *)
Definition young (s : state) (a : nat) : Prop :=
  (next_addr s ≤ a)%nat ∨
  heap s !! a = Some uninitialized ∨
  ∃ b, heap s !! a = Some (constructed b) ∧ 0 < shared_count b.

Record grows (a : nat) (s s' : state) : Prop := mkGrows {
  grows_shared : (refs (shared_ptrs s) a ≤ refs (shared_ptrs s') a)%nat;
  grows_weak : (refs (weak_ptrs s) a ≤ refs (weak_ptrs s') a)%nat;
  grows_raw : heap s !! a = Some uninitialized → heap s' !! a = Some uninitialized;
  grows_block : is_constructed s a → is_constructed s' a;
  grows_derived : ∀ b, heap s !! a = Some (constructed b) →
                  ∃ b', heap s' !! a = Some (constructed b') ∧ derived b' = derived b;
  grows_next : (next_addr s ≤ next_addr s')%nat;
  grows_dead : is_constructed s a → refs (shared_ptrs s) a = 0%nat →
               refs (shared_ptrs s') a = 0%nat;
  grows_freed : heap s !! a = None → (a < next_addr s)%nat → heap s' !! a = None;
  grows_young : young s a → young s' a;
  grows_trace : ∃ new, trace s' = trace s ++ new ∧
                       destroy_calls a new = 0%nat ∧ deallocate_calls a new = 0%nat ∧
                       deleter_calls a new = []
}.

Record frame (a : nat) (s s' : state) : Prop := mkFrame {
  frame_total : (refs (shared_ptrs s) a + refs (weak_ptrs s) a
                 ≤ refs (shared_ptrs s') a + refs (weak_ptrs s') a + 1)%nat;
  frame_shared : (refs (shared_ptrs s) a ≤ refs (shared_ptrs s') a + 1)%nat;
  frame_weak : (refs (weak_ptrs s) a ≤ refs (weak_ptrs s') a + 1)%nat;
  frame_raw : heap s !! a = Some uninitialized → heap s' !! a = Some uninitialized;
  frame_block : is_constructed s a → is_constructed s' a ∨ heap s' !! a = None;
  frame_next : (next_addr s ≤ next_addr s')%nat;
  frame_young : (next_addr s ≤ a)%nat → young s' a;
  frame_trace : ∃ new, trace s' = trace s ++ new
}.

(** ** Steps of a client program *)

Definition step (s s' : state) : Prop :=
  fits s ∧ ∃ c, exec c s = Ret tt s' ∨ exec c s = Throw s'.

(** ** Disposer calls of an external-pointer block *)

Definition disposal (d : Deleter) (p : pointer) : list (Deleter * pointer) :=
  if is_nullptr p then [] else [(d, p)].

(** The block at [a] was constructed around [p] with disposer [d]: as long
    as it has strong references the disposer has not run; afterwards it has
    run once, on [p], unless [p] is null. *)
Definition disposes (a : nat) (d : Deleter) (p : pointer) (s : state) : Prop :=
  (a < next_addr s)%nat ∧
  match heap s !! a with
  | Some (constructed b) =>
      (∃ al, derived b = ControlBlockWithoutMakeShared p d al) ∧
      deleter_calls a (trace s) =
        if decide (refs (shared_ptrs s) a = 0%nat) then disposal d p else []
  | Some uninitialized => False
  | None => deleter_calls a (trace s) = disposal d p
  end.

(** ** The managed object *)

(** The value a pointer points to, for a pointer into a control block. *)
Definition pointee (s : state) (p : pointer) : option T :=
  match p with
  | object_of a =>
      match heap s !! a with
      | Some (constructed b) =>
          match derived b with
          | ControlBlockWithMakeShared object _ => Some object
          | ControlBlockWithoutMakeShared _ _ _ => None
          end
      | _ => None
      end
  | _ => None
  end.

(** ** Running a program through states that fit in memory *)

Definition fitsb (s : state) : bool :=
  8 * Z.of_nat (population s) <? size_t_modulus.

Fixpoint run_fitting (p : list stmt) (s : state) : option state :=
  match p with
  | [] => Some s
  | c :: p' =>
      if fitsb s then
        match exec c s with
        | Ret _ s' => run_fitting p' s'
        | Throw s' => run_fitting p' s'
        | Undefined => None
        end
      else None
  end.

(** No disposer has run for a block address not handed out yet. *)
Definition untouched (s : state) : Prop :=
  ∀ a, (next_addr s ≤ a)%nat → deleter_calls a (trace s) = [].

(** ** Everything that happens to one block *)

(** The events about the block at [a]. *)
Definition about (a : nat) (e : event) : bool :=
  match e with
  | EvAllocate _ a' => bool_decide (a' = a)
  | EvDestroy a' => bool_decide (a' = a)
  | EvDeleter a' _ _ => bool_decide (a' = a)
  | EvDestructObject a' _ => bool_decide (a' = a)
  | EvDeallocate a' _ => bool_decide (a' = a)
  end.

Definition block_trace (a : nat) (t : list event) : list event :=
  List.filter (about a) t.

(** The calls made so far on a block with the fields of [b] that [owners]
    Strong Pointers and [observers] Weak Pointers reference. *)
Definition lifetime_events (a : nat) (b : BaseControlBlock) (owners observers : nat)
    : list event :=
  EvAllocate (block_alloc b) a ::
  (if decide (owners = 0%nat) then destroy_events a b else []) ++
  (if decide (owners = 0%nat ∧ observers = 0%nat)
   then [EvDeallocate a (block_alloc b)] else []).

(** The block at [a] was constructed with the derived part [d], and has
    it as long as it is in memory. *)
Definition keeps (a : nat) (d : derived_block) (s : state) : Prop :=
  (a < next_addr s)%nat ∧
  match heap s !! a with
  | Some (constructed b) => derived b = d
  | Some uninitialized => False
  | None => True
  end.

(** Moreover the trace has the calls of its life so far. *)
Definition life (a : nat) (d : derived_block) (s : state) : Prop :=
  keeps a d s ∧
  block_trace a (trace s) =
    lifetime_events a (mkBlock 0 0 d) (refs (shared_ptrs s) a) (refs (weak_ptrs s) a).

(** How often the managed object of the block at [a] was given to the
    disposer or had its destructor run. *)
Definition about_object_end (a : nat) (e : event) : bool :=
  match e with
  | EvDeleter a' _ _ => bool_decide (a' = a)
  | EvDestructObject a' _ => bool_decide (a' = a)
  | _ => false
  end.
Definition object_ends (a : nat) (t : list event) : nat :=
  occurrences (about_object_end a) t.

(** ** Outcomes up to the pointer stores *)

Definition on_state {X} (f : state → state) (o : outcome X) : outcome X :=
  match o with
  | Ret x s => Ret x (f s)
  | Throw s => Throw (f s)
  | Undefined => Undefined
  end.

(** ** Statements on live objects *)

Definition live (m : gmap nat (option nat)) (l : nat) : bool :=
  match m !! l with Some _ => true | None => false end.

(** A declaration names an object that is not live, every other operand is
    a live object. *)
Definition well_scoped (c : stmt) (s : state) : bool :=
  let sp := live (shared_ptrs s) in
  let wp := live (weak_ptrs s) in
  match c with
  | DeclShared x => negb (sp x)
  | DeclSharedCopy x y => negb (sp x) && sp y
  | DeclSharedMove x y => negb (sp x) && sp y
  | DeclSharedPtr x _ _ _ => negb (sp x)
  | DeclAllocateShared x _ _ => negb (sp x)
  | DeclMakeShared x _ => negb (sp x)
  | AssignShared x y => sp x && sp y
  | MoveAssignShared x y => sp x && sp y
  | SwapShared x y => sp x && sp y
  | ResetShared x => sp x
  | ResetSharedPtr x _ => sp x
  | DestroyShared x => sp x
  | DeclWeak w => negb (wp w)
  | DeclWeakCopy w v => negb (wp w) && wp v
  | DeclWeakShared w x => negb (wp w) && sp x
  | DeclWeakMove w v => negb (wp w) && wp v
  | AssignWeak w v => wp w && wp v
  | MoveAssignWeak w v => wp w && wp v
  | AssignWeakShared w x => wp w && sp x
  | DestroyWeak w => wp w
  | DeclLock x w => negb (sp x) && wp w
  end.

(** ** Allocations *)

Definition is_allocate (e : event) : bool :=
  match e with EvAllocate _ _ => true | _ => false end.

(** How often [AllocTraits::allocate] was called. *)
Definition allocations (t : list event) : nat := occurrences is_allocate t.

(** The statements that construct a control block. *)
Definition creates (c : stmt) : bool :=
  match c with
  | DeclSharedPtr _ _ _ _ | DeclAllocateShared _ _ _ | DeclMakeShared _ _
  | ResetSharedPtr _ _ => true
  | _ => false
  end.

(** The statements that run the destructor of a pointer that may
    reference a block. *)
Definition releases (c : stmt) : bool :=
  match c with
  | AssignShared _ _ | MoveAssignShared _ _ | ResetShared _ | ResetSharedPtr _ _
  | DestroyShared _ | AssignWeak _ _ | MoveAssignWeak _ _ | AssignWeakShared _ _
  | DestroyWeak _ => true
  | _ => false
  end.

(** A computation that, when it returns, has added nothing to the trace,
    and one that has added [n] allocations, and maybe other calls. *)
Definition silent {X} (m : M X) : Prop :=
  ∀ s x s', m s = Ret x s' → trace s' = trace s.
Definition allocates {X} (n : nat) (m : M X) : Prop :=
  ∀ s x s', m s = Ret x s' → ∃ new, trace s' = trace s ++ new ∧ allocations new = n.

(** ** Destructors that use pointer objects

    [destroy()] runs client code: [deleter(ptr)], or [~T()] through
    [AllocTraits::destroy].  A class with SharedPtr or WeakPtr members
    destroys them in its destructor, and the body of a destructor or of a
    disposer may assign or reset pointers.  That code runs before
    [destroy()] returns and may itself end up in [destroy()] on another
    block.

    [object_dtor a] lists, in order, the statements on pointer objects
    that the disposer or the destructor of the object managed by the block
    at [a] runs; the list is empty for an object that has nothing to do
    with pointer objects, and then [destroy()] is the call given by
    [cb_destroy].  [depth] bounds how deep destructor calls may nest.
    [~SharedPtr()] is [noexcept], as every destructor is unless declared
    otherwise: an exception that reaches it ends the program. *)

Inductive nested_outcome (X : Type) : Type :=
| Done (o : outcome X)   (* the call ends as [o] says *)
| Terminated             (* [std::terminate]: an exception has left a destructor *)
| Too_deep.              (* destructor calls nest deeper than the bound *)
Arguments Done {X} o.
Arguments Terminated {X}.
Arguments Too_deep {X}.

Definition nested (X : Type) : Type := state → nested_outcome X.

(** A call that runs no destructor of a managed object. *)
Definition leaf {X} (m : M X) : nested X := λ s, Done (m s).

Definition nested_bind {X Y} (m : nested X) (k : X → nested Y) : nested Y :=
  λ s, match m s with
       | Done (Ret x s') => k x s'
       | Done (Throw s') => Done (Throw s')
       | Done Undefined => Done Undefined
       | Terminated => Terminated
       | Too_deep => Too_deep
       end.

Definition too_deep {X} : nested X := λ _, Too_deep.

(** A [noexcept] function. *)
Definition noexcept {X} (m : nested X) : nested X :=
  λ s, match m s with
       | Done (Throw _) => Terminated
       | o => o
       end.

#[local] Instance nested_mret : MRet nested := λ X x, leaf (ret x).
#[local] Instance nested_mbind : MBind nested := λ X Y k m, nested_bind m k.

Section With_destroy.

(** [cb->destroy()], as it runs at the present depth. *)
Variable destroy : nat → nested unit.

(** [~SharedPtr()] *)
Definition SharedPtr_dtor_with (this : nat) : nested unit :=
  noexcept
    (cb ← leaf (sp_get this);
     match cb with
     | None => leaf (ret tt)
     | Some a =>
         b ← leaf (load a);
         leaf (store a (set_shared_count (size_t_wrap (shared_count b - 1)) b));;
         b ← leaf (load a);
         if shared_count b =? 0 then
           destroy a;;
           b ← leaf (load a);
           if weak_count b =? 0 then leaf (cb_deallocate a) else leaf (ret tt)
         else leaf (ret tt)
     end;;
     leaf (sp_end this)).

(** [operator=(SharedPtr&& other)] *)
Definition SharedPtr_assign_move_with (this other : nat) : nested unit :=
  leaf (sp_live this);;
  new_ptr ← leaf sp_fresh;
  leaf (SharedPtr_ctor_move new_ptr other);;
  leaf (SharedPtr_swap this new_ptr);;
  SharedPtr_dtor_with new_ptr.

(** [operator=(const SharedPtr& other)] *)
Definition SharedPtr_assign_copy_with (this other : nat) : nested unit :=
  leaf (sp_live this);;
  tmp_shared_ptr ← leaf sp_fresh;
  leaf (SharedPtr_ctor_copy tmp_shared_ptr other);;
  leaf (SharedPtr_swap this tmp_shared_ptr);;
  SharedPtr_dtor_with tmp_shared_ptr.

(** [reset()] *)
Definition SharedPtr_reset_with (this : nat) : nested unit :=
  leaf (sp_live this);;
  tmp ← leaf sp_fresh;
  leaf (SharedPtr_ctor_default tmp);;
  SharedPtr_assign_move_with this tmp;;
  SharedPtr_dtor_with tmp.

(** [reset(Y* ptr)] *)
Definition SharedPtr_reset_ptr_with (this : nat) (ptr : pointer) : nested unit :=
  leaf (sp_live this);;
  tmp ← leaf sp_fresh;
  leaf (SharedPtr_ctor_ptr tmp ptr None None);;
  SharedPtr_assign_move_with this tmp;;
  SharedPtr_dtor_with tmp.

(** The statements that run [~SharedPtr()] reach [destroy()]; no other
    statement does. *)
Definition exec_with (c : stmt) : nested unit :=
  match c with
  | AssignShared x y => SharedPtr_assign_copy_with x y
  | MoveAssignShared x y => SharedPtr_assign_move_with x y
  | ResetShared x => SharedPtr_reset_with x
  | ResetSharedPtr x p => SharedPtr_reset_ptr_with x p
  | DestroyShared x => SharedPtr_dtor_with x
  | _ => leaf (exec c)
  end.

End With_destroy.

(** The statements of a destructor, in order. *)
Fixpoint run_with (e : stmt → nested unit) (p : list stmt) : nested unit :=
  match p with
  | [] => leaf (ret tt)
  | c :: p' => e c;; run_with e p'
  end.

Section Nested.

Variable object_dtor : nat → list stmt.

(** [destroy()]: [deleter(ptr)] unless [ptr] is null, or
    [AllocTraits::destroy(rebind_alloc, &object)]; either call runs the
    statements of [object_dtor], by [run_dtor]. *)
Definition cb_destroy_with (run_dtor : list stmt → nested unit) (a : nat) : nested unit :=
  b ← leaf (load a);
  leaf (emit (EvDestroy a));;
  match derived b with
  | ControlBlockWithoutMakeShared ptr deleter _ =>
      if is_nullptr ptr then leaf (ret tt)
      else leaf (emit (EvDeleter a deleter ptr));; run_dtor (object_dtor a)
  | ControlBlockWithMakeShared _ rebind_alloc =>
      leaf (emit (EvDestructObject a rebind_alloc));; run_dtor (object_dtor a)
  end.

(** A statement, whose destructor calls nest at most [depth] deep: the
    statements that [destroy()] runs go one level further down. *)
Fixpoint exec_nested (depth : nat) (c : stmt) : nested unit :=
  match depth with
  | O => too_deep
  | S depth' => exec_with (cb_destroy_with (run_with (exec_nested depth'))) c
  end.

Definition run_nested (depth : nat) (p : list stmt) : nested unit :=
  run_with (exec_nested depth) p.

(** [destroy()] whose destructor statements nest at most [depth] deep. *)
Definition cb_destroy_nested (depth : nat) (a : nat) : nested unit :=
  cb_destroy_with (run_nested depth) a.

(** [~SharedPtr()] *)
Definition SharedPtr_dtor_nested (depth : nat) (this : nat) : nested unit :=
  SharedPtr_dtor_with (cb_destroy_nested depth) this.

(** No destructor of a managed object and no disposer uses a pointer
    object. *)
Definition plain_objects : Prop := ∀ a, object_dtor a = [].

Definition step_nested (s s' : state) : Prop :=
  fits s ∧ ∃ depth c, exec_nested depth c s = Done (Ret tt s') ∨
                      exec_nested depth c s = Done (Throw s').

(** The states a client program can be in between two statements. *)
Inductive reachable_nested : state → Prop :=
| reachable_nested_initial : reachable_nested initial_state
| reachable_nested_step s s' :
    reachable_nested s → step_nested s s' → reachable_nested s'.

(** Running a program through states that fit in memory. *)
Fixpoint run_fitting_nested (depth : nat) (p : list stmt) (s : state) : option state :=
  match p with
  | [] => Some s
  | c :: p' =>
      if fitsb s then
        match exec_nested depth c s with
        | Done (Ret _ s') => run_fitting_nested depth p' s'
        | Done (Throw s') => run_fitting_nested depth p' s'
        | _ => None
        end
      else None
  end.

End Nested.

End SharedPtr.

Arguments Ret {T Deleter Allocator X} x s.
Arguments Throw {T Deleter Allocator X} s.
Arguments Undefined {T Deleter Allocator X}.
Arguments Done {T Deleter Allocator X} o.
Arguments Terminated {T Deleter Allocator X}.
Arguments Too_deep {T Deleter Allocator X}.

(** * A concrete instantiation

    Managed objects are integers whose constructor throws on a negative
    argument; disposers and allocators are identified by numbers, the
    default-constructed one being number 0. *)

#[export] Instance nat_DefaultConstructible : DefaultConstructible nat := 0%nat.

Definition construct_Z (z : Z) : option Z :=
  if z <? 0 then None else Some z.

(** The state after the program [p], run from the initial state. *)
Definition state_after (p : list (@stmt Z nat nat)) : @state Z nat nat :=
  default initial_state (run_fitting construct_Z p initial_state).

(** [auto a = makeShared<int>(42); SharedPtr<int> b(a);] *)
Definition two_owners : list (@stmt Z nat nat) :=
  [DeclMakeShared 0%nat 42; DeclSharedCopy 1%nat 0%nat].

(** [auto a = makeShared<int>(42); WeakPtr<int> w(a); WeakPtr<int> v;] *)
Definition owner_and_observers : list (@stmt Z nat nat) :=
  [DeclMakeShared 0%nat 42; DeclWeakShared 0%nat 0%nat; DeclWeak 1%nat].


(** [auto a = makeShared<int>(42);] *)
Definition single_owner : list (@stmt Z nat nat) :=
  [DeclMakeShared 0%nat 42].

(** [SharedPtr<int> a(p, d, al);] with [p] at address 7, disposer 3 and
    allocator 9. *)
Definition adopted : list (@stmt Z nat nat) :=
  [DeclSharedPtr 0%nat (at_address 7) (Some 3%nat) (Some 9%nat)].

(** [SharedPtr<int> b(a); a ends; WeakPtr<int> w(b); b ends; w ends.] *)
Definition share_then_release_all : list (@stmt Z nat nat) :=
  [DeclSharedCopy 1%nat 0%nat; DestroyShared 0%nat; DeclWeakShared 0%nat 1%nat;
   DestroyShared 1%nat; DestroyWeak 0%nat].


(** [auto a = allocateShared<int>(al, 42);] with allocator 5. *)
Definition allocated : list (@stmt Z nat nat) :=
  [DeclAllocateShared 0%nat 5%nat 42].

(** [auto a = makeShared<int>(42); WeakPtr<int> w(a); a ends.] *)
Definition expired_observer : list (@stmt Z nat nat) :=
  [DeclMakeShared 0%nat 42; DeclWeakShared 0%nat 0%nat; DestroyShared 0%nat].

(** [auto a = makeShared<int>(-1);], whose constructor throws. *)
Definition failed_construction : list (@stmt Z nat nat) :=
  [DeclMakeShared 0%nat (-1)].


(** The destructor of an [int] uses no pointer object. *)
Definition int_dtor (a : nat) : list (@stmt Z nat nat) := [].

(** [struct Node { int value; WeakPtr<Node> self; };
    auto p = makeShared<Node>(42); p->self = p;]
    The member [self] of the new object is the WeakPtr at location 0;
    [Node(int)] default-constructs it. *)
Definition self_observer : list (@stmt Z nat nat) :=
  [DeclMakeShared 0%nat 42; DeclWeak 0%nat; AssignWeakShared 0%nat 0%nat].

(** [~Node()] destroys the member [self] of the object in the block at 0. *)
Definition Node_dtor (a : nat) : list (@stmt Z nat nat) :=
  if decide (a = 0%nat) then [DestroyWeak 0%nat] else [].

(** [struct Parent { int value; SharedPtr<Child> child; };
    struct Child { int value; WeakPtr<Parent> parent; };
    auto p = makeShared<Parent>(1); p->child = makeShared<Child>(2);
    p->child->parent = p;]
    [p] is the SharedPtr at location 0, the member [child] of the parent
    the one at location 1, the temporary that [makeShared<Child>] returns
    the one at location 2, and the member [parent] of the child is the
    WeakPtr at location 0. *)
Definition parent_and_child : list (@stmt Z nat nat) :=
  [DeclMakeShared 0%nat 1; DeclShared 1%nat;
   DeclMakeShared 2%nat 2; DeclWeak 0%nat; MoveAssignShared 1%nat 2%nat; DestroyShared 2%nat;
   AssignWeakShared 0%nat 0%nat].

(** [~Parent()] destroys the member [child] of the object in the block at
    0, [~Child()] the member [parent] of the object in the block at 1. *)
Definition family_dtor (a : nat) : list (@stmt Z nat nat) :=
  if decide (a = 0%nat) then [DestroyShared 1%nat]
  else if decide (a = 1%nat) then [DestroyWeak 0%nat]
  else [].

(** [struct Item { int value; SharedPtr<Item> next; };
    auto x = makeShared<Item>(1); x->next = makeShared<Item>(2);]
    [x] is the SharedPtr at location 0, the member [next] of the first
    item the one at location 1, the temporary that the second
    [makeShared<Item>] returns the one at location 2, and the member
    [next] of the second item the one at location 3. *)
Definition two_items : list (@stmt Z nat nat) :=
  [DeclMakeShared 0%nat 1; DeclShared 1%nat;
   DeclMakeShared 2%nat 2; DeclShared 3%nat; MoveAssignShared 1%nat 2%nat; DestroyShared 2%nat].

(** [~Item()] destroys the member [next]. *)
Definition Item_dtor (a : nat) : list (@stmt Z nat nat) :=
  if decide (a = 0%nat) then [DestroyShared 1%nat]
  else if decide (a = 1%nat) then [DestroyShared 3%nat]
  else [].


(** * Proofs *)

Section Proofs.

Context {T Args Deleter Allocator : Type}.
Context `{DefaultConstructible Deleter} `{DefaultConstructible Allocator}.
Variable construct_T : Args → option T.

Abbreviation state := (@state T Deleter Allocator).
Abbreviation event := (@event Deleter Allocator).
Abbreviation BaseControlBlock := (@BaseControlBlock T Deleter Allocator).
Abbreviation M := (@M T Deleter Allocator).
Abbreviation stmt := (@stmt Args Deleter Allocator).

(** Projections of explicit states are computed, nothing else is unfolded. *)
Ltac state_simpl :=
  cbn [heap next_addr shared_ptrs weak_ptrs trace
       with_heap with_shared_ptrs with_weak_ptrs with_trace sp_drop wp_drop
       shared_count weak_count derived set_shared_count set_weak_count].

(** ** Counting references in a store *)

Lemma refs_empty a : refs ∅ a = 0%nat.
Proof. unfold refs. by rewrite map_to_list_empty. Qed.

Lemma refs_insert_fresh (m : gmap nat (option nat)) l c a :
  m !! l = None → refs (<[l := c]> m) a = (one_if c a + refs m a)%nat.
Proof.
  intros Hl. unfold refs, one_if.
  rewrite (map_to_list_insert m l c Hl), filter_cons. simpl.
  destruct (decide (c = Some a)); reflexivity.
Qed.

Lemma refs_delete_live (m : gmap nat (option nat)) l c a :
  m !! l = Some c → refs m a = (one_if c a + refs (delete l m) a)%nat.
Proof.
  intros Hl. unfold refs, one_if.
  rewrite <- (map_to_list_delete m l c Hl), filter_cons. simpl.
  destruct (decide (c = Some a)); reflexivity.
Qed.

Lemma refs_delete_dead (m : gmap nat (option nat)) l a :
  m !! l = None → refs (delete l m) a = refs m a.
Proof. intros Hl. by rewrite delete_id. Qed.

Lemma refs_insert_live (m : gmap nat (option nat)) l c0 c a :
  m !! l = Some c0 →
  (refs (<[l := c]> m) a + one_if c0 a = one_if c a + refs m a)%nat.
Proof.
  intros Hl. rewrite <- (insert_delete_eq m l c).
  rewrite refs_insert_fresh by apply lookup_delete_eq.
  rewrite (refs_delete_live m l c0 a Hl). lia.
Qed.

Lemma refs_le_size (m : gmap nat (option nat)) a : (refs m a ≤ size m)%nat.
Proof.
  unfold refs. rewrite <- length_map_to_list. apply length_filter.
Qed.

Lemma refs_lookup (m : gmap nat (option nat)) l a :
  m !! l = Some (Some a) → (0 < refs m a)%nat.
Proof.
  intros Hl. rewrite (refs_delete_live m l (Some a) a Hl).
  unfold one_if. rewrite decide_True by done. lia.
Qed.

Lemma refs_zero_lookup (m : gmap nat (option nat)) l a :
  refs m a = 0%nat → m !! l ≠ Some (Some a).
Proof. intros Hz Hl. apply refs_lookup in Hl. lia. Qed.

Lemma one_if_same a : one_if (Some a) a = 1%nat.
Proof. unfold one_if. by rewrite decide_True. Qed.

Lemma one_if_None a : one_if None a = 0%nat.
Proof. reflexivity. Qed.

Lemma one_if_other a a' : a' ≠ a → one_if (Some a') a = 0%nat.
Proof. intros. unfold one_if. rewrite decide_False; [done | congruence]. Qed.

Lemma one_if_le c a : (one_if c a ≤ 1)%nat.
Proof. unfold one_if. destruct (decide _); lia. Qed.

(** ** Counting calls in a trace *)

Lemma occurrences_app p (t1 t2 : list event) :
  occurrences p (t1 ++ t2) = (occurrences p t1 + occurrences p t2)%nat.
Proof. unfold occurrences. by rewrite List.filter_app, length_app. Qed.

Lemma destroy_calls_app a (t1 t2 : list event) :
  destroy_calls a (t1 ++ t2) = (destroy_calls a t1 + destroy_calls a t2)%nat.
Proof. apply occurrences_app. Qed.

Lemma deallocate_calls_app a (t1 t2 : list event) :
  deallocate_calls a (t1 ++ t2) = (deallocate_calls a t1 + deallocate_calls a t2)%nat.
Proof. apply occurrences_app. Qed.

Lemma deleter_calls_app a (t1 t2 : list event) :
  deleter_calls a (t1 ++ t2) = deleter_calls a t1 ++ deleter_calls a t2.
Proof.
  induction t1 as [|e t1 IH]; [done|].
  destruct e; simpl; try apply IH.
  case_bool_decide; simpl; by rewrite IH.
Qed.

Lemma destroy_calls_destroy_events a a' (b : BaseControlBlock) :
  destroy_calls a (destroy_events a' b) = if decide (a' = a) then 1%nat else 0%nat.
Proof.
  unfold destroy_events, destroy_calls, occurrences. simpl.
  destruct (derived b) as [ptr d al | obj al]; [destruct (is_nullptr ptr)|];
    simpl; repeat case_bool_decide; repeat case_decide; simpl; congruence.
Qed.

Lemma deallocate_calls_destroy_events a a' (b : BaseControlBlock) :
  deallocate_calls a (destroy_events a' b) = 0%nat.
Proof.
  unfold destroy_events, deallocate_calls, occurrences. simpl.
  destruct (derived b) as [ptr d al | obj al]; [destruct (is_nullptr ptr)|]; reflexivity.
Qed.

Lemma destroy_calls_allocate a al a' :
  destroy_calls a [EvAllocate al a' : event] = 0%nat.
Proof. reflexivity. Qed.

Lemma deallocate_calls_allocate a al a' :
  deallocate_calls a [EvAllocate al a' : event] = 0%nat.
Proof. reflexivity. Qed.

Lemma destroy_calls_deallocate a a' al :
  destroy_calls a [EvDeallocate a' al : event] = 0%nat.
Proof. reflexivity. Qed.

Lemma deallocate_calls_deallocate a a' al :
  deallocate_calls a [EvDeallocate a' al : event] = if decide (a' = a) then 1%nat else 0%nat.
Proof.
  unfold deallocate_calls, occurrences. simpl.
  case_bool_decide; case_decide; simpl; congruence.
Qed.

(** ** Stores after a move and after a swap *)

Lemma refs_move (m : gmap nat (option nat)) l y c a :
  m !! l = None → m !! y = Some c →
  refs (<[y := None]> (<[l := c]> m)) a = refs m a.
Proof.
  intros Hl Hy.
  assert (l ≠ y) by congruence.
  pose proof (refs_insert_live (<[l := c]> m) y c None a) as E.
  rewrite lookup_insert_ne in E by done.
  specialize (E Hy). rewrite (refs_insert_fresh m l c a Hl) in E.
  rewrite one_if_None in E. lia.
Qed.

Lemma refs_swap (m : gmap nat (option nat)) x y cx cy a :
  m !! x = Some cx → m !! y = Some cy →
  refs (<[y := cx]> (<[x := cy]> m)) a = refs m a.
Proof.
  intros Hx Hy.
  pose proof (refs_insert_live m x cx cy a Hx) as E1.
  assert (<[x := cy]> m !! y = Some cy) as Hy'.
  { rewrite lookup_insert. case_decide; [done | exact Hy]. }
  pose proof (refs_insert_live _ y cy cx a Hy') as E2.
  lia.
Qed.

(** ** The invariant is kept by every call *)

Lemma cell_ok_ext (s s' : state) a :
  heap s' !! a = heap s !! a →
  next_addr s' = next_addr s →
  refs (shared_ptrs s') a = refs (shared_ptrs s) a →
  refs (weak_ptrs s') a = refs (weak_ptrs s) a →
  destroy_calls a (trace s') = destroy_calls a (trace s) →
  deallocate_calls a (trace s') = deallocate_calls a (trace s) →
  cell_ok s a → cell_ok s' a.
Proof.
  unfold cell_ok, unheld. intros -> -> E1 E2 E3 E4.
  destruct (heap s !! a) as [[|b]|]; rewrite ?E1, ?E2, ?E3, ?E4; try done.
  intros [Hlt [? ? ? ? ?]]. split.
  - exact Hlt.
  - constructor; rewrite ?E1, ?E2, ?E3, ?E4; assumption.
Qed.

Lemma wf_next_free (s : state) : wf s → heap s !! next_addr s = None.
Proof.
  intros Hwf. specialize (Hwf (next_addr s)). unfold cell_ok in Hwf.
  destruct (heap s !! next_addr s) as [[|b]|]; [lia | lia | done].
Qed.

Lemma wf_beyond_free (s : state) a : wf s → (next_addr s ≤ a)%nat → heap s !! a = None.
Proof.
  intros Hwf Hle. specialize (Hwf a). unfold cell_ok in Hwf.
  destruct (heap s !! a) as [[|b]|]; [lia | lia | done].
Qed.

Lemma wf_block (s : state) a b :
  wf s → heap s !! a = Some (constructed b) → (a < next_addr s)%nat ∧ block_ok s a b.
Proof. intros Hwf Ha. specialize (Hwf a). unfold cell_ok in Hwf. by rewrite Ha in Hwf. Qed.

Lemma wf_shared_target (s : state) l a :
  wf s → shared_ptrs s !! l = Some (Some a) →
  ∃ b, heap s !! a = Some (constructed b) ∧ 0 < shared_count b.
Proof.
  intros Hwf Hl. pose proof (refs_lookup _ _ _ Hl) as Hpos.
  specialize (Hwf a). unfold cell_ok, unheld in Hwf.
  destruct (heap s !! a) as [[|b]|].
  - lia.
  - exists b. split; [done|]. destruct Hwf as [_ [Hs _ _ _ _]]. lia.
  - lia.
Qed.

Lemma wf_weak_target (s : state) l a :
  wf s → weak_ptrs s !! l = Some (Some a) →
  ∃ b, heap s !! a = Some (constructed b) ∧ 0 < weak_count b.
Proof.
  intros Hwf Hl. pose proof (refs_lookup _ _ _ Hl) as Hpos.
  specialize (Hwf a). unfold cell_ok, unheld in Hwf.
  destruct (heap s !! a) as [[|b]|].
  - lia.
  - exists b. split; [done|]. destruct Hwf as [_ [_ Hw _ _ _]]. lia.
  - lia.
Qed.

Lemma cell_ok_next (s s' : state) a :
  a ≠ next_addr s →
  heap s' !! a = heap s !! a →
  next_addr s' = S (next_addr s) →
  refs (shared_ptrs s') a = refs (shared_ptrs s) a →
  refs (weak_ptrs s') a = refs (weak_ptrs s) a →
  destroy_calls a (trace s') = destroy_calls a (trace s) →
  deallocate_calls a (trace s') = deallocate_calls a (trace s) →
  cell_ok s a → cell_ok s' a.
Proof.
  unfold cell_ok, unheld. intros Hne -> -> E1 E2 E3 E4.
  destruct (heap s !! a) as [[|b]|]; rewrite ?E1, ?E2, ?E3, ?E4.
  - intros (? & [? ?] & ? & ?). repeat split; try done; lia.
  - intros [Hlt [? ? ? ? ?]]. split; [lia|].
    constructor; rewrite ?E1, ?E2, ?E3, ?E4; assumption.
  - intros (? & -> & ->). split; [done|].
    split; repeat case_decide; try done; lia.
Qed.

Lemma quiet_wf (s s' : state) : wf s → quiet s s' → wf s'.
Proof.
  intros Hwf Hq a'. destruct Hq.
  - apply (cell_ok_ext s); simpl; rewrite ?refs_insert_fresh by done; try done.
  - destruct (decide (a' = a)) as [->|Hne].
    + destruct (wf_block s a b Hwf) as [Hlt [Hs Hw Hh Hd Hf]]; [done|].
      unfold cell_ok. simpl. rewrite lookup_insert_eq. split; [done|].
      constructor; simpl; rewrite ?refs_insert_fresh, ?one_if_same by done;
        try done; try lia.
      rewrite Hd. repeat case_decide; try done; lia.
    + apply (cell_ok_ext s); simpl;
        rewrite ?lookup_insert_ne, ?refs_insert_fresh, ?one_if_other by done; done.
  - pose proof (wf_next_free s Hwf) as Hfree.
    destruct (decide (a' = next_addr s)) as [->|Hne].
    + pose proof (Hwf (next_addr s)) as Hc. unfold cell_ok in Hc.
      rewrite Hfree in Hc. destruct Hc as ([Hs Hw] & Hd & Hf).
      rewrite decide_False in Hd, Hf by lia.
      unfold cell_ok. simpl. rewrite lookup_insert_eq. split; [lia|].
      constructor; simpl;
        rewrite ?refs_insert_fresh, ?one_if_same, ?destroy_calls_app,
          ?deallocate_calls_app, ?destroy_calls_allocate,
          ?deallocate_calls_allocate, ?Hd, ?Hf, ?Hs, ?Hw by done;
        simpl; try done; lia.
    + apply (cell_ok_next s); simpl;
        rewrite ?lookup_insert_ne, ?refs_insert_fresh, ?one_if_other,
          ?destroy_calls_app, ?deallocate_calls_app, ?destroy_calls_allocate,
          ?deallocate_calls_allocate by done; simpl; try done; lia.
  - pose proof (wf_next_free s Hwf) as Hfree.
    destruct (decide (a' = next_addr s)) as [->|Hne].
    + pose proof (Hwf (next_addr s)) as Hc. unfold cell_ok in Hc.
      rewrite Hfree in Hc. destruct Hc as ([Hs Hw] & Hd & Hf).
      rewrite decide_False in Hd, Hf by lia.
      unfold cell_ok, unheld. simpl. rewrite lookup_insert_eq.
      rewrite ?destroy_calls_app, ?deallocate_calls_app, ?destroy_calls_allocate,
        ?deallocate_calls_allocate, ?Hd, ?Hf.
      repeat split; try done; lia.
    + apply (cell_ok_next s); simpl;
        rewrite ?lookup_insert_ne, ?destroy_calls_app, ?deallocate_calls_app,
          ?destroy_calls_allocate, ?deallocate_calls_allocate by done;
        simpl; try done; lia.
  - apply (cell_ok_ext s); simpl; rewrite ?(refs_move _ _ _ c) by done; done.
  - apply (cell_ok_ext s); simpl; rewrite ?(refs_swap _ _ _ cx cy) by done; done.
  - apply (cell_ok_ext s); simpl; try done.
    rewrite (refs_delete_live (shared_ptrs s) l None a') by done.
    by rewrite one_if_None.
  - apply (cell_ok_ext s); simpl; rewrite ?refs_insert_fresh by done; try done.
  - destruct (decide (a' = a)) as [->|Hne].
    + destruct (wf_block s a b Hwf) as [Hlt [Hs Hw Hh Hd Hf]]; [done|].
      unfold cell_ok. simpl. rewrite lookup_insert_eq. split; [done|].
      constructor; simpl; rewrite ?refs_insert_fresh, ?one_if_same by done;
        try done; try lia.
    + apply (cell_ok_ext s); simpl;
        rewrite ?lookup_insert_ne, ?refs_insert_fresh, ?one_if_other by done; done.
  - apply (cell_ok_ext s); simpl; rewrite ?(refs_move _ _ _ c) by done; done.
  - apply (cell_ok_ext s); simpl; rewrite ?(refs_swap _ _ _ cx cy) by done; done.
  - apply (cell_ok_ext s); simpl; try done.
    rewrite (refs_delete_live (weak_ptrs s) l None a') by done.
    by rewrite one_if_None.
Qed.

Lemma released_wf a (s s' : state) : wf s → released a s s' → wf s'.
Proof.
  intros Hwf Hr a'. destruct Hr as [s l b Hl Ha | s l b Hl Ha].
  - destruct (wf_block s a b Hwf Ha) as [Hlt [Hs Hw Hh Hd Hf]].
    pose proof (refs_delete_live (shared_ptrs s) l (Some a) a' Hl) as Hdel.
    unfold after_shared_release.
    destruct (decide (a' = a)) as [->|Hne].
    + rewrite one_if_same in Hdel.
      destruct (shared_count b =? 1) eqn:E1; [destruct (weak_count b =? 0) eqn:E2|].
      * apply Z.eqb_eq in E1. apply Z.eqb_eq in E2.
        unfold cell_ok, unheld. state_simpl. rewrite lookup_delete_eq.
        rewrite !destroy_calls_app, !deallocate_calls_app, destroy_calls_destroy_events,
          deallocate_calls_destroy_events, destroy_calls_deallocate,
          deallocate_calls_deallocate, Hd, Hf.
        repeat case_decide; repeat split; lia.
      * apply Z.eqb_eq in E1. apply Z.eqb_neq in E2.
        unfold cell_ok. state_simpl. rewrite lookup_insert_eq. split; [done|].
        constructor; state_simpl;
          rewrite ?destroy_calls_app, ?deallocate_calls_app, ?destroy_calls_destroy_events,
            ?deallocate_calls_destroy_events, ?Hd, ?Hf; try lia.
        repeat case_decide; lia.
      * apply Z.eqb_neq in E1.
        unfold cell_ok. state_simpl. rewrite lookup_insert_eq. split; [done|].
        constructor; state_simpl; rewrite ?Hd; try done; try lia.
        repeat case_decide; lia.
    + rewrite one_if_other in Hdel by done.
      destruct (shared_count b =? 1); [destruct (weak_count b =? 0)|];
        apply (cell_ok_ext s); state_simpl;
        rewrite ?lookup_delete_ne, ?lookup_insert_ne, ?destroy_calls_app,
          ?deallocate_calls_app, ?destroy_calls_destroy_events,
          ?deallocate_calls_destroy_events, ?destroy_calls_deallocate,
          ?deallocate_calls_deallocate, ?decide_False by done; try done; lia.
  - destruct (wf_block s a b Hwf Ha) as [Hlt [Hs Hw Hh Hd Hf]].
    pose proof (refs_delete_live (weak_ptrs s) l (Some a) a' Hl) as Hdel.
    unfold after_weak_release.
    destruct (decide (a' = a)) as [->|Hne].
    + rewrite one_if_same in Hdel.
      destruct ((weak_count b =? 1) && (shared_count b =? 0)) eqn:E.
      * apply andb_true_iff in E. destruct E as [E1 E2].
        apply Z.eqb_eq in E1. apply Z.eqb_eq in E2.
        unfold cell_ok, unheld. state_simpl. rewrite lookup_delete_eq.
        rewrite !destroy_calls_app, !deallocate_calls_app, destroy_calls_deallocate,
          deallocate_calls_deallocate, Hd, Hf.
        repeat case_decide; repeat split; lia.
      * apply andb_false_iff in E.
        unfold cell_ok. state_simpl. rewrite lookup_insert_eq. split; [done|].
        constructor; state_simpl; try done;
          destruct E as [E|E]; apply Z.eqb_neq in E; lia.
    + rewrite one_if_other in Hdel by done.
      destruct ((weak_count b =? 1) && (shared_count b =? 0));
        apply (cell_ok_ext s); state_simpl;
        rewrite ?lookup_delete_ne, ?lookup_insert_ne, ?destroy_calls_app,
          ?deallocate_calls_app, ?destroy_calls_deallocate,
          ?deallocate_calls_deallocate, ?decide_False by done; try done; lia.
Qed.

(** ** What each constructor, destructor and swap computes *)

Lemma size_t_wrap_small z : 0 ≤ z < size_t_modulus → size_t_wrap z = z.
Proof. intros. unfold size_t_wrap. by apply Z.mod_small. Qed.

Ltac lookup_step :=
  first
    [ rewrite lookup_insert_eq
    | rewrite lookup_delete_eq
    | rewrite lookup_insert_ne by done
    | rewrite lookup_delete_ne by done
    | match goal with
      | E : ?m !! ?k = _ |- context [?m !! ?k] => rewrite E
      end ].

Ltac run_code :=
  unfold mbind, mret, M_bind, M_ret, bind, ret, throw, unwinding,
    sp_get, sp_set, sp_begin, sp_end, wp_get, wp_set, wp_begin, wp_end,
    load, store, emit, allocate, emplace, release_memory;
  state_simpl;
  repeat (lookup_step; state_simpl).

Lemma state_eq (s1 s2 : state) :
  heap s1 = heap s2 → next_addr s1 = next_addr s2 →
  shared_ptrs s1 = shared_ptrs s2 → weak_ptrs s1 = weak_ptrs s2 →
  trace s1 = trace s2 → s1 = s2.
Proof. destruct s1, s2. simpl. by intros -> -> -> -> ->. Qed.

Lemma SharedPtr_ctor_default_eval (s : state) this :
  shared_ptrs s !! this = None →
  SharedPtr_ctor_default this s
  = Ret tt (with_shared_ptrs (<[this := None]> (shared_ptrs s)) s).
Proof. intros Hl. unfold SharedPtr_ctor_default. by run_code. Qed.

Lemma SharedPtr_ctor_cb_null_eval (s : state) this :
  shared_ptrs s !! this = None →
  SharedPtr_ctor_cb this None s
  = Ret tt (with_shared_ptrs (<[this := None]> (shared_ptrs s)) s).
Proof.
  intros Hl. unfold SharedPtr_ctor_cb. run_code.
  f_equal. apply state_eq; state_simpl; try done. by rewrite insert_insert_eq.
Qed.

Lemma SharedPtr_ctor_cb_eval (s : state) this a b :
  shared_ptrs s !! this = None →
  heap s !! a = Some (constructed b) →
  0 ≤ shared_count b < size_t_modulus - 1 →
  SharedPtr_ctor_cb this (Some a) s
  = Ret tt (mkState (<[a := constructed (set_shared_count (shared_count b + 1) b)]> (heap s))
                    (next_addr s) (<[this := Some a]> (shared_ptrs s)) (weak_ptrs s) (trace s)).
Proof.
  intros Hl Ha Hb. unfold SharedPtr_ctor_cb. run_code.
  rewrite size_t_wrap_small by lia.
  f_equal. apply state_eq; state_simpl; try done. by rewrite insert_insert_eq.
Qed.

Lemma SharedPtr_ctor_alloc_eval (s : state) this sc wc alloc args object :
  shared_ptrs s !! this = None →
  construct_T args = Some object →
  SharedPtr_ctor_alloc construct_T this sc wc alloc args s
  = Ret tt (mkState
              (<[next_addr s := constructed (mkBlock sc wc (ControlBlockWithMakeShared object alloc))]>
                 (heap s))
              (S (next_addr s)) (<[this := Some (next_addr s)]> (shared_ptrs s))
              (weak_ptrs s) (trace s ++ [EvAllocate alloc (next_addr s)])).
Proof.
  intros Hl Hc. unfold SharedPtr_ctor_alloc, ControlBlockWithMakeShared_ctor.
  rewrite Hc. run_code.
  f_equal. apply state_eq; state_simpl; try done; by rewrite insert_insert_eq.
Qed.

Lemma SharedPtr_ctor_alloc_throw (s : state) this sc wc alloc args :
  shared_ptrs s !! this = None →
  construct_T args = None →
  SharedPtr_ctor_alloc construct_T this sc wc alloc args s
  = Throw (mkState (<[next_addr s := uninitialized]> (heap s))
                   (S (next_addr s)) (shared_ptrs s)
                   (weak_ptrs s) (trace s ++ [EvAllocate alloc (next_addr s)])).
Proof.
  intros Hl Hc. unfold SharedPtr_ctor_alloc, ControlBlockWithMakeShared_ctor.
  rewrite Hc. run_code.
  f_equal. apply state_eq; state_simpl; try done.
  rewrite !delete_insert_eq. by apply delete_id.
Qed.

Lemma SharedPtr_ctor_ptr_eval (s : state) this ptr deleter alloc :
  shared_ptrs s !! this = None →
  SharedPtr_ctor_ptr this ptr deleter alloc s
  = Ret tt (mkState
              (<[next_addr s :=
                   constructed (mkBlock 1 0 (ControlBlockWithoutMakeShared ptr
                      (default default_construct deleter) default_construct))]> (heap s))
              (S (next_addr s)) (<[this := Some (next_addr s)]> (shared_ptrs s))
              (weak_ptrs s) (trace s ++ [EvAllocate default_construct (next_addr s)])).
Proof.
  intros Hl. unfold SharedPtr_ctor_ptr, ControlBlockWithoutMakeShared_ctor. run_code.
  f_equal. apply state_eq; state_simpl; try done; by rewrite insert_insert_eq.
Qed.

Lemma SharedPtr_ctor_move_eval (s : state) this other c :
  shared_ptrs s !! this = None →
  shared_ptrs s !! other = Some c →
  SharedPtr_ctor_move this other s
  = Ret tt (with_shared_ptrs (<[other := None]> (<[this := c]> (shared_ptrs s))) s).
Proof.
  intros Hl Ho. assert (this ≠ other) by congruence.
  unfold SharedPtr_ctor_move. run_code.
  f_equal. apply state_eq; state_simpl; try done. by rewrite insert_insert_eq.
Qed.

Lemma SharedPtr_swap_eval (s : state) this other cx cy :
  shared_ptrs s !! this = Some cx →
  shared_ptrs s !! other = Some cy →
  SharedPtr_swap this other s
  = Ret tt (with_shared_ptrs (<[other := cx]> (<[this := cy]> (shared_ptrs s))) s).
Proof.
  intros Hx Hy. unfold SharedPtr_swap. run_code.
  destruct (decide (this = other)) as [->|Hne]; by run_code.
Qed.

Lemma SharedPtr_dtor_null_eval (s : state) this :
  shared_ptrs s !! this = Some None →
  SharedPtr_dtor this s = Ret tt (with_shared_ptrs (delete this (shared_ptrs s)) s).
Proof. intros Hl. unfold SharedPtr_dtor. by run_code. Qed.

Lemma SharedPtr_dtor_eval (s : state) this a b :
  shared_ptrs s !! this = Some (Some a) →
  heap s !! a = Some (constructed b) →
  1 ≤ shared_count b < size_t_modulus →
  SharedPtr_dtor this s = Ret tt (after_shared_release this a b s).
Proof.
  intros Hl Ha Hb. unfold SharedPtr_dtor, after_shared_release. run_code.
  rewrite size_t_wrap_small by lia.
  destruct (decide (shared_count b = 1)) as [E|E].
  - rewrite E. change (1 - 1 =? 0) with true. change (1 =? 1) with true.
    unfold cb_destroy, cb_deallocate, destroy_events. run_code.
    destruct (weak_count b =? 0) eqn:Ew.
    + destruct (derived b) as [ptr d al|obj al] eqn:Ed; [destruct (is_nullptr ptr)|];
        run_code; rewrite ?Ew; run_code; unfold block_alloc; state_simpl; rewrite ?Ed;
        f_equal; apply state_eq; state_simpl; try done;
        rewrite ?delete_insert_eq, <- ?app_assoc; done.
    + destruct (derived b) as [ptr d al|obj al] eqn:Ed; [destruct (is_nullptr ptr)|];
        run_code; rewrite ?Ew; run_code;
        f_equal; apply state_eq; state_simpl; try done;
        rewrite ?insert_insert_eq, <- ?app_assoc; done.
  - assert ((shared_count b - 1 =? 0) = false) as -> by (apply Z.eqb_neq; lia).
    assert ((shared_count b =? 1) = false) as -> by (apply Z.eqb_neq; lia).
    done.
Qed.

Lemma WeakPtr_ctor_default_eval (s : state) this :
  weak_ptrs s !! this = None →
  WeakPtr_ctor_default this s
  = Ret tt (with_weak_ptrs (<[this := None]> (weak_ptrs s)) s).
Proof. intros Hl. unfold WeakPtr_ctor_default. by run_code. Qed.

Lemma WeakPtr_ctor_cb_null_eval (s : state) this :
  weak_ptrs s !! this = None →
  WeakPtr_ctor_cb this None s
  = Ret tt (with_weak_ptrs (<[this := None]> (weak_ptrs s)) s).
Proof.
  intros Hl. unfold WeakPtr_ctor_cb. run_code.
  f_equal. apply state_eq; state_simpl; try done. by rewrite insert_insert_eq.
Qed.

Lemma WeakPtr_ctor_cb_eval (s : state) this a b :
  weak_ptrs s !! this = None →
  heap s !! a = Some (constructed b) →
  0 ≤ weak_count b < size_t_modulus - 1 →
  WeakPtr_ctor_cb this (Some a) s
  = Ret tt (mkState (<[a := constructed (set_weak_count (weak_count b + 1) b)]> (heap s))
                    (next_addr s) (shared_ptrs s) (<[this := Some a]> (weak_ptrs s)) (trace s)).
Proof.
  intros Hl Ha Hb. unfold WeakPtr_ctor_cb. run_code.
  rewrite size_t_wrap_small by lia.
  f_equal. apply state_eq; state_simpl; try done. by rewrite insert_insert_eq.
Qed.

Lemma WeakPtr_ctor_move_eval (s : state) this other c :
  weak_ptrs s !! this = None →
  weak_ptrs s !! other = Some c →
  WeakPtr_ctor_move this other s
  = Ret tt (with_weak_ptrs (<[other := None]> (<[this := c]> (weak_ptrs s))) s).
Proof.
  intros Hl Ho. assert (this ≠ other) by congruence.
  unfold WeakPtr_ctor_move. run_code.
  f_equal. apply state_eq; state_simpl; try done. by rewrite insert_insert_eq.
Qed.

Lemma WeakPtr_swap_eval (s : state) this other cx cy :
  weak_ptrs s !! this = Some cx →
  weak_ptrs s !! other = Some cy →
  WeakPtr_swap this other s
  = Ret tt (with_weak_ptrs (<[other := cx]> (<[this := cy]> (weak_ptrs s))) s).
Proof.
  intros Hx Hy. unfold WeakPtr_swap. run_code.
  destruct (decide (this = other)) as [->|Hne]; by run_code.
Qed.

Lemma WeakPtr_dtor_null_eval (s : state) this :
  weak_ptrs s !! this = Some None →
  WeakPtr_dtor this s = Ret tt (with_weak_ptrs (delete this (weak_ptrs s)) s).
Proof. intros Hl. unfold WeakPtr_dtor. by run_code. Qed.

Lemma WeakPtr_dtor_eval (s : state) this a b :
  weak_ptrs s !! this = Some (Some a) →
  heap s !! a = Some (constructed b) →
  1 ≤ weak_count b →
  0 ≤ shared_count b →
  shared_count b + weak_count b < size_t_modulus →
  WeakPtr_dtor this s = Ret tt (after_weak_release this a b s).
Proof.
  intros Hl Ha Hw Hs Hb. unfold WeakPtr_dtor, WeakPtr_use_count, after_weak_release.
  run_code. rewrite (size_t_wrap_small (weak_count b - 1)) by lia.
  rewrite size_t_wrap_small by lia.
  destruct (decide (weak_count b = 1 ∧ shared_count b = 0)) as [[E1 E2]|E].
  - rewrite E1, E2. change (0 + (1 - 1) =? 0) with true.
    change ((1 =? 1) && (0 =? 0)) with true.
    unfold cb_deallocate, block_alloc. run_code.
    f_equal. apply state_eq; state_simpl; try done.
    by rewrite delete_insert_eq.
  - assert ((shared_count b + (weak_count b - 1) =? 0) = false) as ->
      by (apply Z.eqb_neq; lia).
    assert ((weak_count b =? 1) && (shared_count b =? 0) = false) as ->.
    { apply andb_false_iff. rewrite !Z.eqb_neq. lia. }
    run_code. done.
Qed.

(** ** Observers *)

Lemma SharedPtr_use_count_eval (s : state) this a b :
  shared_ptrs s !! this = Some (Some a) →
  heap s !! a = Some (constructed b) →
  SharedPtr_use_count this s = Ret (shared_count b) s.
Proof. intros Hl Ha. unfold SharedPtr_use_count. by run_code. Qed.


Lemma SharedPtr_get_eval (s : state) this a b :
  shared_ptrs s !! this = Some (Some a) →
  heap s !! a = Some (constructed b) →
  SharedPtr_get this s = Ret (block_get a b) s.
Proof. intros Hl Ha. unfold SharedPtr_get, cb_get. by run_code. Qed.


Lemma WeakPtr_use_count_eval (s : state) this a b :
  weak_ptrs s !! this = Some (Some a) →
  heap s !! a = Some (constructed b) →
  WeakPtr_use_count this s = Ret (shared_count b) s.
Proof. intros Hl Ha. unfold WeakPtr_use_count. by run_code. Qed.

Lemma WeakPtr_use_count_null_eval (s : state) this :
  weak_ptrs s !! this = Some None →
  WeakPtr_use_count this s = Ret 0 s.
Proof. intros Hl. unfold WeakPtr_use_count. by run_code. Qed.

(** ** Calls, one by one *)

Lemma wf_count_bounds (s : state) a b :
  wf s → heap s !! a = Some (constructed b) →
  0 ≤ shared_count b ∧ 0 ≤ weak_count b ∧
  shared_count b + weak_count b ≤ Z.of_nat (population s).
Proof.
  intros Hwf Ha. destruct (wf_block s a b Hwf Ha) as [_ [Hs Hw _ _ _]].
  pose proof (refs_le_size (shared_ptrs s) a).
  pose proof (refs_le_size (weak_ptrs s) a).
  unfold population. lia.
Qed.

Lemma shared_of_positive (s : state) a :
  0 < shared_of s a → ∃ b, heap s !! a = Some (constructed b) ∧ 0 < shared_count b.
Proof.
  unfold shared_of. destruct (heap s !! a) as [[|b]|]; try lia. eauto.
Qed.

Lemma wf_shared_of (s : state) l a :
  wf s → shared_ptrs s !! l = Some (Some a) → 0 < shared_of s a.
Proof.
  intros Hwf Hl. destruct (wf_shared_target s l a Hwf Hl) as (b & Ha & Hb).
  unfold shared_of. by rewrite Ha.
Qed.

Lemma sp_ctor_cb_step (s : state) this c :
  wf s → room s →
  shared_ptrs s !! this = None →
  (∀ a, c = Some a → 0 < shared_of s a) →
  ∃ s', SharedPtr_ctor_cb this c s = Ret tt s' ∧ quiet s s' ∧
        shared_ptrs s' = <[this := c]> (shared_ptrs s) ∧ weak_ptrs s' = weak_ptrs s.
Proof.
  intros Hwf Hroom Hl Hc. destruct c as [a|].
  - destruct (shared_of_positive s a (Hc a eq_refl)) as (b & Ha & Hb).
    pose proof (wf_count_bounds s a b Hwf Ha). unfold room in Hroom.
    eexists. split; [apply (SharedPtr_ctor_cb_eval s this a b); try done; lia|].
    split; [by apply quiet_sp_acquire|]. done.
  - eexists. split; [by apply SharedPtr_ctor_cb_null_eval|].
    split; [by apply quiet_sp_default|]. done.
Qed.

Lemma sp_ctor_move_step (s : state) this other c :
  shared_ptrs s !! this = None →
  shared_ptrs s !! other = Some c →
  ∃ s', SharedPtr_ctor_move this other s = Ret tt s' ∧ quiet s s' ∧
        shared_ptrs s' = <[other := None]> (<[this := c]> (shared_ptrs s)) ∧
        weak_ptrs s' = weak_ptrs s.
Proof.
  intros Hl Ho. eexists. split; [by apply SharedPtr_ctor_move_eval|].
  split; [by apply quiet_sp_move|]. done.
Qed.

Lemma sp_swap_step (s : state) this other cx cy :
  shared_ptrs s !! this = Some cx →
  shared_ptrs s !! other = Some cy →
  ∃ s', SharedPtr_swap this other s = Ret tt s' ∧ quiet s s' ∧
        shared_ptrs s' = <[other := cx]> (<[this := cy]> (shared_ptrs s)) ∧
        weak_ptrs s' = weak_ptrs s.
Proof.
  intros Hx Hy. eexists. split; [by apply SharedPtr_swap_eval|].
  split; [by apply quiet_sp_swap|]. done.
Qed.

Lemma after_shared_release_stores l a (b : BaseControlBlock) (s : state) :
  shared_ptrs (after_shared_release l a b s) = delete l (shared_ptrs s) ∧
  weak_ptrs (after_shared_release l a b s) = weak_ptrs s.
Proof.
  unfold after_shared_release.
  destruct (shared_count b =? 1); [destruct (weak_count b =? 0)|]; done.
Qed.

Lemma after_weak_release_stores l a (b : BaseControlBlock) (s : state) :
  shared_ptrs (after_weak_release l a b s) = shared_ptrs s ∧
  weak_ptrs (after_weak_release l a b s) = delete l (weak_ptrs s).
Proof.
  unfold after_weak_release.
  destruct ((weak_count b =? 1) && (shared_count b =? 0)); done.
Qed.

Lemma sp_dtor_step (s : state) this c :
  wf s → room s →
  shared_ptrs s !! this = Some c →
  ∃ s', SharedPtr_dtor this s = Ret tt s' ∧
        match c with None => quiet s s' | Some a => released a s s' end ∧
        shared_ptrs s' = delete this (shared_ptrs s) ∧ weak_ptrs s' = weak_ptrs s.
Proof.
  intros Hwf Hroom Hl. destruct c as [a|].
  - destruct (wf_shared_target s this a Hwf Hl) as (b & Ha & Hb).
    pose proof (wf_count_bounds s a b Hwf Ha). unfold room in Hroom.
    exists (after_shared_release this a b s).
    split; [apply SharedPtr_dtor_eval; try done; lia|].
    split; [by apply released_shared|]. apply after_shared_release_stores.
  - eexists. split; [by apply SharedPtr_dtor_null_eval|].
    split; [by apply quiet_sp_end|]. done.
Qed.

Lemma wp_ctor_cb_step (s : state) this c :
  wf s → room s →
  weak_ptrs s !! this = None →
  (∀ a, c = Some a → is_constructed s a) →
  ∃ s', WeakPtr_ctor_cb this c s = Ret tt s' ∧ quiet s s' ∧
        shared_ptrs s' = shared_ptrs s ∧ weak_ptrs s' = <[this := c]> (weak_ptrs s).
Proof.
  intros Hwf Hroom Hl Hc. destruct c as [a|].
  - destruct (Hc a eq_refl) as (b & Ha).
    pose proof (wf_count_bounds s a b Hwf Ha). unfold room in Hroom.
    eexists. split; [apply (WeakPtr_ctor_cb_eval s this a b); try done; lia|].
    split; [by apply quiet_wp_acquire|]. done.
  - eexists. split; [by apply WeakPtr_ctor_cb_null_eval|].
    split; [by apply quiet_wp_default|]. done.
Qed.

Lemma wp_ctor_move_step (s : state) this other c :
  weak_ptrs s !! this = None →
  weak_ptrs s !! other = Some c →
  ∃ s', WeakPtr_ctor_move this other s = Ret tt s' ∧ quiet s s' ∧
        shared_ptrs s' = shared_ptrs s ∧
        weak_ptrs s' = <[other := None]> (<[this := c]> (weak_ptrs s)).
Proof.
  intros Hl Ho. eexists. split; [by apply WeakPtr_ctor_move_eval|].
  split; [by apply quiet_wp_move|]. done.
Qed.

Lemma wp_swap_step (s : state) this other cx cy :
  weak_ptrs s !! this = Some cx →
  weak_ptrs s !! other = Some cy →
  ∃ s', WeakPtr_swap this other s = Ret tt s' ∧ quiet s s' ∧
        shared_ptrs s' = shared_ptrs s ∧
        weak_ptrs s' = <[other := cx]> (<[this := cy]> (weak_ptrs s)).
Proof.
  intros Hx Hy. eexists. split; [by apply WeakPtr_swap_eval|].
  split; [by apply quiet_wp_swap|]. done.
Qed.

Lemma wp_dtor_step (s : state) this c :
  wf s → room s →
  weak_ptrs s !! this = Some c →
  ∃ s', WeakPtr_dtor this s = Ret tt s' ∧
        match c with None => quiet s s' | Some a => released a s s' end ∧
        shared_ptrs s' = shared_ptrs s ∧ weak_ptrs s' = delete this (weak_ptrs s).
Proof.
  intros Hwf Hroom Hl. destruct c as [a|].
  - destruct (wf_weak_target s this a Hwf Hl) as (b & Ha & Hb).
    pose proof (wf_count_bounds s a b Hwf Ha). unfold room in Hroom.
    exists (after_weak_release this a b s).
    split; [apply WeakPtr_dtor_eval; try done; lia|].
    split; [by apply released_weak|]. apply after_weak_release_stores.
  - eexists. split; [by apply WeakPtr_dtor_null_eval|].
    split; [by apply quiet_wp_end|]. done.
Qed.

(** ** The population along calls *)

Lemma size_insert_le (m : gmap nat (option nat)) l c :
  (size (<[l := c]> m) ≤ S (size m))%nat.
Proof. rewrite map_size_insert. destruct (m !! l); simpl; lia. Qed.

Lemma size_insert_live (m : gmap nat (option nat)) l c c0 :
  m !! l = Some c0 → size (<[l := c]> m) = size m.
Proof. intros Hl. apply map_size_insert_Some. by eexists. Qed.

Lemma size_delete_le (m : gmap nat (option nat)) l :
  (size (delete l m) ≤ size m)%nat.
Proof. rewrite map_size_delete. destruct (m !! l); simpl; lia. Qed.

Lemma quiet_population (s s' : state) :
  quiet s s' → (population s' ≤ S (population s))%nat.
Proof.
  destruct 1; unfold population; state_simpl;
    rewrite ?map_size_insert_None by done;
    try lia.
  - rewrite (size_insert_live _ y None c), map_size_insert_None; [lia|done|].
    rewrite lookup_insert_ne; [done|congruence].
  - rewrite (size_insert_live _ y cx cy), (size_insert_live _ x cy cx); [lia|done|].
    rewrite lookup_insert. by case_decide.
  - pose proof (size_delete_le (shared_ptrs s) l). lia.
  - rewrite (size_insert_live _ y None c), map_size_insert_None; [lia|done|].
    rewrite lookup_insert_ne; [done|congruence].
  - rewrite (size_insert_live _ y cx cy), (size_insert_live _ x cy cx); [lia|done|].
    rewrite lookup_insert. by case_decide.
  - pose proof (size_delete_le (weak_ptrs s) l). lia.
Qed.

Lemma released_population a (s s' : state) :
  released a s s' → (population s' ≤ population s)%nat.
Proof.
  destruct 1 as [s l b Hl Ha | s l b Hl Ha]; unfold population.
  - destruct (after_shared_release_stores l a b s) as [-> ->].
    pose proof (size_delete_le (shared_ptrs s) l). lia.
  - destruct (after_weak_release_stores l a b s) as [-> ->].
    pose proof (size_delete_le (weak_ptrs s) l). lia.
Qed.

(** ** Statements as sequences of calls *)

Lemma fits_room (s : state) : fits s → room s.
Proof. unfold fits, room, size_t_modulus. lia. Qed.

Lemma fresh_shared (s : state) : shared_ptrs s !! fresh (dom (shared_ptrs s)) = None.
Proof. apply not_elem_of_dom. apply is_fresh. Qed.

Lemma fresh_weak (s : state) : weak_ptrs s !! fresh (dom (weak_ptrs s)) = None.
Proof. apply not_elem_of_dom. apply is_fresh. Qed.

Lemma summary_wf (s s' : state) : wf s → summary s s' → wf s'.
Proof.
  assert (∀ s1 s2 : state, rtc quiet s1 s2 → wf s1 → wf s2) as Hq.
  { induction 1; eauto using quiet_wf. }
  intros Hwf [Hs | a s1 s2 H1 _ Hr H2]; eauto using released_wf.
Qed.

Ltac store_eq :=
  apply map_eq; intros ?;
  repeat first [rewrite lookup_insert | rewrite lookup_delete];
  repeat case_decide; subst; try done; try congruence.

Ltac state_simpl_in H :=
  cbn [heap next_addr shared_ptrs weak_ptrs trace
       with_heap with_shared_ptrs with_weak_ptrs with_trace sp_drop wp_drop
       shared_count weak_count derived set_shared_count set_weak_count] in H.

(** Running a statement: [E] evaluates the next call in the hypothesis. *)
Ltac next_call H E :=
  rewrite E in H;
  cbn [heap next_addr shared_ptrs weak_ptrs trace] in H.

Ltac undefined_call H :=
  exfalso; revert H;
  unfold SharedPtr_ctor_copy, SharedPtr_ctor_cb, SharedPtr_ctor_move,
    SharedPtr_ctor_default, SharedPtr_swap, SharedPtr_dtor,
    WeakPtr_ctor_copy, WeakPtr_ctor_shared, WeakPtr_ctor_cb, WeakPtr_ctor_move,
    WeakPtr_ctor_default, WeakPtr_swap, WeakPtr_dtor;
  run_code; discriminate.

Lemma spare_room n (s : state) : 1 ≤ n → spare n s → room s.
Proof. unfold spare, room. lia. Qed.

Lemma fits_spare (s : state) : fits s → spare 4 s.
Proof. unfold fits, spare, size_t_modulus. lia. Qed.

Lemma quiet_spare n (s s' : state) : quiet s s' → spare (n + 1) s → spare n s'.
Proof. intros Hq. apply quiet_population in Hq. unfold spare. lia. Qed.

Lemma transfer_summary c (s s0 s1 s' : state) :
  rtc quiet s s0 → transfer c s0 s1 → rtc quiet s1 s' →
  (∀ a, c = Some a → is_constructed s a) →
  summary s s'.
Proof.
  intros Hq0 (s2 & Hq2 & Hc) Hq1 Ha. destruct c as [a|].
  - apply (summary_release _ _ a s2 s1); try done; [|by apply Ha].
    by etrans.
  - apply summary_quiet. etrans; [exact Hq0|]. etrans; [exact Hq2|].
    eapply rtc_l; [exact Hc|done].
Qed.

Lemma wf_is_constructed (s : state) l a :
  wf s → shared_ptrs s !! l = Some (Some a) → is_constructed s a.
Proof.
  intros Hwf Hl. destruct (wf_shared_target s l a Hwf Hl) as (b & Hb & _). by exists b.
Qed.

Lemma wf_is_constructed_weak (s : state) l a :
  wf s → weak_ptrs s !! l = Some (Some a) → is_constructed s a.
Proof.
  intros Hwf Hl. destruct (wf_weak_target s l a Hwf Hl) as (b & Hb & _). by exists b.
Qed.

Lemma SharedPtr_assign_copy_run (s : state) x y cx cy :
  wf s → spare 3 s →
  shared_ptrs s !! x = Some cx → shared_ptrs s !! y = Some cy →
  ∃ s', SharedPtr_assign_copy x y s = Ret tt s' ∧
    transfer cx s s' ∧
    shared_ptrs s' = <[x := cy]> (shared_ptrs s) ∧
    weak_ptrs s' = weak_ptrs s.
Proof.
  intros Hwf Hsp Hx Hy.
  unfold SharedPtr_assign_copy, SharedPtr_ctor_copy, sp_fresh, sp_live,
    mbind, M_bind, bind.
  rewrite Hx. cbv beta iota.
  pose proof (fresh_shared s) as Ht. revert Ht.
  generalize (fresh (dom (shared_ptrs s))). intros t Ht.
  unfold sp_get at 1. rewrite Hy.
  destruct (sp_ctor_cb_step s t cy) as (s1 & E1 & Q1 & S1 & W1); try done.
  { by apply (spare_room 3). }
  { intros a ->. by eapply wf_shared_of. }
  rewrite E1.
  pose proof (quiet_wf _ _ Hwf Q1) as Hwf1.
  pose proof (quiet_spare 2 _ _ Q1 Hsp) as Hsp1.
  assert (x ≠ t) by congruence.
  destruct (sp_swap_step s1 x t cx cy) as (s2 & E2 & Q2 & S2 & W2).
  { rewrite S1, lookup_insert_ne; done. }
  { rewrite S1. apply lookup_insert_eq. }
  rewrite E2.
  pose proof (quiet_wf _ _ Hwf1 Q2) as Hwf2.
  pose proof (quiet_spare 1 _ _ Q2 Hsp1) as Hsp2.
  destruct (sp_dtor_step s2 t cx) as (s3 & E3 & R3 & S3 & W3); try done.
  { by apply (spare_room 1). }
  { rewrite S2. apply lookup_insert_eq. }
  exists s3. repeat split; try done.
  - exists s2. split; [|done]. eapply rtc_l; [exact Q1|]. by apply rtc_once.
  - rewrite S3, S2, S1. store_eq.
  - congruence.
Qed.

Lemma SharedPtr_assign_copy_ret (s s' : state) x y :
  wf s → spare 3 s →
  SharedPtr_assign_copy x y s = Ret tt s' →
  ∃ cx cy, shared_ptrs s !! x = Some cx ∧ shared_ptrs s !! y = Some cy ∧
    transfer cx s s' ∧
    shared_ptrs s' = <[x := cy]> (shared_ptrs s) ∧
    weak_ptrs s' = weak_ptrs s.
Proof.
  intros Hwf Hsp Hexec.
  destruct (shared_ptrs s !! x) as [cx|] eqn:Hx.
  2: { revert Hexec. unfold SharedPtr_assign_copy, sp_live, mbind, M_bind, bind.
       by rewrite Hx. }
  destruct (shared_ptrs s !! y) as [cy|] eqn:Hy.
  2: { revert Hexec.
       unfold SharedPtr_assign_copy, SharedPtr_ctor_copy, sp_live, sp_fresh, sp_get,
         mbind, M_bind, bind.
       rewrite Hx. cbv beta iota. by rewrite Hy. }
  destruct (SharedPtr_assign_copy_run s x y cx cy) as (s1 & E & Hrest); try done.
  rewrite E in Hexec. injection Hexec as <-. by exists cx, cy.
Qed.

Lemma SharedPtr_assign_move_run (s : state) x y cx cy :
  wf s → spare 3 s →
  shared_ptrs s !! x = Some cx → shared_ptrs s !! y = Some cy →
  ∃ s', SharedPtr_assign_move x y s = Ret tt s' ∧
    transfer (if decide (x = y) then None else cx) s s' ∧
    shared_ptrs s' = <[x := cy]> (<[y := None]> (shared_ptrs s)) ∧
    weak_ptrs s' = weak_ptrs s.
Proof.
  intros Hwf Hsp Hx Hy.
  unfold SharedPtr_assign_move, sp_fresh, sp_live, mbind, M_bind, bind.
  rewrite Hx. cbv beta iota.
  pose proof (fresh_shared s) as Ht. revert Ht.
  generalize (fresh (dom (shared_ptrs s))). intros t Ht.
  destruct (sp_ctor_move_step s t y cy) as (s1 & E1 & Q1 & S1 & W1); try done.
  rewrite E1.
  pose proof (quiet_wf _ _ Hwf Q1) as Hwf1.
  pose proof (quiet_spare 2 _ _ Q1 Hsp) as Hsp1.
  assert (x ≠ t) by congruence. assert (y ≠ t) by congruence.
  set (cx1 := if decide (x = y) then None else cx).
  destruct (sp_swap_step s1 x t cx1 cy) as (s2 & E2 & Q2 & S2 & W2).
  { rewrite S1. unfold cx1. rewrite lookup_insert. case_decide.
    - subst. by rewrite decide_True.
    - rewrite decide_False by done. by rewrite lookup_insert_ne. }
  { rewrite S1. rewrite lookup_insert_ne by done. apply lookup_insert_eq. }
  rewrite E2.
  pose proof (quiet_wf _ _ Hwf1 Q2) as Hwf2.
  pose proof (quiet_spare 1 _ _ Q2 Hsp1) as Hsp2.
  destruct (sp_dtor_step s2 t cx1) as (s3 & E3 & R3 & S3 & W3); try done.
  { by apply (spare_room 1). }
  { rewrite S2. apply lookup_insert_eq. }
  exists s3. repeat split; try done.
  - exists s2. split; [|done]. eapply rtc_l; [exact Q1|]. by apply rtc_once.
  - rewrite S3, S2, S1. store_eq.
  - congruence.
Qed.

Lemma SharedPtr_assign_move_ret (s s' : state) x y :
  wf s → spare 3 s →
  SharedPtr_assign_move x y s = Ret tt s' →
  ∃ cx cy, shared_ptrs s !! x = Some cx ∧ shared_ptrs s !! y = Some cy ∧
    transfer (if decide (x = y) then None else cx) s s' ∧
    shared_ptrs s' = <[x := cy]> (<[y := None]> (shared_ptrs s)) ∧
    weak_ptrs s' = weak_ptrs s.
Proof.
  intros Hwf Hsp Hexec.
  destruct (shared_ptrs s !! x) as [cx|] eqn:Hx.
  2: { revert Hexec. unfold SharedPtr_assign_move, sp_live, mbind, M_bind, bind.
       by rewrite Hx. }
  destruct (shared_ptrs s !! y) as [cy|] eqn:Hy.
  2: { revert Hexec.
       unfold SharedPtr_assign_move, SharedPtr_ctor_move, sp_live, sp_fresh, sp_get,
         mbind, M_bind, bind.
       rewrite Hx. cbv beta iota. by rewrite Hy. }
  destruct (SharedPtr_assign_move_run s x y cx cy) as (s1 & E & Hrest); try done.
  rewrite E in Hexec. injection Hexec as <-. by exists cx, cy.
Qed.

Lemma transfer_wf c (s s' : state) : wf s → transfer c s s' → wf s'.
Proof.
  intros Hwf (s1 & Hq & Hc).
  assert (wf s1) as Hwf1.
  { clear Hc. induction Hq; eauto using quiet_wf. }
  destruct c; eauto using quiet_wf, released_wf.
Qed.

Ltac size_facts :=
  repeat match goal with
  | |- context [size (<[?l := ?c]> ?m)] =>
      generalize (size_insert_le m l c);
      generalize (size (<[l := c]> m)); intros ?
  | |- context [size (delete ?l ?m)] =>
      generalize (size_delete_le m l);
      generalize (size (delete l m)); intros ?
  end;
  intros.

Lemma spare_stores n k (s s' : state) :
  spare (n + k) s →
  (Z.of_nat (size (shared_ptrs s') + size (weak_ptrs s'))
   ≤ Z.of_nat (size (shared_ptrs s) + size (weak_ptrs s)) + k) →
  spare n s'.
Proof. unfold spare, population. lia. Qed.

Lemma SharedPtr_reset_ret (s s' : state) x :
  wf s → spare 6 s →
  SharedPtr_reset x s = Ret tt s' →
  ∃ cx, shared_ptrs s !! x = Some cx ∧ summary s s' ∧
    shared_ptrs s' = <[x := None]> (shared_ptrs s) ∧
    weak_ptrs s' = weak_ptrs s.
Proof.
  intros Hwf Hsp Hexec.
  unfold SharedPtr_reset, sp_fresh, sp_live, mbind, M_bind, bind in Hexec.
  destruct (shared_ptrs s !! x) as [cx|] eqn:Hx; [|discriminate].
  cbv beta iota in Hexec.
  pose proof (fresh_shared s) as Ht. revert Ht Hexec.
  generalize (fresh (dom (shared_ptrs s))). intros t Ht Hexec.
  assert (x ≠ t) by congruence.
  rewrite (SharedPtr_ctor_default_eval s t Ht) in Hexec.
  set (s1 := with_shared_ptrs (<[t := None]> (shared_ptrs s)) s) in *.
  assert (quiet s s1) as Q1 by (by apply quiet_sp_default).
  pose proof (quiet_wf _ _ Hwf Q1) as Hwf1.
  pose proof (quiet_spare 5 _ _ Q1 Hsp) as Hsp1.
  destruct (SharedPtr_assign_move x t s1) as [[] s2| |] eqn:E2; try discriminate.
  apply SharedPtr_assign_move_ret in E2; [|done|unfold spare in *; lia].
  destruct E2 as (cx' & cy' & Hx' & Ht' & T2 & S2 & W2).
  subst s1. state_simpl_in Hx'. state_simpl_in Ht'. state_simpl_in S2. state_simpl_in W2.
  rewrite lookup_insert_ne in Hx' by done. rewrite lookup_insert_eq in Ht'.
  rewrite decide_False in T2 by done.
  assert (cx' = cx) as -> by congruence. assert (cy' = None) as -> by congruence.
  pose proof (transfer_wf _ _ _ Hwf1 T2) as Hwf2.
  destruct (sp_dtor_step s2 t None) as (s3 & E3 & R3 & S3 & W3); try done.
  { apply (spare_room 1 s2 ltac:(lia)). apply (spare_stores 1 5 s); [done|].
    rewrite S2, W2. size_facts. lia. }
  { rewrite S2. rewrite lookup_insert_ne by done. apply lookup_insert_eq. }
  next_call Hexec E3. injection Hexec as <-.
  exists cx. repeat split; try done.
  - eapply (transfer_summary cx s _ s2); [| exact T2 | |].
    + by apply rtc_once.
    + by apply rtc_once.
    + intros a ->. by eapply wf_is_constructed.
  - rewrite S3, S2. store_eq.
  - congruence.
Qed.

Lemma SharedPtr_reset_ptr_ret (s s' : state) x p :
  wf s → spare 6 s →
  SharedPtr_reset_ptr x p s = Ret tt s' →
  ∃ cx, shared_ptrs s !! x = Some cx ∧ summary s s' ∧
    shared_ptrs s' = <[x := Some (next_addr s)]> (shared_ptrs s) ∧
    weak_ptrs s' = weak_ptrs s.
Proof.
  intros Hwf Hsp Hexec.
  unfold SharedPtr_reset_ptr, sp_fresh, sp_live, mbind, M_bind, bind in Hexec.
  destruct (shared_ptrs s !! x) as [cx|] eqn:Hx; [|discriminate].
  cbv beta iota in Hexec.
  pose proof (fresh_shared s) as Ht. revert Ht Hexec.
  generalize (fresh (dom (shared_ptrs s))). intros t Ht Hexec.
  assert (x ≠ t) by congruence.
  rewrite (SharedPtr_ctor_ptr_eval s t p None None Ht) in Hexec.
  match type of Hexec with
  | match SharedPtr_assign_move _ _ ?st with _ => _ end = _ => set (s1 := st) in *
  end.
  assert (quiet s s1) as Q1 by (by apply quiet_sp_new).
  pose proof (quiet_wf _ _ Hwf Q1) as Hwf1.
  pose proof (quiet_spare 5 _ _ Q1 Hsp) as Hsp1.
  destruct (SharedPtr_assign_move x t s1) as [[] s2| |] eqn:E2; try discriminate.
  apply SharedPtr_assign_move_ret in E2; [|done|unfold spare in *; lia].
  destruct E2 as (cx' & cy' & Hx' & Ht' & T2 & S2 & W2).
  subst s1. state_simpl_in Hx'. state_simpl_in Ht'. state_simpl_in S2. state_simpl_in W2.
  rewrite lookup_insert_ne in Hx' by done. rewrite lookup_insert_eq in Ht'.
  rewrite decide_False in T2 by done.
  assert (cx' = cx) as -> by congruence.
  assert (cy' = Some (next_addr s)) as -> by congruence.
  pose proof (transfer_wf _ _ _ Hwf1 T2) as Hwf2.
  destruct (sp_dtor_step s2 t None) as (s3 & E3 & R3 & S3 & W3); try done.
  { apply (spare_room 1 s2 ltac:(lia)). apply (spare_stores 1 5 s); [done|].
    rewrite S2, W2. size_facts. lia. }
  { rewrite S2. rewrite lookup_insert_ne by done. apply lookup_insert_eq. }
  next_call Hexec E3. injection Hexec as <-.
  exists cx. repeat split; try done.
  - eapply (transfer_summary cx s _ s2); [| exact T2 | |].
    + by apply rtc_once.
    + by apply rtc_once.
    + intros a ->. by eapply wf_is_constructed.
  - rewrite S3, S2. store_eq.
  - congruence.
Qed.

Lemma WeakPtr_assign_run (s : state) w cw cv :
  wf s → spare 3 s →
  (∀ a, cv = Some a → is_constructed s a) →
  weak_ptrs s !! w = Some cw →
  ∃ s', (wp_live w;;
         tmp ← wp_fresh;
         WeakPtr_ctor_cb tmp cv;;
         WeakPtr_swap w tmp;;
         WeakPtr_dtor tmp) s = Ret tt s' ∧
    transfer cw s s' ∧
    shared_ptrs s' = shared_ptrs s ∧
    weak_ptrs s' = <[w := cv]> (weak_ptrs s).
Proof.
  intros Hwf Hsp Hcv Hw.
  unfold wp_fresh, wp_live, mbind, M_bind, bind.
  rewrite Hw. cbv beta iota.
  pose proof (fresh_weak s) as Ht. revert Ht.
  generalize (fresh (dom (weak_ptrs s))). intros t Ht.
  destruct (wp_ctor_cb_step s t cv) as (s1 & E1 & Q1 & S1 & W1); try done.
  { by apply (spare_room 3). }
  rewrite E1.
  pose proof (quiet_wf _ _ Hwf Q1) as Hwf1.
  pose proof (quiet_spare 2 _ _ Q1 Hsp) as Hsp1.
  assert (w ≠ t) by congruence.
  destruct (wp_swap_step s1 w t cw cv) as (s2 & E2 & Q2 & S2 & W2).
  { rewrite W1, lookup_insert_ne; done. }
  { rewrite W1. apply lookup_insert_eq. }
  rewrite E2.
  pose proof (quiet_wf _ _ Hwf1 Q2) as Hwf2.
  pose proof (quiet_spare 1 _ _ Q2 Hsp1) as Hsp2.
  destruct (wp_dtor_step s2 t cw) as (s3 & E3 & R3 & S3 & W3); try done.
  { by apply (spare_room 1). }
  { rewrite W2. apply lookup_insert_eq. }
  exists s3. repeat split; try done.
  - exists s2. split; [|done]. eapply rtc_l; [exact Q1|]. by apply rtc_once.
  - congruence.
  - rewrite W3, W2, W1. store_eq.
Qed.

Lemma WeakPtr_assign_ret (s s' : state) w cv :
  wf s → spare 3 s →
  (∀ a, cv = Some a → is_constructed s a) →
  (wp_live w;;
   tmp ← wp_fresh;
   WeakPtr_ctor_cb tmp cv;;
   WeakPtr_swap w tmp;;
   WeakPtr_dtor tmp) s = Ret tt s' →
  ∃ cw, weak_ptrs s !! w = Some cw ∧
    transfer cw s s' ∧
    shared_ptrs s' = shared_ptrs s ∧
    weak_ptrs s' = <[w := cv]> (weak_ptrs s).
Proof.
  intros Hwf Hsp Hcv Hexec.
  destruct (weak_ptrs s !! w) as [cw|] eqn:Hw.
  2: { revert Hexec. unfold wp_live, mbind, M_bind, bind. by rewrite Hw. }
  destruct (WeakPtr_assign_run s w cw cv) as (s1 & E & Hrest); try done.
  rewrite E in Hexec. injection Hexec as <-. by exists cw.
Qed.

Lemma WeakPtr_assign_copy_ret (s s' : state) w v :
  wf s → spare 3 s →
  WeakPtr_assign_copy w v s = Ret tt s' →
  ∃ cw cv, weak_ptrs s !! w = Some cw ∧ weak_ptrs s !! v = Some cv ∧
    transfer cw s s' ∧
    shared_ptrs s' = shared_ptrs s ∧
    weak_ptrs s' = <[w := cv]> (weak_ptrs s).
Proof.
  intros Hwf Hsp Hexec.
  destruct (weak_ptrs s !! v) as [cv|] eqn:Hv.
  - destruct (WeakPtr_assign_ret s s' w cv) as (cw & Hw & Ht & Hs & Hwp); try done.
    + intros a ->. by eapply wf_is_constructed_weak.
    + revert Hexec. unfold WeakPtr_assign_copy, WeakPtr_ctor_copy, wp_fresh, wp_live,
        wp_get, mbind, M_bind, bind.
      destruct (weak_ptrs s !! w); [|done]. cbv beta iota. by rewrite Hv.
    + by exists cw, cv.
  - exfalso. revert Hexec.
    unfold WeakPtr_assign_copy, WeakPtr_ctor_copy, wp_fresh, wp_live,
      wp_get, mbind, M_bind, bind.
    destruct (weak_ptrs s !! w); [|done]. cbv beta iota. by rewrite Hv.
Qed.

Lemma WeakPtr_assign_move_is_copy w v (s : state) :
  WeakPtr_assign_move w v s = WeakPtr_assign_copy w v s.
Proof. reflexivity. Qed.

Lemma WeakPtr_assign_shared_ret (s s' : state) w x :
  wf s → spare 3 s →
  WeakPtr_assign_shared w x s = Ret tt s' →
  ∃ cw cx, weak_ptrs s !! w = Some cw ∧ shared_ptrs s !! x = Some cx ∧
    transfer cw s s' ∧
    shared_ptrs s' = shared_ptrs s ∧
    weak_ptrs s' = <[w := cx]> (weak_ptrs s).
Proof.
  intros Hwf Hsp Hexec.
  destruct (shared_ptrs s !! x) as [cx|] eqn:Hx.
  - destruct (WeakPtr_assign_ret s s' w cx) as (cw & Hw & Ht & Hs & Hwp); try done.
    + intros a ->. by eapply wf_is_constructed.
    + revert Hexec. unfold WeakPtr_assign_shared, WeakPtr_ctor_shared, wp_fresh, wp_live,
        sp_get, mbind, M_bind, bind.
      destruct (weak_ptrs s !! w); [|done]. cbv beta iota. by rewrite Hx.
    + by exists cw, cx.
  - exfalso. revert Hexec.
    unfold WeakPtr_assign_shared, WeakPtr_ctor_shared, wp_fresh, wp_live,
      sp_get, mbind, M_bind, bind.
    destruct (weak_ptrs s !! w); [|done]. cbv beta iota. by rewrite Hx.
Qed.

(** ** Every statement *)

Ltac quiet_summary Q := apply summary_quiet; apply rtc_once; exact Q.

Theorem exec_ret (s s' : state) (c : stmt) :
  wf s → fits s → exec construct_T c s = Ret tt s' →
  summary s s' ∧
  shared_ptrs s' = shared_ptrs_after c s ∧
  weak_ptrs s' = weak_ptrs_after c s.
Proof.
  intros Hwf Hfits Hexec. pose proof (fits_spare s Hfits) as Hsp.
  assert (room s) as Hroom by (by apply (spare_room 4)).
  assert (spare 3 s) as Hsp3 by (unfold spare in *; lia).
  assert (spare 6 s) as Hsp6 by (revert Hfits; unfold fits, spare, size_t_modulus; lia).
  destruct c as [x|x y|x y|x p d al|x al args|x args|x y|x y|x y|x|x p|x
                 |w|w v|w x|w v|w v|w v|w x|w|x w];
    unfold exec in Hexec; unfold shared_ptrs_after, weak_ptrs_after, cb_of.
  - (* SharedPtr<T> x; *)
    destruct (shared_ptrs s !! x) eqn:Hx; [undefined_call Hexec|].
    rewrite SharedPtr_ctor_default_eval in Hexec by done. injection Hexec as <-.
    split; [|done]. quiet_summary (quiet_sp_default s x Hx).
  - (* SharedPtr<T> x(y); *)
    unfold SharedPtr_ctor_copy, mbind, M_bind, bind, sp_get in Hexec.
    destruct (shared_ptrs s !! y) as [cy|] eqn:Hy; [|discriminate].
    destruct (shared_ptrs s !! x) eqn:Hx; [undefined_call Hexec|].
    destruct (sp_ctor_cb_step s x cy) as (s1 & E1 & Q1 & S1 & W1); try done.
    { intros a ->. by eapply wf_shared_of. }
    rewrite E1 in Hexec. injection Hexec as <-.
    split; [by quiet_summary Q1|done].
  - (* SharedPtr<T> x(std::move(y)); *)
    destruct (shared_ptrs s !! y) as [cy|] eqn:Hy; [|undefined_call Hexec].
    destruct (shared_ptrs s !! x) eqn:Hx; [undefined_call Hexec|].
    destruct (sp_ctor_move_step s x y cy) as (s1 & E1 & Q1 & S1 & W1); try done.
    rewrite E1 in Hexec. injection Hexec as <-.
    split; [by quiet_summary Q1|done].
  - (* SharedPtr<T> x(p, d, al); *)
    destruct (shared_ptrs s !! x) eqn:Hx.
    { exfalso. revert Hexec. unfold SharedPtr_ctor_ptr. run_code. discriminate. }
    rewrite SharedPtr_ctor_ptr_eval in Hexec by done. injection Hexec as <-.
    split; [|done]. quiet_summary (quiet_sp_new s x default_construct
      (ControlBlockWithoutMakeShared p (default default_construct d) default_construct) Hx).
  - (* auto x = allocateShared<T>(al, args...); *)
    unfold allocateShared in Hexec.
    destruct (shared_ptrs s !! x) eqn:Hx.
    { exfalso. revert Hexec. unfold SharedPtr_ctor_alloc. run_code. discriminate. }
    destruct (construct_T args) as [object|] eqn:Hc.
    2: { by rewrite SharedPtr_ctor_alloc_throw in Hexec. }
    rewrite (SharedPtr_ctor_alloc_eval s x 1 0 al args object) in Hexec by done.
    injection Hexec as <-.
    split; [|done]. quiet_summary (quiet_sp_new s x al
      (ControlBlockWithMakeShared object al) Hx).
  - (* auto x = makeShared<T>(args...); *)
    unfold makeShared, allocateShared in Hexec.
    destruct (shared_ptrs s !! x) eqn:Hx.
    { exfalso. revert Hexec. unfold SharedPtr_ctor_alloc. run_code. discriminate. }
    destruct (construct_T args) as [object|] eqn:Hc.
    2: { by rewrite SharedPtr_ctor_alloc_throw in Hexec. }
    rewrite (SharedPtr_ctor_alloc_eval s x 1 0 _ args object) in Hexec by done.
    injection Hexec as <-.
    split; [|done]. quiet_summary (quiet_sp_new s x default_construct
      (ControlBlockWithMakeShared object default_construct) Hx).
  - (* x = y; *)
    destruct (SharedPtr_assign_copy_ret s s' x y) as (cx & cy & Hx & Hy & Ht & S1 & W1);
      try done.
    rewrite Hy. split; [|done].
    eapply (transfer_summary cx s s s'); [done|exact Ht|done|].
    intros a ->. by eapply wf_is_constructed.
  - (* x = std::move(y); *)
    destruct (SharedPtr_assign_move_ret s s' x y) as (cx & cy & Hx & Hy & Ht & S1 & W1);
      try done.
    rewrite Hy. split; [|done].
    eapply (transfer_summary _ s s s'); [done|exact Ht|done|].
    intros a Ha. case_decide; [done|]. subst. by eapply wf_is_constructed.
  - (* x.swap(y); *)
    destruct (shared_ptrs s !! x) as [cx|] eqn:Hx; [|undefined_call Hexec].
    destruct (shared_ptrs s !! y) as [cy|] eqn:Hy; [|undefined_call Hexec].
    destruct (sp_swap_step s x y cx cy) as (s1 & E1 & Q1 & S1 & W1); try done.
    rewrite E1 in Hexec. injection Hexec as <-.
    split; [by quiet_summary Q1|done].
  - (* x.reset(); *)
    destruct (SharedPtr_reset_ret s s' x) as (cx & Hx & Hs & S1 & W1); done.
  - (* x.reset(p); *)
    destruct (SharedPtr_reset_ptr_ret s s' x p) as (cx & Hx & Hs & S1 & W1); done.
  - (* the lifetime of x ends *)
    destruct (shared_ptrs s !! x) as [cx|] eqn:Hx; [|undefined_call Hexec].
    destruct (sp_dtor_step s x cx) as (s1 & E1 & R1 & S1 & W1); try done.
    rewrite E1 in Hexec. injection Hexec as <-.
    split; [|done]. destruct cx as [a|]; [|by quiet_summary R1].
    apply (summary_release _ _ a s s1); try done.
    by eapply wf_is_constructed.
  - (* WeakPtr<T> w; *)
    destruct (weak_ptrs s !! w) eqn:Hw; [undefined_call Hexec|].
    rewrite WeakPtr_ctor_default_eval in Hexec by done. injection Hexec as <-.
    split; [|done]. quiet_summary (quiet_wp_default s w Hw).
  - (* WeakPtr<T> w(v); *)
    unfold WeakPtr_ctor_copy, mbind, M_bind, bind, wp_get in Hexec.
    destruct (weak_ptrs s !! v) as [cv|] eqn:Hv; [|discriminate].
    destruct (weak_ptrs s !! w) eqn:Hw; [undefined_call Hexec|].
    destruct (wp_ctor_cb_step s w cv) as (s1 & E1 & Q1 & S1 & W1); try done.
    { intros a ->. by eapply wf_is_constructed_weak. }
    rewrite E1 in Hexec. injection Hexec as <-.
    split; [by quiet_summary Q1|done].
  - (* WeakPtr<T> w(x); *)
    unfold WeakPtr_ctor_shared, mbind, M_bind, bind, sp_get in Hexec.
    destruct (shared_ptrs s !! x) as [cx|] eqn:Hx; [|discriminate].
    destruct (weak_ptrs s !! w) eqn:Hw; [undefined_call Hexec|].
    destruct (wp_ctor_cb_step s w cx) as (s1 & E1 & Q1 & S1 & W1); try done.
    { intros a ->. by eapply wf_is_constructed. }
    rewrite E1 in Hexec. injection Hexec as <-.
    split; [by quiet_summary Q1|done].
  - (* WeakPtr<T> w(std::move(v)); *)
    destruct (weak_ptrs s !! v) as [cv|] eqn:Hv; [|undefined_call Hexec].
    destruct (weak_ptrs s !! w) eqn:Hw; [undefined_call Hexec|].
    destruct (wp_ctor_move_step s w v cv) as (s1 & E1 & Q1 & S1 & W1); try done.
    rewrite E1 in Hexec. injection Hexec as <-.
    split; [by quiet_summary Q1|done].
  - (* w = v; *)
    destruct (WeakPtr_assign_copy_ret s s' w v) as (cw & cv & Hw & Hv & Ht & S1 & W1);
      try done.
    rewrite Hv. split; [|done].
    eapply (transfer_summary cw s s s'); [done|exact Ht|done|].
    intros a ->. by eapply wf_is_constructed_weak.
  - (* w = std::move(v); *)
    rewrite WeakPtr_assign_move_is_copy in Hexec.
    destruct (WeakPtr_assign_copy_ret s s' w v) as (cw & cv & Hw & Hv & Ht & S1 & W1);
      try done.
    rewrite Hv. split; [|done].
    eapply (transfer_summary cw s s s'); [done|exact Ht|done|].
    intros a ->. by eapply wf_is_constructed_weak.
  - (* w = x; *)
    destruct (WeakPtr_assign_shared_ret s s' w x) as (cw & cx & Hw & Hx & Ht & S1 & W1);
      try done.
    rewrite Hx. split; [|done].
    eapply (transfer_summary cw s s s'); [done|exact Ht|done|].
    intros a ->. by eapply wf_is_constructed_weak.
  - (* the lifetime of w ends *)
    destruct (weak_ptrs s !! w) as [cw|] eqn:Hw; [|undefined_call Hexec].
    destruct (wp_dtor_step s w cw) as (s1 & E1 & R1 & S1 & W1); try done.
    rewrite E1 in Hexec. injection Hexec as <-.
    split; [|done]. destruct cw as [a|]; [|by quiet_summary R1].
    apply (summary_release _ _ a s s1); try done.
    by eapply wf_is_constructed_weak.
  - (* SharedPtr<T> x = w.lock(); *)
    unfold WeakPtr_lock, WeakPtr_expired, mbind, M_bind, bind, mret, M_ret, ret in Hexec.
    destruct (weak_ptrs s !! w) as [[a|]|] eqn:Hw.
    + destruct (wf_weak_target s w a Hwf Hw) as (b & Ha & Hb).
      rewrite (WeakPtr_use_count_eval s w a b Hw Ha) in Hexec.
      pose proof (wf_count_bounds s a b Hwf Ha) as Hbounds.
      cbn [default from_option id]. unfold shared_of. rewrite Ha. state_simpl.
      destruct (shared_ptrs s !! x) eqn:Hx.
      { destruct (shared_count b =? 0); simpl in Hexec; undefined_call Hexec. }
      destruct (decide (shared_count b = 0)) as [E|E].
      * rewrite E in *. change (negb (0 =? 0)) with false in Hexec.
      cbv beta iota in Hexec.
        rewrite SharedPtr_ctor_default_eval in Hexec by done. injection Hexec as <-.
        split; [|done]. quiet_summary (quiet_sp_default s x Hx).
      * assert ((shared_count b =? 0) = false) as Eb by (by apply Z.eqb_neq).
        rewrite Eb in Hexec. cbn [negb] in Hexec. cbv beta iota in Hexec.
        unfold wp_get in Hexec. rewrite Hw in Hexec.
        destruct (sp_ctor_cb_step s x (Some a)) as (s1 & E1 & Q1 & S1 & W1); try done.
        { intros a' [= <-]. unfold shared_of. rewrite Ha. lia. }
        rewrite E1 in Hexec. injection Hexec as <-.
        assert ((0 <? shared_count b) = true) as -> by (apply Z.ltb_lt; lia).
        split; [by quiet_summary Q1|done].
    + rewrite (WeakPtr_use_count_null_eval s w Hw) in Hexec.
      change (negb (0 =? 0)) with false in Hexec.
      cbv beta iota in Hexec.
      destruct (shared_ptrs s !! x) eqn:Hx; [undefined_call Hexec|].
      rewrite SharedPtr_ctor_default_eval in Hexec by done. injection Hexec as <-.
      split; [|done]. quiet_summary (quiet_sp_default s x Hx).
    + exfalso. revert Hexec. unfold WeakPtr_use_count. run_code. discriminate.
Qed.

(** ** Exceptions

    Only the constructor of the managed object throws. *)

Lemma bind_never_throws {X Y} (m : M X) (k : X → M Y) :
  never_throws m → (∀ x, never_throws (k x)) → never_throws (m ≫= k).
Proof.
  intros Hm Hk s s'. unfold mbind, M_bind, bind.
  destruct (m s) as [x s1| s1 |] eqn:E; [apply Hk | by apply Hm in E | done].
Qed.

Lemma ret_never_throws {X} (x : X) : never_throws (mret x : M X).
Proof. by intros s s'. Qed.

Ltac prim_never_throws :=
  intros s s';
  unfold SharedPtr_ctor_default, WeakPtr_ctor_default,
    sp_get, sp_set, sp_begin, sp_end, sp_fresh, sp_live,
    wp_get, wp_set, wp_begin, wp_end, wp_fresh, wp_live,
    load, store, emit, allocate, emplace, release_memory;
  cbv beta; repeat case_match; done.

Ltac never_throws_tac :=
  repeat first
    [ apply bind_never_throws; [|intros ?]
    | apply ret_never_throws
    | progress (repeat case_match)
    | solve [prim_never_throws] ].

Lemma cb_destroy_never_throws a : never_throws (cb_destroy a : M _).
Proof. unfold cb_destroy. never_throws_tac. Qed.

Lemma cb_deallocate_never_throws a : never_throws (cb_deallocate a : M _).
Proof. unfold cb_deallocate. never_throws_tac. Qed.

Lemma SharedPtr_ctor_cb_never_throws this c : never_throws (SharedPtr_ctor_cb this c : M _).
Proof. unfold SharedPtr_ctor_cb. never_throws_tac. Qed.

Lemma SharedPtr_ctor_move_never_throws this other :
  never_throws (SharedPtr_ctor_move this other : M _).
Proof. unfold SharedPtr_ctor_move. never_throws_tac. Qed.

Lemma SharedPtr_ctor_ptr_never_throws this p d al :
  never_throws (SharedPtr_ctor_ptr this p d al : M _).
Proof.
  unfold SharedPtr_ctor_ptr, ControlBlockWithoutMakeShared_ctor. never_throws_tac.
Qed.

Lemma SharedPtr_swap_never_throws this other : never_throws (SharedPtr_swap this other : M _).
Proof. unfold SharedPtr_swap. never_throws_tac. Qed.

Lemma SharedPtr_dtor_never_throws this : never_throws (SharedPtr_dtor this : M _).
Proof.
  unfold SharedPtr_dtor.
  repeat first
    [ apply ret_never_throws
    | apply cb_destroy_never_throws
    | apply cb_deallocate_never_throws
    | apply bind_never_throws; [|intros ?]
    | progress (repeat case_match)
    | solve [prim_never_throws] ].
Qed.

Lemma SharedPtr_assign_move_never_throws this other :
  never_throws (SharedPtr_assign_move this other : M _).
Proof.
  unfold SharedPtr_assign_move.
  repeat first
    [ apply SharedPtr_ctor_move_never_throws
    | apply SharedPtr_swap_never_throws
    | apply SharedPtr_dtor_never_throws
    | apply bind_never_throws; [|intros ?]
    | solve [prim_never_throws] ].
Qed.

Lemma WeakPtr_ctor_cb_never_throws this c : never_throws (WeakPtr_ctor_cb this c : M _).
Proof. unfold WeakPtr_ctor_cb. never_throws_tac. Qed.

Lemma WeakPtr_swap_never_throws this other : never_throws (WeakPtr_swap this other : M _).
Proof. unfold WeakPtr_swap. never_throws_tac. Qed.

Lemma WeakPtr_use_count_never_throws this : never_throws (WeakPtr_use_count this : M _).
Proof. unfold WeakPtr_use_count. never_throws_tac. Qed.

Lemma WeakPtr_dtor_never_throws this : never_throws (WeakPtr_dtor this : M _).
Proof.
  unfold WeakPtr_dtor.
  repeat first
    [ apply ret_never_throws
    | apply WeakPtr_use_count_never_throws
    | apply cb_deallocate_never_throws
    | apply bind_never_throws; [|intros ?]
    | progress (repeat case_match)
    | solve [prim_never_throws] ].
Qed.

Lemma exec_never_throws (c : stmt) :
  (∀ x al args, c ≠ DeclAllocateShared x al args) →
  (∀ x args, c ≠ DeclMakeShared x args) →
  never_throws (exec construct_T c).
Proof.
  intros Hna Hnm.
  destruct c; try (by edestruct Hna); try (by edestruct Hnm);
    unfold exec, SharedPtr_ctor_default, SharedPtr_ctor_copy, SharedPtr_assign_copy,
      SharedPtr_reset, SharedPtr_reset_ptr, SharedPtr_ctor_default,
      WeakPtr_ctor_default, WeakPtr_ctor_copy, WeakPtr_ctor_shared, WeakPtr_ctor_move,
      WeakPtr_assign_copy, WeakPtr_assign_move, WeakPtr_assign_shared,
      WeakPtr_ctor_copy, WeakPtr_ctor_shared, WeakPtr_lock, WeakPtr_expired;
    repeat first
      [ apply ret_never_throws
      | apply SharedPtr_ctor_cb_never_throws
      | apply SharedPtr_ctor_move_never_throws
      | apply SharedPtr_ctor_ptr_never_throws
      | apply SharedPtr_swap_never_throws
      | apply SharedPtr_dtor_never_throws
      | apply SharedPtr_assign_move_never_throws
      | apply WeakPtr_ctor_cb_never_throws
      | apply WeakPtr_swap_never_throws
      | apply WeakPtr_use_count_never_throws
      | apply WeakPtr_dtor_never_throws
      | apply bind_never_throws; [|intros ?]
      | progress (repeat case_match)
      | solve [prim_never_throws] ].
Qed.

(** A statement that throws has allocated a block and left it raw. *)
Theorem exec_throw (s s' : state) (c : stmt) :
  exec construct_T c s = Throw s' →
  ∃ al, s' = mkState (<[next_addr s := uninitialized]> (heap s))
                     (S (next_addr s)) (shared_ptrs s)
                     (weak_ptrs s) (trace s ++ [EvAllocate al (next_addr s)]).
Proof.
  intros Hexec.
  assert (∀ x al args, SharedPtr_ctor_alloc construct_T x 1 0 al args s = Throw s' →
    s' = mkState (<[next_addr s := uninitialized]> (heap s))
                 (S (next_addr s)) (shared_ptrs s)
                 (weak_ptrs s) (trace s ++ [EvAllocate al (next_addr s)])) as Halloc.
  { intros x al args Hthrow.
    destruct (shared_ptrs s !! x) eqn:Hx.
    { exfalso. revert Hthrow. unfold SharedPtr_ctor_alloc. run_code. discriminate. }
    destruct (construct_T args) as [object|] eqn:Hc.
    - by rewrite (SharedPtr_ctor_alloc_eval s x 1 0 al args object) in Hthrow.
    - rewrite SharedPtr_ctor_alloc_throw in Hthrow by done. by injection Hthrow as <-. }
  destruct c;
    try (exfalso; eapply exec_never_throws; [| |exact Hexec]; done).
  - eexists. exact (Halloc _ _ _ Hexec).
  - eexists. exact (Halloc _ _ _ Hexec).
Qed.

Lemma exec_throw_quiet (s s' : state) (c : stmt) :
  exec construct_T c s = Throw s' → quiet s s'.
Proof. intros Hexec. destruct (exec_throw s s' c Hexec) as [al ->]. apply quiet_leak. Qed.

(** ** Reachable states satisfy the invariant *)

Lemma wf_initial : wf (initial_state : state).
Proof.
  intros a. unfold cell_ok, unheld, initial_state. state_simpl.
  rewrite lookup_empty, refs_empty. by rewrite decide_False by lia.
Qed.

Theorem reachable_wf (s : state) : reachable construct_T s → wf s.
Proof.
  induction 1 as [|s c s' _ IH Hfits Hexec|s c s' _ IH Hfits Hexec].
  - apply wf_initial.
  - destruct (exec_ret s s' c IH Hfits Hexec) as (Hsum & _).
    by eapply summary_wf.
  - eapply quiet_wf; [exact IH|]. by eapply exec_throw_quiet.
Qed.


(** ** Frames of calls *)

Lemma trace_same_grows a (t : list event) :
  ∃ new, t = t ++ new ∧ destroy_calls a new = 0%nat ∧
         deallocate_calls a new = 0%nat ∧ deleter_calls a new = [].
Proof. exists []. by rewrite app_nil_r. Qed.

Lemma trace_allocate_grows a (t : list event) al a' :
  ∃ new, t ++ [EvAllocate al a'] = t ++ new ∧ destroy_calls a new = 0%nat ∧
         deallocate_calls a new = 0%nat ∧ deleter_calls a new = [].
Proof. by exists [EvAllocate al a']. Qed.

Lemma grows_stores a (s s' : state) :
  heap s' = heap s → next_addr s' = next_addr s → trace s' = trace s →
  refs (shared_ptrs s') a = refs (shared_ptrs s) a →
  refs (weak_ptrs s') a = refs (weak_ptrs s) a →
  grows a s s'.
Proof.
  intros Hh Hn Ht Hs Hw.
  constructor; unfold is_constructed, young; rewrite ?Hh, ?Hn, ?Ht, ?Hs, ?Hw; try done.
  - eauto.
  - apply trace_same_grows.
Qed.

Lemma grows_refl a (s : state) : grows a s s.
Proof. by apply grows_stores. Qed.

Lemma grows_trans a (s1 s2 s3 : state) : grows a s1 s2 → grows a s2 s3 → grows a s1 s3.
Proof.
  intros [A1 A2 A3 A4 A5 A6 Ad Af A7 A8] [B1 B2 B3 B4 B5 B6 Bd Bf B7 B8].
  constructor.
  - lia.
  - lia.
  - eauto.
  - eauto.
  - intros b Hb. destruct (A5 b Hb) as (b' & Hb' & Hd').
    destruct (B5 b' Hb') as (b'' & Hb'' & Hd''). exists b''. split; [done|congruence].
  - lia.
  - intros Hc Hz. apply Bd; eauto.
  - intros Hn Hlt. apply Bf; [eauto|lia].
  - eauto.
  - destruct A8 as (n1 & E1 & D1 & F1 & L1). destruct B8 as (n2 & E2 & D2 & F2 & L2).
    exists (n1 ++ n2). rewrite E2, E1, app_assoc, destroy_calls_app,
      deallocate_calls_app, deleter_calls_app, D1, D2, F1, F2, L1, L2. done.
Qed.

Lemma quiet_grows a (s s' : state) : wf s → quiet s s' → grows a s s'.
Proof.
  intros Hwf Hq. pose proof (wf_next_free s Hwf) as Hfree.
  destruct Hq.
  - apply grows_stores; state_simpl; try done.
    rewrite refs_insert_fresh by done. by rewrite one_if_None.
  - destruct (wf_block s a0 b Hwf) as [Hlt0 [Hs0 _ _ _ _]]; [done|].
    constructor; unfold is_constructed, young; state_simpl;
      rewrite ?refs_insert_fresh by done; try lia; try apply trace_same_grows.
    + rewrite lookup_insert. case_decide; [congruence|done].
    + intros [b0 Hb0]. rewrite lookup_insert. case_decide; eauto.
    + intros b0 Hb0. rewrite lookup_insert. case_decide; [subst|eauto].
      eexists. split; [done|]. state_simpl. congruence.
    + intros _ Hz. destruct (decide (a0 = a)) as [->|Hne]; [lia|].
      rewrite one_if_other by done. lia.
    + intros Hn _. rewrite lookup_insert. case_decide; [congruence|done].
    + intros [?|[?|(b0 & Hb0 & ?)]]; [by left|right; left|right; right].
      * rewrite lookup_insert. case_decide; [congruence|done].
      * rewrite lookup_insert. case_decide; [subst|eauto].
        eexists. split; [done|]. state_simpl. lia.
  - constructor; unfold is_constructed, young; state_simpl;
      rewrite ?refs_insert_fresh by done; try lia; try apply trace_allocate_grows.
    + rewrite lookup_insert. case_decide; [congruence|done].
    + intros [b0 Hb0]. rewrite lookup_insert. case_decide; [congruence|eauto].
    + intros b0 Hb0. rewrite lookup_insert. case_decide; [congruence|eauto].
    + intros [b0 Hb0] Hz. destruct (decide (next_addr s = a)) as [E|Hne]; [congruence|].
      rewrite one_if_other by done. lia.
    + intros Hn Hlt. rewrite lookup_insert_ne by lia. done.
    + intros [?|[?|(b0 & Hb0 & ?)]].
      * destruct (decide (a = next_addr s)) as [->|]; [|left; lia].
        right; right. rewrite lookup_insert_eq. eexists. split; [done|]. state_simpl. lia.
      * right; left. rewrite lookup_insert. case_decide; [congruence|done].
      * right; right. rewrite lookup_insert. case_decide; [congruence|eauto].
  - constructor; unfold is_constructed, young; state_simpl;
      try lia; try apply trace_allocate_grows; try done.
    + rewrite lookup_insert. case_decide; [congruence|done].
    + intros [b0 Hb0]. rewrite lookup_insert. case_decide; [congruence|eauto].
    + intros b0 Hb0. rewrite lookup_insert. case_decide; [congruence|eauto].
    + intros Hn Hlt. rewrite lookup_insert_ne by lia. done.
    + intros [?|[?|(b0 & Hb0 & ?)]].
      * destruct (decide (a = next_addr s)) as [->|]; [|left; lia].
        right; left. by rewrite lookup_insert_eq.
      * right; left. rewrite lookup_insert. case_decide; [congruence|done].
      * right; right. rewrite lookup_insert. case_decide; [congruence|eauto].
  - apply grows_stores; state_simpl; try done.
    by rewrite (refs_move _ _ _ c).
  - apply grows_stores; state_simpl; try done.
    by rewrite (refs_swap _ _ _ cx cy).
  - apply grows_stores; state_simpl; try done.
    rewrite (refs_delete_live (shared_ptrs s) l None a) by done.
    by rewrite one_if_None.
  - apply grows_stores; state_simpl; try done.
    rewrite refs_insert_fresh by done. by rewrite one_if_None.
  - constructor; unfold is_constructed, young; state_simpl;
      rewrite ?refs_insert_fresh by done; try lia; try apply trace_same_grows; try done.
    + rewrite lookup_insert. case_decide; [congruence|done].
    + intros [b0 Hb0]. rewrite lookup_insert. case_decide; eauto.
    + intros b0 Hb0. rewrite lookup_insert. case_decide; [subst|eauto].
      eexists. split; [done|]. state_simpl. congruence.
    + intros Hn _. rewrite lookup_insert. case_decide; [congruence|done].
    + intros [?|[?|(b0 & Hb0 & ?)]]; [by left|right; left|right; right].
      * rewrite lookup_insert. case_decide; [congruence|done].
      * rewrite lookup_insert. case_decide; [subst|eauto].
        eexists. split; [done|]. state_simpl. congruence.
  - apply grows_stores; state_simpl; try done.
    by rewrite (refs_move _ _ _ c).
  - apply grows_stores; state_simpl; try done.
    by rewrite (refs_swap _ _ _ cx cy).
  - apply grows_stores; state_simpl; try done.
    rewrite (refs_delete_live (weak_ptrs s) l None a) by done.
    by rewrite one_if_None.
Qed.

Lemma quiet_calls_grows a (s s' : state) : wf s → rtc quiet s s' → grows a s s' ∧ wf s'.
Proof.
  intros Hwf Hq. induction Hq as [s|s1 s2 s3 Hq _ IH].
  - split; [apply grows_refl|done].
  - destruct (IH (quiet_wf _ _ Hwf Hq)) as [Hg Hwf3].
    split; [|done]. eapply grows_trans; [|exact Hg]. by apply quiet_grows.
Qed.

Lemma deleter_calls_destroy_events a a' (b : BaseControlBlock) :
  deleter_calls a (destroy_events a' b) =
  if decide (a' = a) then
    match derived b with
    | ControlBlockWithoutMakeShared ptr d _ => disposal d ptr
    | ControlBlockWithMakeShared _ _ => []
    end
  else [].
Proof.
  unfold destroy_events, disposal.
  destruct (derived b) as [ptr d al | obj al]; [destruct (is_nullptr ptr)|];
    simpl; repeat case_bool_decide; repeat case_decide; simpl; congruence.
Qed.

Lemma deleter_calls_deallocate a a' al :
  deleter_calls a [EvDeallocate a' al : event] = [].
Proof. reflexivity. Qed.

Lemma deleter_calls_allocate a a' al :
  deleter_calls a [EvAllocate al a' : event] = [].
Proof. reflexivity. Qed.

(** A releasing call touches nothing of another block. *)
Lemma released_other a a0 (s s' : state) :
  released a0 s s' → a ≠ a0 →
  heap s' !! a = heap s !! a ∧
  refs (shared_ptrs s') a = refs (shared_ptrs s) a ∧
  refs (weak_ptrs s') a = refs (weak_ptrs s) a ∧
  next_addr s' = next_addr s ∧
  ∃ new, trace s' = trace s ++ new ∧ destroy_calls a new = 0%nat ∧
         deallocate_calls a new = 0%nat ∧ deleter_calls a new = [].
Proof.
  intros Hr Hne. destruct Hr as [s l b Hl Ha | s l b Hl Ha].
  - pose proof (refs_delete_live (shared_ptrs s) l (Some a0) a Hl) as Hdel.
    rewrite one_if_other in Hdel by done.
    unfold after_shared_release.
    destruct (shared_count b =? 1); [destruct (weak_count b =? 0)|]; state_simpl;
      rewrite ?lookup_delete_ne, ?lookup_insert_ne by done;
      (split; [done|]; split; [lia|]; split; [lia|]; split; [done|]).
    + eexists. split; [done|].
      rewrite destroy_calls_app, deallocate_calls_app, deleter_calls_app,
        destroy_calls_destroy_events, deallocate_calls_destroy_events,
        deleter_calls_destroy_events, destroy_calls_deallocate,
        deallocate_calls_deallocate, deleter_calls_deallocate.
      by rewrite !decide_False by done.
    + eexists. split; [done|].
      rewrite destroy_calls_destroy_events, deallocate_calls_destroy_events,
        deleter_calls_destroy_events.
      by rewrite !decide_False by done.
    + apply trace_same_grows.
  - pose proof (refs_delete_live (weak_ptrs s) l (Some a0) a Hl) as Hdel.
    rewrite one_if_other in Hdel by done.
    unfold after_weak_release.
    destruct ((weak_count b =? 1) && (shared_count b =? 0)); state_simpl;
      rewrite ?lookup_delete_ne, ?lookup_insert_ne by done;
      (split; [done|]; split; [lia|]; split; [lia|]; split; [done|]).
    + eexists. split; [done|].
      rewrite destroy_calls_deallocate, deallocate_calls_deallocate,
        deleter_calls_deallocate.
      by rewrite !decide_False by done.
    + apply trace_same_grows.
Qed.

(** A releasing call, seen from the released block. *)
Lemma released_same a (s s' : state) :
  released a s s' →
  ((refs (shared_ptrs s) a + refs (weak_ptrs s) a
    = refs (shared_ptrs s') a + refs (weak_ptrs s') a + 1)%nat ∧
   (refs (shared_ptrs s') a ≤ refs (shared_ptrs s) a ≤ refs (shared_ptrs s') a + 1)%nat ∧
   (refs (weak_ptrs s') a ≤ refs (weak_ptrs s) a ≤ refs (weak_ptrs s') a + 1)%nat) ∧
  is_constructed s a ∧
  (is_constructed s' a ∨ heap s' !! a = None) ∧
  next_addr s' = next_addr s ∧
  ∃ new, trace s' = trace s ++ new.
Proof.
  intros Hr. destruct Hr as [s l b Hl Ha | s l b Hl Ha].
  - pose proof (refs_delete_live (shared_ptrs s) l (Some a) a Hl) as Hdel.
    rewrite one_if_same in Hdel.
    unfold after_shared_release, is_constructed.
    destruct (shared_count b =? 1); [destruct (weak_count b =? 0)|]; state_simpl;
      rewrite ?lookup_delete_eq, ?lookup_insert_eq;
      (split; [lia|]; split; [by eauto|]; split; [by eauto|]; split; [done|]);
      first [by eexists | exists []; by rewrite app_nil_r].
  - pose proof (refs_delete_live (weak_ptrs s) l (Some a) a Hl) as Hdel.
    rewrite one_if_same in Hdel.
    unfold after_weak_release, is_constructed.
    destruct ((weak_count b =? 1) && (shared_count b =? 0)); state_simpl;
      rewrite ?lookup_delete_eq, ?lookup_insert_eq;
      (split; [lia|]; split; [by eauto|]; split; [by eauto|]; split; [done|]);
      first [by eexists | exists []; by rewrite app_nil_r].
Qed.

Lemma wf_constructed_below (s : state) a :
  wf s → is_constructed s a → (a < next_addr s)%nat.
Proof. intros Hwf [b Hb]. by destruct (wf_block s a b Hwf Hb). Qed.

Theorem summary_frame a (s s' : state) : wf s → summary s s' → frame a s s'.
Proof.
  intros Hwf [Hq | a0 s1 s2 Hq1 Ha0 Hr Hq2].
  - destruct (quiet_calls_grows a s s' Hwf Hq) as [[G1 G2 G3 G4 G5 G6 Gd Gf G7 G8] _].
    constructor; try (by eauto); try lia.
    + intros Hn. apply G7. by left.
    + destruct G8 as (new & ? & _). by exists new.
  - destruct (quiet_calls_grows a s s1 Hwf Hq1) as [[G1 G2 G3 G4 G5 G6 Gd Gf G7 G8] Hwf1].
    pose proof (released_wf _ _ _ Hwf1 Hr) as Hwf2.
    destruct (quiet_calls_grows a s2 s' Hwf2 Hq2) as [[K1 K2 K3 K4 K5 K6 Kd Kf K7 K8] _].
    pose proof (wf_constructed_below s a0 Hwf Ha0) as Hlt.
    destruct (decide (a = a0)) as [->|Hne].
    + destruct (released_same a0 s1 s2 Hr) as (Ht & Hc1 & Hc2 & Hn & new & Hnew).
      constructor; try lia.
      * intros Hraw. apply G3 in Hraw. destruct Hc1 as [? ?]. congruence.
      * intros _. destruct Hc2 as [Hc2|Hc2]; [left; by apply K4|].
        destruct (heap s' !! a0) as [[|b']|] eqn:Hs'; [|left; by eexists|by right].
        exfalso. destruct Ha0 as [b0 Hb0]. destruct (G5 b0 Hb0) as (b1 & Hb1 & _).
        pose proof (Hwf2 a0) as Hcell. unfold cell_ok in Hcell. rewrite Hc2 in Hcell.
        destruct Hcell as (_ & _ & Hfreed).
        rewrite decide_True in Hfreed by (rewrite Hn; lia).
        destruct K8 as (n2 & Hn2 & _ & Hz & _).
        pose proof (quiet_calls_grows a0 s2 s' Hwf2 Hq2) as [_ Hwf'].
        pose proof (Hwf' a0) as Hcell'. unfold cell_ok in Hcell'. rewrite Hs' in Hcell'.
        destruct Hcell' as (_ & _ & _ & Hnone).
        rewrite Hn2, deallocate_calls_app in Hnone. lia.
      * destruct G8 as (n1 & E1 & _). destruct K8 as (n2 & E2 & _).
        exists (n1 ++ new ++ n2). by rewrite E2, Hnew, E1, !app_assoc.
    + destruct (released_other a a0 s1 s2 Hr Hne) as (Hh & Hs & Hw & Hn & new & Hnew & _).
      constructor; try lia.
      * intros Hraw. apply K3. rewrite Hh. by apply G3.
      * intros Hc. left. apply K4. unfold is_constructed. rewrite Hh. by apply G4.
      * intros Hn0. apply K7.
        assert (young s1 a) as Hy by (apply G7; by left).
        unfold young in *. by rewrite Hh, Hn.
      * destruct G8 as (n1 & E1 & _). destruct K8 as (n2 & E2 & _).
        exists (n1 ++ new ++ n2). by rewrite E2, Hnew, E1, !app_assoc.
Qed.

(** ** Destructors that use no pointer object

    When no destructor of a managed object and no disposer uses a pointer
    object, [destroy()] is the call of [cb_destroy], and every statement
    does what [exec] says. *)

Lemma nested_bind_leaf {X Y} (m' : nested X) (m : M X) (k' : X → nested Y) (k : X → M Y)
    (s : state) :
  m' s = Done (m s) →
  (∀ x s1, k' x s1 = Done (k x s1)) →
  nested_bind m' k' s = Done (bind m k s).
Proof.
  intros Hm Hk. unfold nested_bind, bind. rewrite Hm.
  destruct (m s) as [x s1| |]; [apply Hk|done|done].
Qed.

Ltac leaf_step :=
  first
    [ reflexivity
    | apply nested_bind_leaf; [|intros ? ?]
    | match goal with
      | |- (if ?c then _ else _) _ = Done ((if ?c then _ else _) _) => destruct c
      | |- (match ?c with Some _ => _ | None => _ end) _ =
           Done ((match ?c with Some _ => _ | None => _ end) _) => destruct c
      end ].

Lemma noexcept_leaf {X} (m' : nested X) (m : M X) (s : state) :
  never_throws m → m' s = Done (m s) → noexcept m' s = Done (m s).
Proof.
  intros Hnt Hm. unfold noexcept. rewrite Hm.
  destruct (m s) as [x s1|s1|] eqn:E; [done| |done]. by destruct (Hnt s s1).
Qed.

Lemma SharedPtr_dtor_with_leaf (destroy : nat → nested unit) (this : nat) (s : state) :
  (∀ a s1, destroy a s1 = Done (cb_destroy a s1)) →
  SharedPtr_dtor_with destroy this s = Done (SharedPtr_dtor this s).
Proof.
  intros Hd. unfold SharedPtr_dtor_with.
  apply noexcept_leaf; [apply SharedPtr_dtor_never_throws|].
  unfold SharedPtr_dtor, mbind, nested_mbind, M_bind.
  repeat first [apply Hd | leaf_step].
Qed.

Lemma SharedPtr_assign_move_with_leaf (destroy : nat → nested unit) (this other : nat)
    (s : state) :
  (∀ a s1, destroy a s1 = Done (cb_destroy a s1)) →
  SharedPtr_assign_move_with destroy this other s = Done (SharedPtr_assign_move this other s).
Proof.
  intros Hd. unfold SharedPtr_assign_move_with, SharedPtr_assign_move, mbind, nested_mbind, M_bind.
  repeat first [by apply SharedPtr_dtor_with_leaf | leaf_step].
Qed.

Lemma exec_with_leaf (destroy : nat → nested unit) (c : stmt) (s : state) :
  (∀ a s1, destroy a s1 = Done (cb_destroy a s1)) →
  exec_with construct_T destroy c s = Done (exec construct_T c s).
Proof.
  intros Hd. destruct c; try reflexivity; simpl.
  - unfold SharedPtr_assign_copy_with, SharedPtr_assign_copy, mbind, nested_mbind, M_bind.
    repeat first [by apply SharedPtr_dtor_with_leaf | leaf_step].
  - by apply SharedPtr_assign_move_with_leaf.
  - unfold SharedPtr_reset_with, SharedPtr_reset, mbind, nested_mbind, M_bind.
    repeat first [by apply SharedPtr_dtor_with_leaf | by apply SharedPtr_assign_move_with_leaf
                 | leaf_step].
  - unfold SharedPtr_reset_ptr_with, SharedPtr_reset_ptr, mbind, nested_mbind, M_bind.
    repeat first [by apply SharedPtr_dtor_with_leaf | by apply SharedPtr_assign_move_with_leaf
                 | leaf_step].
  - by apply SharedPtr_dtor_with_leaf.
Qed.

Section Plain_objects.

Variable object_dtor : nat → list stmt.
Hypothesis Hplain : plain_objects object_dtor.

Lemma cb_destroy_with_plain (run_dtor : list stmt → nested unit) (a : nat) (s : state) :
  run_dtor [] = leaf (ret tt) →
  cb_destroy_with object_dtor run_dtor a s = Done (cb_destroy a s).
Proof.
  intros Hrun. unfold cb_destroy_with, cb_destroy, mbind, nested_mbind, M_bind.
  rewrite (Hplain a), Hrun.
  apply nested_bind_leaf; [done|]. intros b s1.
  apply nested_bind_leaf; [done|]. intros [] s2.
  destruct (derived b) as [ptr d al|obj al]; [destruct (is_nullptr ptr); [done|]|];
    unfold nested_bind, leaf, emit, ret; done.
Qed.

Lemma cb_destroy_plain (depth : nat) (a : nat) (s : state) :
  cb_destroy_nested construct_T object_dtor depth a s = Done (cb_destroy a s).
Proof. by apply cb_destroy_with_plain. Qed.

Lemma exec_nested_plain (depth : nat) (c : stmt) (s : state) :
  exec_nested construct_T object_dtor (S depth) c s = Done (exec construct_T c s).
Proof. simpl. apply exec_with_leaf. intros a s1. by apply cb_destroy_with_plain. Qed.

Lemma exec_nested_plain_inv (depth : nat) (c : stmt) (s : state) (o : outcome unit) :
  exec_nested construct_T object_dtor depth c s = Done o → exec construct_T c s = o.
Proof.
  destruct depth as [|depth]; [done|]. rewrite exec_nested_plain. congruence.
Qed.

Lemma SharedPtr_dtor_nested_plain (depth : nat) (this : nat) (s : state) :
  SharedPtr_dtor_nested construct_T object_dtor depth this s = Done (SharedPtr_dtor this s).
Proof. apply SharedPtr_dtor_with_leaf. intros a s1. apply cb_destroy_plain. Qed.

Lemma step_nested_plain (s s' : state) :
  step_nested construct_T object_dtor s s' → step construct_T s s'.
Proof.
  intros [Hfits (depth & c & [Hc|Hc])]; (split; [done|]); exists c;
    apply exec_nested_plain_inv in Hc; auto.
Qed.

Lemma steps_nested_plain (s s' : state) :
  rtc (step_nested construct_T object_dtor) s s' → rtc (step construct_T) s s'.
Proof.
  induction 1 as [|s1 s2 s3 Hstep _ IH]; [done|].
  eapply rtc_l; [|exact IH]. by apply step_nested_plain.
Qed.

Lemma reachable_nested_plain (s : state) :
  reachable_nested construct_T object_dtor s → reachable construct_T s.
Proof.
  induction 1 as [|s s' _ IH Hstep]; [constructor|].
  apply step_nested_plain in Hstep. destruct Hstep as [Hfits (c & [Hc|Hc])].
  - by eapply reachable_ret.
  - by eapply reachable_throw.
Qed.

Lemma step_plain_nested (s s' : state) :
  step construct_T s s' → step_nested construct_T object_dtor s s'.
Proof.
  intros [Hfits (c & Hc)]. split; [done|]. exists 1%nat, c.
  rewrite exec_nested_plain. destruct Hc as [-> | ->]; auto.
Qed.

Lemma steps_plain_nested (s s' : state) :
  rtc (step construct_T) s s' → rtc (step_nested construct_T object_dtor) s s'.
Proof.
  induction 1 as [|s1 s2 s3 Hstep _ IH]; [done|].
  eapply rtc_l; [|exact IH]. by apply step_plain_nested.
Qed.

Lemma reachable_plain_nested (s : state) :
  reachable construct_T s → reachable_nested construct_T object_dtor s.
Proof.
  induction 1 as [|s c s' _ IH Hfits Hc|s c s' _ IH Hfits Hc]; [constructor| |];
    (eapply reachable_nested_step; [exact IH|]); apply step_plain_nested;
    (split; [done|]); exists c; auto.
Qed.

End Plain_objects.

Lemma run_fitting_nested_reachable (object_dtor : nat → list stmt) (depth : nat)
    (p : list stmt) (s s' : state) :
  reachable_nested construct_T object_dtor s →
  run_fitting_nested construct_T object_dtor depth p s = Some s' →
  reachable_nested construct_T object_dtor s'.
Proof.
  revert s. induction p as [|c p IH]; intros s Hreach Hrun; simpl in Hrun.
  - by injection Hrun as <-.
  - destruct (fitsb s) eqn:Hfits; [|done].
    assert (fits s) as Hf by (revert Hfits; unfold fitsb, fits; apply Z.ltb_lt).
    destruct (exec_nested construct_T object_dtor depth c s) as [[[] s1|s1|]| |] eqn:Hexec;
      [| |done|done|done]; (apply (IH s1); [|done]);
      (eapply reachable_nested_step; [exact Hreach|]); (split; [done|]);
      exists depth, c; auto.
Qed.

(** ** Calls follow the count transitions *)

(** What a statement adds to the trace about one block address, and the
    counts of the block before and after the statement. *)
Lemma calls_of_a_statement (s s' : state) (c : stmt) (a : nat) :
  reachable construct_T s → fits s → exec construct_T c s = Ret tt s' →
  ∃ new, trace s' = trace s ++ new ∧
    destroy_calls a new =
      (if decide (shared_of s a = 1 ∧ shared_of s' a = 0) then 1%nat else 0%nat) ∧
    deallocate_calls a new =
      (if decide ((shared_of s a = 1 ∧ shared_of s' a = 0 ∧ weak_of s' a = 0) ∨
                  (weak_of s a = 1 ∧ weak_of s' a = 0 ∧ shared_of s' a = 0))
       then 1%nat else 0%nat) ∧
    (destroy_calls a (trace s') ≤ 1)%nat ∧
    (deallocate_calls a (trace s') ≤ 1)%nat.
Proof.
  intros Hreach Hfits Hexec.
  pose proof (reachable_wf s Hreach) as Hwf.
  destruct (exec_ret s s' c Hwf Hfits Hexec) as (Hsum & _ & _).
  pose proof (summary_wf s s' Hwf Hsum) as Hwf'.
  destruct (summary_frame a s s' Hwf Hsum) as [F1 Fs Fw F2 F3 Fn F4 [new Hnew]].
  exists new. split; [done|].
  pose proof (Hwf a) as C. pose proof (Hwf' a) as C'.
  unfold cell_ok, unheld in C, C'.
  rewrite Hnew, destroy_calls_app, deallocate_calls_app.
  unfold shared_of, weak_of, is_constructed, young in *.
  destruct (heap s !! a) as [[|b]|] eqn:Hs; destruct (heap s' !! a) as [[|b']|] eqn:Hs'.
  - destruct C as (? & [? ?] & ? & ?), C' as (? & [? ?] & Hd' & Hf').
    rewrite Hnew in Hd', Hf'.
    rewrite destroy_calls_app in Hd'. rewrite deallocate_calls_app in Hf'.
    repeat case_decide; lia.
  - specialize (F2 eq_refl). congruence.
  - specialize (F2 eq_refl). congruence.
  - destruct F3 as [[? ?]|?]; [by eexists|congruence|congruence].
  - destruct C as (? & [? ? ? ? ?]), C' as (? & [? ? ? Hd' Hf']).
    rewrite Hnew in Hd', Hf'.
    rewrite destroy_calls_app in Hd'. rewrite deallocate_calls_app in Hf'.
    repeat case_decide; lia.
  - destruct C as (? & [? ? ? ? ?]), C' as ([? ?] & Hd' & Hf').
    rewrite Hnew in Hd', Hf'.
    rewrite destroy_calls_app in Hd'. rewrite deallocate_calls_app in Hf'.
    repeat case_decide; lia.
  - destruct C as ([? ?] & ? & ?), C' as (? & [? ?] & Hd' & Hf').
    rewrite Hnew in Hd', Hf'.
    rewrite destroy_calls_app in Hd'. rewrite deallocate_calls_app in Hf'.
    repeat case_decide; lia.
  - destruct C as ([? ?] & Hd & Hf), C' as (Hlt' & [Hs1 Hw1 Hh1 Hd' Hf']).
    rewrite Hnew in Hd', Hf'.
    rewrite destroy_calls_app in Hd'. rewrite deallocate_calls_app in Hf'.
    destruct (decide (a < next_addr s)%nat) as [Hlt|Hge].
    + repeat case_decide; lia.
    + destruct F4 as [?|[?|(b0 & Hb0 & Hpos)]]; [lia|lia|congruence|].
      assert (b0 = b') as -> by congruence.
      repeat case_decide; lia.
  - destruct C as ([? ?] & ? & ?), C' as ([? ?] & Hd' & Hf').
    rewrite Hnew in Hd', Hf'.
    rewrite destroy_calls_app in Hd'. rewrite deallocate_calls_app in Hf'.
    destruct (decide (a < next_addr s)%nat) as [Hlt|Hge].
    + repeat case_decide; lia.
    + destruct F4 as [?|[?|(b0 & Hb0 & Hpos)]]; [lia| |congruence|congruence].
      repeat case_decide; lia.
Qed.

(** A statement changes one of the two pointer stores only. *)
Lemma one_store_changes (c : stmt) (s : state) :
  shared_ptrs_after c s = shared_ptrs s ∨ weak_ptrs_after c s = weak_ptrs s.
Proof. destruct c; simpl; auto. Qed.

(** When the managed objects neither hold nor use pointer objects: for
    every reachable state and every statement executed in it, on every
    block address, [destroy()] is called during the statement exactly when
    the block's [shared_count] goes from 1 to 0; [deallocate()] is called
    exactly when one of the two counts goes from 1 to 0 and the other
    count was 0 when the statement began (no statement moves both); and
    neither has been called more than once on the block since the program
    began. *)
Theorem destroy_and_deallocate_follow_count_transitions
    (object_dtor : nat → list stmt) (depth : nat) (s s' : state) (c : stmt) (a : nat) :
  plain_objects object_dtor →
  reachable_nested construct_T object_dtor s → fits s →
  exec_nested construct_T object_dtor depth c s = Done (Ret tt s') →
  ∃ new, trace s' = trace s ++ new ∧
    destroy_calls a new =
      (if decide (shared_of s a = 1 ∧ shared_of s' a = 0) then 1%nat else 0%nat) ∧
    deallocate_calls a new =
      (if decide ((shared_of s a = 1 ∧ shared_of s' a = 0 ∧ weak_of s a = 0) ∨
                  (weak_of s a = 1 ∧ weak_of s' a = 0 ∧ shared_of s a = 0))
       then 1%nat else 0%nat) ∧
    (destroy_calls a (trace s') ≤ 1)%nat ∧
    (deallocate_calls a (trace s') ≤ 1)%nat.
Proof.
  intros Hplain Hreach Hfits Hexec.
  apply (reachable_nested_plain _ Hplain) in Hreach.
  apply (exec_nested_plain_inv _ Hplain) in Hexec.
  destruct (calls_of_a_statement s s' c a Hreach Hfits Hexec)
    as (new & Hnew & Hd & Hf & H1 & H2).
  exists new. split_and!; try done.
  rewrite Hf. apply decide_ext.
  pose proof (reachable_wf s Hreach) as Hwf.
  destruct (exec_ret s s' c Hwf Hfits Hexec) as (Hsum & Hsh & Hwk).
  pose proof (summary_wf s s' Hwf Hsum) as Hwf'.
  pose proof (Hwf a) as C. pose proof (Hwf' a) as C'.
  unfold cell_ok, unheld in C, C'. unfold shared_of, weak_of.
  assert (refs (shared_ptrs s') a = refs (shared_ptrs s) a ∨
          refs (weak_ptrs s') a = refs (weak_ptrs s) a) as Hone.
  { rewrite Hsh, Hwk. destruct (one_store_changes c s) as [->| ->]; auto. }
  clear Hsh Hwk Hf Hd H1 H2.
  destruct (heap s !! a) as [[|b]|]; destruct (heap s' !! a) as [[|b']|];
    repeat match goal with
           | H : _ ∧ _ |- _ => destruct H
           | H : block_ok _ _ _ |- _ => destruct H
           end; lia.
Qed.

(** ** Claims *)

(** The events of [destroy()]. *)
Lemma cb_destroy_eval (s : state) a (b : BaseControlBlock) :
  heap s !! a = Some (constructed b) →
  cb_destroy a s = Ret tt (with_trace (trace s ++ destroy_events a b) s).
Proof.
  intros Ha. unfold cb_destroy, destroy_events. run_code.
  destruct (derived b) as [ptr d al|obj al]; [destruct (is_nullptr ptr)|]; run_code;
    by rewrite <- ?app_assoc.
Qed.

(** [destroy()] on a block without Strong Pointers whose only Weak Pointer
    is destroyed by the destructor of the managed object: [~WeakPtr()]
    deallocates the block before [destroy()] returns. *)
Lemma cb_destroy_frees_the_block
    (object_dtor : nat → list stmt) (depth : nat) (s : state) (w a : nat)
    (b : BaseControlBlock) :
  weak_ptrs s !! w = Some (Some a) →
  heap s !! a = Some (constructed b) →
  shared_count b = 0 → weak_count b = 1 →
  is_nullptr (block_get a b) = false →
  object_dtor a = [DestroyWeak w] →
  cb_destroy_nested construct_T object_dtor (S depth) a s =
    Done (Ret tt (mkState (delete a (heap s)) (next_addr s) (shared_ptrs s)
                          (delete w (weak_ptrs s))
                          (trace s ++ destroy_events a b ++ [EvDeallocate a (block_alloc b)]))).
Proof.
  intros Hw Ha Hs Hwk Hp Hd.
  unfold cb_destroy_nested, cb_destroy_with, run_nested, destroy_events, block_get in *.
  unfold mbind, nested_mbind, nested_bind, leaf, load, emit. rewrite Ha, Hd.
  assert (∀ s1 : state,
    weak_ptrs s1 = weak_ptrs s → heap s1 = heap s → next_addr s1 = next_addr s →
    shared_ptrs s1 = shared_ptrs s →
    run_with (exec_nested construct_T object_dtor (S depth)) [DestroyWeak w] s1
    = Done (Ret tt (mkState (delete a (heap s)) (next_addr s) (shared_ptrs s)
                            (delete w (weak_ptrs s))
                            (trace s1 ++ [EvDeallocate a (block_alloc b)])))) as Hrun.
  { intros s1 E1 E2 E3 E4. simpl. unfold mbind, nested_mbind, nested_bind, leaf.
    rewrite (WeakPtr_dtor_eval s1 w a b); try lia.
    2: { by rewrite E1. }
    2: { by rewrite E2. }
    2: { rewrite Hs, Hwk. by vm_compute. }
    unfold after_weak_release. rewrite Hs, Hwk, E1, E2, E3, E4. done. }
  destruct (derived b) as [ptr d al|obj al] eqn:Hb; [rewrite Hp|];
    cbv beta iota; state_simpl; rewrite Hrun by done; state_simpl;
    by rewrite <- !app_assoc.
Qed.

(** C1.  A managed object (so [get()] is not null) holds the only Weak
    Pointer [w] to its own block, and [x] is the only Strong Pointer to it:
    [struct Node { WeakPtr<Node> self; }; auto x = makeShared<Node>();
    x->self = x;].  When [x] is destroyed, [~SharedPtr()] sets
    [shared_count] to 0 and calls [destroy()]; the destructor of the
    object destroys [w], [~WeakPtr()] finds both counts 0 and calls
    [deallocate()], so that [destroy()] returns with the block freed.
    [~SharedPtr()] then reads [cb->weak_count] in the freed block, and
    would call [deallocate()] on it once more: the behaviour of the
    destructor of [x] is undefined. *)
Theorem C1_the_weak_count_is_read_after_the_block_was_freed
    (object_dtor : nat → list stmt) (depth : nat) (s : state) (x w a : nat)
    (b : BaseControlBlock) :
  shared_ptrs s !! x = Some (Some a) →
  weak_ptrs s !! w = Some (Some a) →
  heap s !! a = Some (constructed b) →
  shared_count b = 1 → weak_count b = 1 →
  is_nullptr (block_get a b) = false →
  object_dtor a = [DestroyWeak w] →
  let s0 := with_heap (<[a := constructed (set_shared_count 0 b)]> (heap s)) s in
  ∃ s1,
    cb_destroy_nested construct_T object_dtor (S depth) a s0 = Done (Ret tt s1) ∧
    trace s1 = trace s ++ destroy_events a b ++ [EvDeallocate a (block_alloc b)] ∧
    heap s1 !! a = None ∧
    load a s1 = Undefined ∧
    cb_deallocate a s1 = Undefined ∧
    exec_nested construct_T object_dtor (S (S depth)) (DestroyShared x) s = Done Undefined.
Proof.
  intros Hx Hw Ha Hs Hwk Hp Hd s0.
  pose proof (cb_destroy_frees_the_block object_dtor depth s0 w a (set_shared_count 0 b))
    as Hfree.
  unfold s0 in Hfree. state_simpl_in Hfree. rewrite lookup_insert_eq in Hfree.
  specialize (Hfree Hw eq_refl eq_refl Hwk Hp Hd).
  rewrite delete_insert_eq in Hfree.
  eexists. split; [exact Hfree|]. state_simpl.
  split; [done|]. split; [apply lookup_delete_eq|].
  split; [unfold load; state_simpl; by rewrite lookup_delete_eq|].
  split; [unfold cb_deallocate, load, mbind, M_bind, bind; state_simpl;
          by rewrite lookup_delete_eq|].
  change (exec_nested construct_T object_dtor (S (S depth)) (DestroyShared x) s)
    with (SharedPtr_dtor_with (cb_destroy_nested construct_T object_dtor (S depth)) x s).
  unfold SharedPtr_dtor_with, noexcept, mbind, nested_mbind, nested_bind, leaf.
  unfold sp_get, load, store. rewrite Hx. cbv beta iota. rewrite Ha. cbv beta iota.
  rewrite Ha, Hs. change (size_t_wrap (1 - 1)) with 0. state_simpl.
  rewrite lookup_insert_eq. state_simpl. cbv beta iota.
  change (0 =? 0) with true. cbv beta iota.
  rewrite Hfree. state_simpl. by rewrite lookup_delete_eq.
Qed.

Lemma fitsb_fits (s : state) : fitsb s = true → fits s.
Proof. unfold fitsb, fits. apply Z.ltb_lt. Qed.

Lemma run_fitting_reachable (p : list stmt) (s s' : state) :
  reachable construct_T s → run_fitting construct_T p s = Some s' →
  reachable construct_T s'.
Proof.
  revert s. induction p as [|c p IH]; intros s Hreach Hrun; simpl in Hrun.
  - by injection Hrun as <-.
  - destruct (fitsb s) eqn:Hfits; [|done]. apply fitsb_fits in Hfits.
    destruct (exec construct_T c s) as [[] s1|s1|] eqn:Hexec; [| |done].
    + apply (IH s1); [|done]. by eapply reachable_ret.
    + apply (IH s1); [|done]. by eapply reachable_throw.
Qed.

Lemma run_fitting_steps (p : list stmt) (s s' : state) :
  run_fitting construct_T p s = Some s' → rtc (step construct_T) s s'.
Proof.
  revert s. induction p as [|c p IH]; intros s Hrun; simpl in Hrun.
  - by injection Hrun as <-.
  - destruct (fitsb s) eqn:Hfits; [|done]. apply fitsb_fits in Hfits.
    destruct (exec construct_T c s) as [[] s1|s1|] eqn:Hexec; [| |done].
    + eapply rtc_l; [|by apply IH]. split; [done|]. exists c. by left.
    + eapply rtc_l; [|by apply IH]. split; [done|]. exists c. by right.
Qed.

Lemma steps_reachable (s s' : state) :
  reachable construct_T s → rtc (step construct_T) s s' → reachable construct_T s'.
Proof.
  intros Hreach Hsteps. induction Hsteps as [|s1 s2 s3 [Hfits [c [Hc|Hc]]] _ IH]; [done| |].
  - apply IH. by eapply reachable_ret.
  - apply IH. by eapply reachable_throw.
Qed.

(** C2. In every reachable state, [use_count()] of a Strong Pointer that
    references a block returns the number of live Strong Pointers that
    reference that block. *)
Theorem C2_use_count_is_the_number_of_live_owners (s : state) (x a : nat) :
  reachable construct_T s →
  shared_ptrs s !! x = Some (Some a) →
  SharedPtr_use_count x s = Ret (Z.of_nat (refs (shared_ptrs s) a)) s.
Proof.
  intros Hreach Hx. pose proof (reachable_wf s Hreach) as Hwf.
  destruct (wf_shared_target s x a Hwf Hx) as (b & Hb & _).
  destruct (wf_block s a b Hwf Hb) as [_ [Hs _ _ _ _]].
  rewrite (SharedPtr_use_count_eval s x a b Hx Hb). by rewrite Hs.
Qed.

(** C3, as the code has it. [allocateShared] (and [makeShared], with the
    default allocator) allocates the block first.  If the constructor of the
    managed object returns, the result references a block with
    [shared_count = 1] and [weak_count = 0].  If it throws, the exception
    propagates, no Strong Pointer exists, and the memory of the block stays
    allocated and raw: nothing releases it. *)
Theorem C3_a_throwing_constructor_leaves_the_block_allocated
    (s : state) (x : nat) (al : Allocator) (args : Args) :
  shared_ptrs s !! x = None →
  allocateShared construct_T x al args s =
    match construct_T args with
    | Some object =>
        Ret tt (mkState
                  (<[next_addr s :=
                       constructed (mkBlock 1 0 (ControlBlockWithMakeShared object al))]>
                     (heap s))
                  (S (next_addr s)) (<[x := Some (next_addr s)]> (shared_ptrs s))
                  (weak_ptrs s) (trace s ++ [EvAllocate al (next_addr s)]))
    | None =>
        Throw (mkState (<[next_addr s := uninitialized]> (heap s))
                       (S (next_addr s)) (shared_ptrs s)
                       (weak_ptrs s) (trace s ++ [EvAllocate al (next_addr s)]))
    end ∧
  makeShared construct_T x args s = allocateShared construct_T x default_construct args s.
Proof.
  intros Hx. split; [|reflexivity]. unfold allocateShared.
  destruct (construct_T args) as [object|] eqn:Hc.
  - by apply SharedPtr_ctor_alloc_eval.
  - by apply SharedPtr_ctor_alloc_throw.
Qed.

(** C4, as the code has it. Constructing a Strong Pointer from a raw
    pointer, an optional disposer and an optional allocator allocates an
    external-pointer control block with a default-constructed allocator;
    the block records the given disposer (a default-constructed one if none
    is given) and that default-constructed allocator, whatever allocator
    was given, with [shared_count = 1] and [weak_count = 0]. *)
Theorem C4_raw_pointer_constructor_ignores_the_allocator
    (s : state) (x : nat) (p : pointer) (d : option Deleter) (al : option Allocator) :
  shared_ptrs s !! x = None →
  SharedPtr_ctor_ptr x p d al s =
    Ret tt (mkState
              (<[next_addr s :=
                   constructed (mkBlock 1 0 (ControlBlockWithoutMakeShared p
                      (default default_construct d) default_construct))]> (heap s))
              (S (next_addr s)) (<[x := Some (next_addr s)]> (shared_ptrs s))
              (weak_ptrs s) (trace s ++ [EvAllocate default_construct (next_addr s)])).
Proof. apply SharedPtr_ctor_ptr_eval. Qed.

(** C5. In every reachable state, for a Weak Pointer [w] and a fresh
    result [x]: if [use_count()] of [w] is positive, [lock()] returns a
    Strong Pointer on the same block, whose [shared_count] is one more than
    before and whose other fields are as before, and [get()] of the result
    is the block's managed address; if [use_count()] is 0, [lock()]
    returns an empty Strong Pointer and changes no block. *)
Theorem C5_lock_shares_the_block_or_returns_empty (s : state) (w x : nat) (cw : option nat) :
  reachable construct_T s → fits s →
  weak_ptrs s !! w = Some cw →
  shared_ptrs s !! x = None →
  ∃ u, WeakPtr_use_count w s = Ret u s ∧ 0 ≤ u ∧
    if 0 <? u then
      ∃ a b, cw = Some a ∧ heap s !! a = Some (constructed b) ∧ u = shared_count b ∧
        let s' := mkState
                    (<[a := constructed (set_shared_count (shared_count b + 1) b)]> (heap s))
                    (next_addr s) (<[x := Some a]> (shared_ptrs s)) (weak_ptrs s) (trace s) in
        WeakPtr_lock w x s = Ret tt s' ∧
        SharedPtr_use_count x s' = Ret (u + 1) s' ∧
        SharedPtr_get x s' = Ret (block_get a b) s' ∧
        cb_get a s = Ret (block_get a b) s
    else
      WeakPtr_lock w x s = Ret tt (with_shared_ptrs (<[x := None]> (shared_ptrs s)) s).
Proof.
  intros Hreach Hfits Hw Hx. pose proof (reachable_wf s Hreach) as Hwf.
  pose proof (fits_room s Hfits) as Hroom. unfold room in Hroom.
  unfold WeakPtr_lock, WeakPtr_expired, mbind, M_bind, bind, mret, M_ret, ret.
  destruct cw as [a|].
  - destruct (wf_weak_target s w a Hwf Hw) as (b & Ha & Hb).
    pose proof (wf_count_bounds s a b Hwf Ha) as (Hs0 & Hw0 & Hle).
    rewrite (WeakPtr_use_count_eval s w a b Hw Ha).
    exists (shared_count b). split; [done|]. split; [done|].
    destruct (0 <? shared_count b) eqn:Hpos.
    + apply Z.ltb_lt in Hpos.
      assert ((shared_count b =? 0) = false) as -> by (apply Z.eqb_neq; lia).
      cbn [negb]. unfold wp_get. rewrite Hw.
      exists a, b. split; [done|]. split; [done|]. split; [done|]. cbv zeta.
      split; [apply SharedPtr_ctor_cb_eval; try done; lia|].
      split; [|split].
      * rewrite (SharedPtr_use_count_eval _ x a
                   (set_shared_count (shared_count b + 1) b));
          [done| |]; state_simpl; apply lookup_insert_eq.
      * rewrite (SharedPtr_get_eval _ x a (set_shared_count (shared_count b + 1) b));
          [done| |]; state_simpl; apply lookup_insert_eq.
      * unfold cb_get, mbind, M_bind, bind, load. by rewrite Ha.
    + apply Z.ltb_ge in Hpos. assert (shared_count b = 0) as E by lia.
      rewrite E. change (negb (0 =? 0)) with false. cbv iota.
      by apply SharedPtr_ctor_default_eval.
  - rewrite (WeakPtr_use_count_null_eval s w Hw).
    exists 0. split; [done|]. split; [done|].
    change (0 <? 0) with false. change (negb (0 =? 0)) with false. cbv iota.
    by apply SharedPtr_ctor_default_eval.
Qed.

(** C8. If the constructor of the managed type returns [v] on [args],
    [makeShared] with [args] returns a Strong Pointer whose [get()] is not
    null and points to [v]. *)
Theorem C8_makeShared_then_get_points_to_the_constructed_value
    (s : state) (x : nat) (args : Args) (v : T) :
  shared_ptrs s !! x = None →
  construct_T args = Some v →
  ∃ s' p, makeShared construct_T x args s = Ret tt s' ∧
    SharedPtr_get x s' = Ret p s' ∧
    p ≠ nullptr ∧
    pointee s' p = Some v.
Proof.
  intros Hx Hc. unfold makeShared, allocateShared.
  rewrite (SharedPtr_ctor_alloc_eval s x 1 0 default_construct args v Hx Hc).
  eexists. exists (object_of (next_addr s)). split; [done|].
  split; [|split; [done|]].
  - rewrite (SharedPtr_get_eval _ x (next_addr s)
               (mkBlock 1 0 (ControlBlockWithMakeShared v default_construct)));
      [done| |]; state_simpl; apply lookup_insert_eq.
  - unfold pointee. state_simpl. by rewrite lookup_insert_eq.
Qed.

(** ** Disposer calls *)

Lemma released_constructed a (s s' : state) : released a s s' → is_constructed s a.
Proof. destruct 1; by eexists. Qed.

Lemma quiet_untouched (s s' : state) : wf s → untouched s → quiet s s' → untouched s'.
Proof.
  intros Hwf Hu Hq a Ha.
  destruct (quiet_grows a s s' Hwf Hq) as [_ _ _ _ _ Hn _ _ _ (new & -> & _ & _ & Hd)].
  rewrite deleter_calls_app, Hd, app_nil_r. apply Hu. lia.
Qed.

Lemma released_untouched a0 (s s' : state) :
  wf s → untouched s → released a0 s s' → untouched s'.
Proof.
  intros Hwf Hu Hr a Ha.
  pose proof (wf_constructed_below s a0 Hwf (released_constructed _ _ _ Hr)) as Hlt.
  destruct (decide (a = a0)) as [->|Hne].
  - destruct (released_same a0 s s' Hr) as (_ & _ & _ & Hn & _). lia.
  - destruct (released_other a a0 s s' Hr Hne) as (_ & _ & _ & Hn & new & -> & _ & _ & Hd).
    rewrite deleter_calls_app, Hd, app_nil_r. apply Hu. lia.
Qed.

Lemma quiet_calls_untouched (s s' : state) :
  wf s → untouched s → rtc quiet s s' → untouched s'.
Proof.
  intros Hwf Hu Hq. induction Hq as [|s1 s2 s3 Hq _ IH]; [done|].
  apply IH; [by eapply quiet_wf|by eapply quiet_untouched].
Qed.

Lemma summary_untouched (s s' : state) : wf s → untouched s → summary s s' → untouched s'.
Proof.
  intros Hwf Hu [Hq | a0 s1 s2 Hq1 _ Hr Hq2].
  - by eapply quiet_calls_untouched.
  - destruct (quiet_calls_grows a0 s s1 Hwf Hq1) as [_ Hwf1].
    pose proof (quiet_calls_untouched s s1 Hwf Hu Hq1) as Hu1.
    eapply quiet_calls_untouched; [|by eapply released_untouched|exact Hq2].
    by eapply released_wf.
Qed.

Lemma reachable_untouched (s : state) : reachable construct_T s → untouched s.
Proof.
  induction 1 as [|s c s' Hr IH Hfits Hexec|s c s' Hr IH Hfits Hexec].
  - by intros a _.
  - pose proof (reachable_wf s Hr) as Hwf.
    destruct (exec_ret s s' c Hwf Hfits Hexec) as (Hsum & _).
    by eapply summary_untouched.
  - pose proof (reachable_wf s Hr) as Hwf.
    eapply quiet_untouched; [done|done|]. by eapply exec_throw_quiet.
Qed.

Lemma quiet_disposes a d p (s s' : state) :
  wf s → disposes a d p s → quiet s s' → disposes a d p s'.
Proof.
  intros Hwf [Hlt Hd] Hq.
  destruct (quiet_grows a s s' Hwf Hq)
    as [G1 G2 G3 G4 G5 Gn Gd Gf G7 (new & Hnew & _ & _ & Hdel)].
  pose proof (quiet_wf s s' Hwf Hq) as Hwf'.
  split; [lia|].
  rewrite Hnew, deleter_calls_app, Hdel, app_nil_r.
  destruct (heap s !! a) as [[|b]|] eqn:Hs; [done| |].
  - destruct (G5 b eq_refl) as (b' & -> & Hder). destruct Hd as [[al Hal] Hcalls].
    split; [exists al; congruence|]. rewrite Hcalls.
    destruct (wf_block s a b Hwf Hs) as [_ [Hsb _ _ _ _]].
    destruct (decide (refs (shared_ptrs s) a = 0%nat)) as [Hz|Hnz].
    + rewrite decide_True; [done|]. apply Gd; [by eexists|done].
    + rewrite decide_False; [done|]. lia.
  - by rewrite (Gf eq_refl Hlt).
Qed.

Lemma released_disposes a a0 d p (s s' : state) :
  wf s → disposes a d p s → released a0 s s' → disposes a d p s'.
Proof.
  intros Hwf [Hlt Hd] Hr.
  destruct (decide (a = a0)) as [<-|Hne].
  2: { destruct (released_other a a0 s s' Hr Hne)
         as (Hh & Hs & Hw & Hn & new & Hnew & _ & _ & Hdel).
       split; [lia|].
       by rewrite Hh, Hs, Hnew, deleter_calls_app, Hdel, app_nil_r. }
  destruct Hr as [s l b Hl Ha | s l b Hl Ha]; rewrite Ha in Hd;
    destruct Hd as [[al Hal] Hcalls];
    destruct (wf_block s a b Hwf Ha) as [_ [Hsb Hwb Hh _ _]].
  - pose proof (refs_delete_live (shared_ptrs s) l (Some a) a Hl) as Hdel.
    rewrite one_if_same in Hdel.
    rewrite decide_False in Hcalls by lia.
    unfold after_shared_release, disposes.
    destruct (shared_count b =? 1) eqn:E1; [destruct (weak_count b =? 0) eqn:E2|];
      state_simpl; (split; [done|]).
    + rewrite lookup_delete_eq, !deleter_calls_app, Hcalls,
        deleter_calls_destroy_events, deleter_calls_deallocate, Hal.
      by rewrite decide_True, app_nil_r.
    + rewrite lookup_insert_eq. state_simpl. split; [by exists al|].
      apply Z.eqb_eq in E1.
      rewrite deleter_calls_app, Hcalls, deleter_calls_destroy_events, Hal.
      rewrite decide_True by done. rewrite decide_True by lia. done.
    + rewrite lookup_insert_eq. state_simpl. split; [by exists al|].
      apply Z.eqb_neq in E1. rewrite Hcalls. rewrite decide_False by lia. done.
  - pose proof (refs_delete_live (weak_ptrs s) l (Some a) a Hl) as Hdel.
    rewrite one_if_same in Hdel.
    unfold after_weak_release, disposes.
    destruct ((weak_count b =? 1) && (shared_count b =? 0)) eqn:E;
      state_simpl; (split; [done|]).
    + apply andb_true_iff in E. destruct E as [_ E2]. apply Z.eqb_eq in E2.
      rewrite lookup_delete_eq, deleter_calls_app, Hcalls, deleter_calls_deallocate.
      rewrite decide_True by lia. by rewrite app_nil_r.
    + rewrite lookup_insert_eq. state_simpl. split; [by exists al|]. done.
Qed.

Lemma summary_disposes a d p (s s' : state) :
  wf s → disposes a d p s → summary s s' → disposes a d p s'.
Proof.
  assert (∀ s1 s2 : state, rtc quiet s1 s2 → wf s1 → disposes a d p s1 →
            disposes a d p s2 ∧ wf s2) as Hq.
  { induction 1 as [|s1 s2 s3 Hq _ IH]; [done|]. intros Hwf1 Hd1.
    apply IH; [by eapply quiet_wf|by eapply quiet_disposes]. }
  intros Hwf Hd [Hs | a0 s1 s2 H1 _ Hr H2].
  - by apply (Hq s s').
  - destruct (Hq s s1 H1 Hwf Hd) as [Hd1 Hwf1].
    apply (Hq s2 s'); [done|by eapply released_wf|by eapply released_disposes].
Qed.

Lemma steps_disposes a d p (s s' : state) :
  reachable construct_T s → disposes a d p s → rtc (step construct_T) s s' →
  disposes a d p s'.
Proof.
  intros Hreach Hd Hsteps.
  induction Hsteps as [|s1 s2 s3 [Hfits [c [Hc|Hc]]] _ IH]; [done| |].
  - pose proof (reachable_wf s1 Hreach) as Hwf.
    destruct (exec_ret s1 s2 c Hwf Hfits Hc) as (Hsum & _).
    apply IH; [by eapply reachable_ret|by eapply summary_disposes].
  - pose proof (reachable_wf s1 Hreach) as Hwf.
    apply IH; [by eapply reachable_throw|].
    eapply quiet_disposes; [done|done|]. by eapply exec_throw_quiet.
Qed.

(** C7. A Strong Pointer is constructed from the raw pointer [p] with the
    disposer [d]; the program goes on in any way; once no Strong and no
    Weak Pointer references the block any more, the block's disposer has
    been invoked exactly once, on [p], if [p] is not null, and not at all
    if [p] is null. *)
Theorem C7_the_disposer_runs_once_on_the_raw_pointer
    (s s1 s2 : state) (x : nat) (p : pointer) (d : option Deleter) (al : option Allocator) :
  reachable construct_T s → fits s →
  exec construct_T (DeclSharedPtr x p d al) s = Ret tt s1 →
  rtc (step construct_T) s1 s2 →
  refs (shared_ptrs s2) (next_addr s) = 0%nat →
  refs (weak_ptrs s2) (next_addr s) = 0%nat →
  deleter_calls (next_addr s) (trace s2) =
    if is_nullptr p then [] else [(default default_construct d, p)].
Proof.
  intros Hreach Hfits Hexec Hsteps Hs2 Hw2.
  pose proof (reachable_wf s Hreach) as Hwf.
  pose proof (reachable_untouched s Hreach) as Hu.
  assert (reachable construct_T s1) as Hreach1 by (by eapply reachable_ret).
  assert (disposes (next_addr s) (default default_construct d) p s1) as Hd1.
  { unfold exec in Hexec.
    destruct (shared_ptrs s !! x) eqn:Hx.
    { exfalso. revert Hexec. unfold SharedPtr_ctor_ptr. run_code. discriminate. }
    rewrite SharedPtr_ctor_ptr_eval in Hexec by done. injection Hexec as <-.
    split; state_simpl; [lia|]. rewrite lookup_insert_eq. state_simpl.
    split; [by eexists|].
    rewrite refs_insert_fresh, one_if_same by done.
    rewrite decide_False by lia.
    rewrite deleter_calls_app, deleter_calls_allocate, app_nil_r. by apply Hu. }
  pose proof (steps_disposes _ _ _ s1 s2 Hreach1 Hd1 Hsteps) as [Hlt Hd2].
  pose proof (reachable_wf s2 (steps_reachable s1 s2 Hreach1 Hsteps) (next_addr s)) as Hc.
  unfold cell_ok in Hc.
  destruct (heap s2 !! next_addr s) as [[|b]|]; [done| |done].
  destruct Hc as [_ [_ _ Hheld _ _]]. lia.
Qed.

(** ** Counts, read from the stores *)

Lemma wf_counts (s : state) a :
  wf s → is_constructed s a →
  shared_of s a = Z.of_nat (refs (shared_ptrs s) a) ∧
  weak_of s a = Z.of_nat (refs (weak_ptrs s) a).
Proof.
  intros Hwf [b Hb]. destruct (wf_block s a b Hwf Hb) as [_ [Hs Hw _ _ _]].
  unfold shared_of, weak_of. by rewrite Hb.
Qed.

Lemma refs_two (m : gmap nat (option nat)) l1 l2 a :
  l1 ≠ l2 → m !! l1 = Some (Some a) → m !! l2 = Some (Some a) → (2 ≤ refs m a)%nat.
Proof.
  intros Hne H1 H2. rewrite (refs_delete_live m l1 (Some a) a H1), one_if_same.
  assert (delete l1 m !! l2 = Some (Some a)) as H2' by (by rewrite lookup_delete_ne).
  apply refs_lookup in H2'. lia.
Qed.


(** C9. Move-assignment [w2 = std::move(w1)] of Weak Pointers, where [w1]
    references a block, does what copy-assignment does: [w1] still
    references the block, [w2] references it too, the block's [weak_count]
    is the number of live Weak Pointers that reference it, and both are
    counted in it. *)
Theorem C9_weak_move_assignment_is_a_copy (s : state) (w1 w2 a : nat) (c2 : option nat) :
  reachable construct_T s → fits s →
  weak_ptrs s !! w1 = Some (Some a) →
  weak_ptrs s !! w2 = Some c2 →
  ∃ s', exec construct_T (MoveAssignWeak w2 w1) s = Ret tt s' ∧
    exec construct_T (AssignWeak w2 w1) s = Ret tt s' ∧
    weak_ptrs s' !! w1 = Some (Some a) ∧
    weak_ptrs s' !! w2 = Some (Some a) ∧
    weak_of s' a = Z.of_nat (refs (weak_ptrs s') a) ∧
    (w1 ≠ w2 → 2 ≤ weak_of s' a).
Proof.
  intros Hreach Hfits H1 H2. pose proof (reachable_wf s Hreach) as Hwf.
  destruct (WeakPtr_assign_run s w2 c2 (Some a)) as (s' & E & Ht & S' & W'); try done.
  { pose proof (fits_spare s Hfits). unfold spare in *. lia. }
  { intros a' [= <-]. by eapply wf_is_constructed_weak. }
  assert (exec construct_T (AssignWeak w2 w1) s = Ret tt s') as Ecopy.
  { rewrite <- E. unfold exec, WeakPtr_assign_copy, WeakPtr_ctor_copy, wp_fresh, wp_live,
      wp_get, mbind, M_bind, bind.
    rewrite H2. cbv beta iota. by rewrite H1. }
  exists s'. split; [exact Ecopy|]. split; [exact Ecopy|].
  pose proof (transfer_wf _ _ _ Hwf Ht) as Hwf'.
  assert (weak_ptrs s' !! w2 = Some (Some a)) as H2'.
  { rewrite W'. apply lookup_insert_eq. }
  assert (weak_ptrs s' !! w1 = Some (Some a)) as H1'.
  { rewrite W', lookup_insert. by case_decide. }
  destruct (wf_counts s' a Hwf' (wf_is_constructed_weak s' w2 a Hwf' H2')) as [_ Cw'].
  repeat split; try done.
  intros Hne. rewrite Cw'. pose proof (refs_two _ w1 w2 a Hne H1' H2'). lia.
Qed.

(** C10. Copy-assignment of a Strong Pointer to itself, empty or not,
    returns in the state it started in: the pointer references the same
    block, no count has changed, and nothing was added to the trace, so
    neither [destroy()] nor [deallocate()] was called. *)
Theorem C10_self_copy_assignment_changes_nothing (s : state) (x : nat) (cx : option nat) :
  reachable construct_T s → fits s →
  shared_ptrs s !! x = Some cx →
  exec construct_T (AssignShared x x) s = Ret tt s.
Proof.
  intros Hreach Hfits Hx. pose proof (reachable_wf s Hreach) as Hwf.
  pose proof (fits_room s Hfits) as Hroom. unfold room in Hroom.
  unfold exec, SharedPtr_assign_copy, SharedPtr_ctor_copy, sp_fresh, sp_live, sp_get,
    mbind, M_bind, bind.
  rewrite Hx. cbv beta iota. rewrite Hx.
  pose proof (fresh_shared s) as Ht. revert Ht.
  generalize (fresh (dom (shared_ptrs s))). intros t Ht.
  assert (x ≠ t) by congruence.
  destruct cx as [a|].
  - destruct (wf_shared_target s x a Hwf Hx) as (b & Ha & Hb).
    pose proof (wf_count_bounds s a b Hwf Ha) as (Hs0 & Hw0 & Hle).
    rewrite (SharedPtr_ctor_cb_eval s t a b Ht Ha) by lia.
    rewrite (SharedPtr_swap_eval _ x t (Some a) (Some a)); state_simpl.
    2: { by rewrite lookup_insert_ne. }
    2: { apply lookup_insert_eq. }
    rewrite (SharedPtr_dtor_eval _ t a (set_shared_count (shared_count b + 1) b));
      state_simpl.
    2: { apply lookup_insert_eq. }
    2: { apply lookup_insert_eq. }
    2: { unfold size_t_modulus in *. lia. }
    unfold after_shared_release. state_simpl.
    assert ((shared_count b + 1 =? 1) = false) as -> by (apply Z.eqb_neq; lia).
    f_equal. apply state_eq; state_simpl; try done.
    + rewrite insert_insert_eq. apply insert_id. rewrite Ha. do 2 f_equal.
      destruct b as [sc wc dv]. unfold set_shared_count. simpl. f_equal. lia.
    + store_eq.
  - rewrite (SharedPtr_ctor_cb_null_eval s t Ht).
    rewrite (SharedPtr_swap_eval _ x t None None); state_simpl.
    2: { by rewrite lookup_insert_ne. }
    2: { apply lookup_insert_eq. }
    rewrite SharedPtr_dtor_null_eval; state_simpl.
    2: { apply lookup_insert_eq. }
    f_equal. apply state_eq; state_simpl; try done. store_eq.
Qed.

(** ** The events of calls *)

Lemma block_trace_app a (t1 t2 : list event) :
  block_trace a (t1 ++ t2) = block_trace a t1 ++ block_trace a t2.
Proof. unfold block_trace. apply List.filter_app. Qed.

Lemma block_trace_destroy_events a (b : BaseControlBlock) :
  block_trace a (destroy_events a b) = destroy_events a b.
Proof.
  unfold block_trace, destroy_events. simpl. rewrite bool_decide_eq_true_2 by done.
  destruct (derived b) as [ptr d al|obj al]; [destruct (is_nullptr ptr)|]; simpl;
    rewrite ?bool_decide_eq_true_2 by done; done.
Qed.

Lemma block_trace_destroy_events_other a a' (b : BaseControlBlock) :
  a' ≠ a → block_trace a (destroy_events a' b) = [].
Proof.
  intros Hne. unfold block_trace, destroy_events. simpl.
  rewrite bool_decide_eq_false_2 by done.
  destruct (derived b) as [ptr d al|obj al]; [destruct (is_nullptr ptr)|]; simpl;
    rewrite ?bool_decide_eq_false_2 by done; done.
Qed.

Lemma object_ends_app a (t1 t2 : list event) :
  object_ends a (t1 ++ t2) = (object_ends a t1 + object_ends a t2)%nat.
Proof. apply occurrences_app. Qed.

Lemma object_ends_destroy_events a a' (b : BaseControlBlock) :
  (object_ends a (destroy_events a' b) ≤ destroy_calls a (destroy_events a' b))%nat.
Proof.
  unfold object_ends, destroy_calls, occurrences, destroy_events. simpl.
  destruct (derived b) as [ptr d al|obj al]; [destruct (is_nullptr ptr)|]; simpl;
    case_bool_decide; simpl; lia.
Qed.

Lemma object_ends_allocate a al a' : object_ends a [EvAllocate al a' : event] = 0%nat.
Proof. done. Qed.

Lemma object_ends_deallocate a a' al : object_ends a [EvDeallocate a' al : event] = 0%nat.
Proof. done. Qed.

(** A call that releases nothing adds at most the allocation of the next
    block address to the trace. *)
Lemma quiet_trace (s s' : state) :
  quiet s s' →
  (trace s' = trace s ∧ next_addr s' = next_addr s) ∨
  (∃ al, trace s' = trace s ++ [EvAllocate al (next_addr s)] ∧
         next_addr s' = S (next_addr s)).
Proof. destruct 1; state_simpl; eauto. Qed.

(** A destructor call adds the events of [destroy()], of [deallocate()],
    both, or nothing. *)
Lemma released_trace a (s s' : state) :
  released a s s' →
  next_addr s' = next_addr s ∧
  ∃ b, heap s !! a = Some (constructed b) ∧
    (trace s' = trace s ∨
     trace s' = trace s ++ destroy_events a b ∨
     trace s' = trace s ++ destroy_events a b ++ [EvDeallocate a (block_alloc b)] ∨
     trace s' = trace s ++ [EvDeallocate a (block_alloc b)]).
Proof.
  destruct 1 as [s l b Hl Ha | s l b Hl Ha].
  - unfold after_shared_release.
    destruct (shared_count b =? 1); [destruct (weak_count b =? 0)|]; state_simpl;
      (split; [done|]); exists b; eauto.
  - unfold after_weak_release.
    destruct ((weak_count b =? 1) && (shared_count b =? 0)); state_simpl;
      (split; [done|]); exists b; eauto 6.
Qed.

Lemma released_trace_other a a0 (s s' : state) :
  released a0 s s' → a ≠ a0 → block_trace a (trace s') = block_trace a (trace s).
Proof.
  intros Hr Hne. destruct (released_trace a0 s s' Hr) as (_ & b & _ & Ht).
  assert (block_trace a [EvDeallocate a0 (block_alloc b) : event] = []) as Hd.
  { unfold block_trace. simpl. by rewrite bool_decide_eq_false_2. }
  destruct Ht as [-> | [-> | [-> | ->]]];
    rewrite ?block_trace_app, ?block_trace_destroy_events_other, ?Hd, ?app_nil_r by done;
    done.
Qed.

(** ** The managed object dies in [destroy()] only *)

Lemma summary_object_ends a (s s' : state) :
  summary s s' →
  (object_ends a (trace s) ≤ destroy_calls a (trace s))%nat →
  (object_ends a (trace s') ≤ destroy_calls a (trace s'))%nat.
Proof.
  assert (∀ s1 s2 : state, quiet s1 s2 →
            (object_ends a (trace s1) ≤ destroy_calls a (trace s1))%nat →
            (object_ends a (trace s2) ≤ destroy_calls a (trace s2))%nat) as Hq.
  { intros s1 s2 Hq H12.
    destruct (quiet_trace s1 s2 Hq) as [[-> _]|(al & -> & _)]; [done|].
    rewrite object_ends_app, destroy_calls_app, object_ends_allocate. lia. }
  assert (∀ s1 s2 : state, rtc quiet s1 s2 →
            (object_ends a (trace s1) ≤ destroy_calls a (trace s1))%nat →
            (object_ends a (trace s2) ≤ destroy_calls a (trace s2))%nat) as Hqs.
  { induction 1; eauto. }
  assert (∀ a0 (s1 s2 : state), released a0 s1 s2 →
            (object_ends a (trace s1) ≤ destroy_calls a (trace s1))%nat →
            (object_ends a (trace s2) ≤ destroy_calls a (trace s2))%nat) as Hr.
  { intros a0 s1 s2 Hrel H12.
    destruct (released_trace a0 s1 s2 Hrel) as (_ & b & _ & Ht).
    pose proof (object_ends_destroy_events a a0 b).
    destruct Ht as [-> | [-> | [-> | ->]]];
      rewrite ?object_ends_app, ?destroy_calls_app, ?object_ends_deallocate,
        ?destroy_calls_deallocate; lia. }
  intros [Hs | a0 s1 s2 H1 _ H2 H3]; eauto.
Qed.

Lemma reachable_object_ends (s : state) a :
  reachable construct_T s → (object_ends a (trace s) ≤ destroy_calls a (trace s))%nat.
Proof.
  induction 1 as [|s c s' Hr IH Hfits Hexec|s c s' Hr IH Hfits Hexec].
  - done.
  - pose proof (reachable_wf s Hr) as Hwf.
    destruct (exec_ret s s' c Hwf Hfits Hexec) as (Hsum & _).
    by eapply summary_object_ends.
  - destruct (exec_throw s s' c Hexec) as [al ->]. state_simpl.
    rewrite object_ends_app, destroy_calls_app, object_ends_allocate. lia.
Qed.

Lemma refs_positive (m : gmap nat (option nat)) a :
  (0 < refs m a)%nat → ∃ l, m !! l = Some (Some a).
Proof.
  unfold refs. intros Hpos.
  destruct (filter (λ kv : nat * option nat, kv.2 = Some a) (map_to_list m))
    as [|[l c] rest] eqn:E; [simpl in Hpos; lia|].
  assert ((l, c) ∈ filter (λ kv : nat * option nat, kv.2 = Some a) (map_to_list m)) as Hin.
  { rewrite E. left. }
  apply list_elem_of_filter in Hin as [Hc Hin]. simpl in Hc. subst c.
  exists l. by apply elem_of_map_to_list.
Qed.

(** ** Invariants of reachable states *)

(** In every reachable state, the constructed control blocks in memory
    are exactly those that a live Strong or Weak Pointer references: no
    pointer references a block that was deallocated, and no block stays in
    memory after its last pointer is gone. *)
Theorem control_block_in_memory_iff_referenced (s : state) (a : nat) :
  reachable construct_T s →
  is_constructed s a ↔
    (∃ l, shared_ptrs s !! l = Some (Some a)) ∨ (∃ l, weak_ptrs s !! l = Some (Some a)).
Proof.
  intros Hreach. pose proof (reachable_wf s Hreach) as Hwf. split.
  - intros [b Hb]. destruct (wf_block s a b Hwf Hb) as [_ [_ _ Hheld _ _]].
    destruct (decide (0 < refs (shared_ptrs s) a)%nat) as [Hs|Hs].
    + left. by apply refs_positive.
    + right. apply refs_positive. lia.
  - intros [[l Hl]|[l Hl]].
    + destruct (wf_shared_target s l a Hwf Hl) as (b & Hb & _). by exists b.
    + destruct (wf_weak_target s l a Hwf Hl) as (b & Hb & _). by exists b.
Qed.

(** In every reachable state, the two counters of every block in memory
    are the numbers of live Strong and of live Weak Pointers that reference
    it, also when no Strong Pointer is left; their sum is positive and at
    most the number of live pointer objects. *)
Theorem counters_are_the_numbers_of_live_pointers (s : state) (a : nat) (b : BaseControlBlock) :
  reachable construct_T s →
  heap s !! a = Some (constructed b) →
  shared_count b = Z.of_nat (refs (shared_ptrs s) a) ∧
  weak_count b = Z.of_nat (refs (weak_ptrs s) a) ∧
  0 < shared_count b + weak_count b ≤ Z.of_nat (population s).
Proof.
  intros Hreach Hb. pose proof (reachable_wf s Hreach) as Hwf.
  destruct (wf_block s a b Hwf Hb) as [_ [Hs Hw Hheld _ _]].
  pose proof (wf_count_bounds s a b Hwf Hb) as (_ & _ & Hle).
  repeat split; try done. lia.
Qed.

(** In every reachable state, the managed object of a block that a live
    Strong Pointer references is alive: [destroy()] was never called on the
    block, neither the disposer nor the destructor of the object has run,
    and the block was not deallocated. *)
Theorem an_owned_object_is_alive (s : state) (x a : nat) :
  reachable construct_T s →
  shared_ptrs s !! x = Some (Some a) →
  destroy_calls a (trace s) = 0%nat ∧
  object_ends a (trace s) = 0%nat ∧
  deallocate_calls a (trace s) = 0%nat.
Proof.
  intros Hreach Hx. pose proof (reachable_wf s Hreach) as Hwf.
  destruct (wf_shared_target s x a Hwf Hx) as (b & Hb & Hpos).
  destruct (wf_block s a b Hwf Hb) as [_ [Hs _ _ Hd Hf]].
  rewrite decide_False in Hd by lia.
  pose proof (reachable_object_ends s a Hreach). repeat split; [done|lia|done].
Qed.

(** In every reachable state, [use_count()] of a Weak Pointer that
    references a block is the number of live Strong Pointers that reference
    it, and [expired()] says whether there is none; an empty Weak Pointer
    counts 0 and is expired. *)
Theorem WeakPtr_use_count_and_expired (s : state) (w : nat) (c : option nat) :
  reachable construct_T s →
  weak_ptrs s !! w = Some c →
  let owners := match c with Some a => refs (shared_ptrs s) a | None => 0%nat end in
  WeakPtr_use_count w s = Ret (Z.of_nat owners) s ∧
  WeakPtr_expired w s = Ret (bool_decide (owners = 0%nat)) s.
Proof.
  intros Hreach Hw owners. pose proof (reachable_wf s Hreach) as Hwf.
  assert (WeakPtr_use_count w s = Ret (Z.of_nat owners) s) as Hu.
  { destruct c as [a|].
    - destruct (wf_weak_target s w a Hwf Hw) as (b & Hb & _).
      destruct (wf_block s a b Hwf Hb) as [_ [Hs _ _ _ _]].
      rewrite (WeakPtr_use_count_eval s w a b Hw Hb). by rewrite Hs.
    - by apply WeakPtr_use_count_null_eval. }
  split; [exact Hu|].
  unfold WeakPtr_expired, mbind, M_bind, bind, mret, M_ret, ret. rewrite Hu.
  do 2 f_equal. case_bool_decide as Ho.
  - rewrite Ho. done.
  - apply Z.eqb_neq. lia.
Qed.

(** ** The life of one block *)

Lemma destroy_events_derived a (b : BaseControlBlock) d :
  derived b = d → destroy_events a b = destroy_events a (mkBlock 0 0 d).
Proof. intros <-. done. Qed.

Lemma block_alloc_derived (b : BaseControlBlock) d :
  derived b = d → block_alloc b = block_alloc (mkBlock 0 0 d).
Proof. intros <-. done. Qed.

Lemma block_trace_deallocate a (al : Allocator) :
  block_trace a [EvDeallocate a al : event] = [EvDeallocate a al].
Proof. unfold block_trace. simpl. by rewrite bool_decide_eq_true_2. Qed.

Lemma quiet_block_trace a (s s' : state) :
  quiet s s' → (a < next_addr s)%nat → block_trace a (trace s') = block_trace a (trace s).
Proof.
  intros Hq Hlt. destruct (quiet_trace s s' Hq) as [[-> _]|(al & -> & _)]; [done|].
  rewrite block_trace_app. unfold block_trace at 2. simpl.
  rewrite bool_decide_eq_false_2 by lia. by rewrite app_nil_r.
Qed.

Lemma quiet_keeps a d (s s' : state) : wf s → keeps a d s → quiet s s' → keeps a d s'.
Proof.
  intros Hwf [Hlt Hk] Hq.
  destruct (quiet_grows a s s' Hwf Hq) as [_ _ _ _ G5 Gn _ Gf _ _].
  split; [lia|].
  destruct (heap s !! a) as [[|b]|] eqn:Hs; [done| |].
  - destruct (G5 b eq_refl) as (b' & -> & Hder). congruence.
  - by rewrite (Gf eq_refl Hlt).
Qed.

Lemma released_keeps a a0 d (s s' : state) : keeps a d s → released a0 s s' → keeps a d s'.
Proof.
  intros [Hlt Hk] Hr.
  destruct (decide (a = a0)) as [<-|Hne].
  2: { destruct (released_other a a0 s s' Hr Hne) as (Hh & _ & _ & Hn & _).
       split; [lia|]. by rewrite Hh. }
  destruct Hr as [s l b Hl Ha | s l b Hl Ha]; rewrite Ha in Hk.
  - unfold after_shared_release, keeps.
    destruct (shared_count b =? 1); [destruct (weak_count b =? 0)|]; state_simpl;
      (split; [done|]); rewrite ?lookup_delete_eq, ?lookup_insert_eq; done.
  - unfold after_weak_release, keeps.
    destruct ((weak_count b =? 1) && (shared_count b =? 0)); state_simpl;
      (split; [done|]); rewrite ?lookup_delete_eq, ?lookup_insert_eq; done.
Qed.

Lemma quiet_life a d (s s' : state) : wf s → life a d s → quiet s s' → life a d s'.
Proof.
  intros Hwf [Hk Ht] Hq. split; [by eapply quiet_keeps|].
  pose proof (quiet_wf s s' Hwf Hq) as Hwf'. destruct Hk as [Hlt Hk].
  rewrite (quiet_block_trace a s s' Hq Hlt), Ht.
  destruct (quiet_grows a s s' Hwf Hq) as [G1 G2 _ _ G5 _ Gd Gf _ _].
  unfold lifetime_events.
  destruct (heap s !! a) as [[|b]|] eqn:Hs; [done| |].
  - destruct (wf_block s a b Hwf Hs) as [_ [_ _ Hheld _ _]].
    destruct (G5 b eq_refl) as (b' & Hs' & _).
    destruct (wf_block s' a b' Hwf' Hs') as [_ [_ _ Hheld' _ _]].
    assert (refs (shared_ptrs s) a = 0%nat → refs (shared_ptrs s') a = 0%nat) as Hdead.
    { apply Gd. by exists b. }
    repeat case_decide; try done; lia.
  - pose proof (Hwf a) as C. unfold cell_ok in C. rewrite Hs in C.
    destruct C as [[Z1 Z2] _].
    pose proof (Hwf' a) as C'. unfold cell_ok in C'. rewrite (Gf eq_refl Hlt) in C'.
    destruct C' as [[Z1' Z2'] _]. by rewrite Z1, Z2, Z1', Z2'.
Qed.

Lemma released_life a a0 d (s s' : state) :
  wf s → life a d s → released a0 s s' → life a d s'.
Proof.
  intros Hwf [Hk Ht] Hr. split; [by eapply released_keeps|].
  destruct (decide (a = a0)) as [<-|Hne].
  2: { destruct (released_other a a0 s s' Hr Hne) as (_ & -> & -> & _).
       by rewrite (released_trace_other a a0 s s' Hr Hne). }
  destruct Hk as [Hlt Hk].
  destruct Hr as [s l b Hl Ha | s l b Hl Ha]; rewrite Ha in Hk;
    destruct (wf_block s a b Hwf Ha) as [_ [Hsb Hwb Hheld _ _]].
  - pose proof (refs_delete_live (shared_ptrs s) l (Some a) a Hl) as Hdel.
    rewrite one_if_same in Hdel.
    unfold after_shared_release.
    destruct (shared_count b =? 1) eqn:E1; [destruct (weak_count b =? 0) eqn:E2|];
      state_simpl;
      rewrite ?(destroy_events_derived a b d Hk), ?(block_alloc_derived b d Hk),
        ?block_trace_app, ?block_trace_destroy_events, ?block_trace_deallocate, Ht;
      unfold lifetime_events;
      rewrite ?Z.eqb_eq, ?Z.eqb_neq in *;
      repeat case_decide; try lia; try done;
      rewrite ?app_nil_r; simpl; rewrite <- ?app_assoc; try done.
    all: exfalso; intuition lia.
  - pose proof (refs_delete_live (weak_ptrs s) l (Some a) a Hl) as Hdel.
    rewrite one_if_same in Hdel.
    unfold after_weak_release.
    destruct ((weak_count b =? 1) && (shared_count b =? 0)) eqn:E;
      [apply andb_true_iff in E|apply andb_false_iff in E];
      state_simpl;
      rewrite ?(block_alloc_derived b d Hk),
        ?block_trace_app, ?block_trace_deallocate, Ht;
      unfold lifetime_events;
      rewrite ?Z.eqb_eq, ?Z.eqb_neq in *;
      repeat case_decide; try lia; try done;
      rewrite ?app_nil_r; simpl; rewrite <- ?app_assoc; try done.
    all: exfalso; intuition lia.
Qed.

Lemma summary_life a d (s s' : state) : wf s → life a d s → summary s s' → life a d s'.
Proof.
  assert (∀ s1 s2 : state, rtc quiet s1 s2 → wf s1 → life a d s1 →
            life a d s2 ∧ wf s2) as Hq.
  { induction 1 as [|s1 s2 s3 Hq _ IH]; [done|]. intros Hwf1 Hd1.
    apply IH; [by eapply quiet_wf|by eapply quiet_life]. }
  intros Hwf Hd [Hs | a0 s1 s2 H1 _ Hr H2].
  - by apply (Hq s s').
  - destruct (Hq s s1 H1 Hwf Hd) as [Hd1 Hwf1].
    apply (Hq s2 s'); [done|by eapply released_wf|by eapply released_life].
Qed.

Lemma steps_life a d (s s' : state) :
  reachable construct_T s → life a d s → rtc (step construct_T) s s' → life a d s'.
Proof.
  intros Hreach Hd Hsteps.
  induction Hsteps as [|s1 s2 s3 [Hfits [c [Hc|Hc]]] _ IH]; [done| |].
  - pose proof (reachable_wf s1 Hreach) as Hwf.
    destruct (exec_ret s1 s2 c Hwf Hfits Hc) as (Hsum & _).
    apply IH; [by eapply reachable_ret|by eapply summary_life].
  - pose proof (reachable_wf s1 Hreach) as Hwf.
    apply IH; [by eapply reachable_throw|].
    eapply quiet_life; [done|done|]. by eapply exec_throw_quiet.
Qed.

Lemma summary_keeps a d (s s' : state) : wf s → keeps a d s → summary s s' → keeps a d s'.
Proof.
  assert (∀ s1 s2 : state, rtc quiet s1 s2 → wf s1 → keeps a d s1 →
            keeps a d s2 ∧ wf s2) as Hq.
  { induction 1 as [|s1 s2 s3 Hq _ IH]; [done|]. intros Hwf1 Hd1.
    apply IH; [by eapply quiet_wf|by eapply quiet_keeps]. }
  intros Hwf Hd [Hs | a0 s1 s2 H1 _ Hr H2].
  - by apply (Hq s s').
  - destruct (Hq s s1 H1 Hwf Hd) as [Hd1 Hwf1].
    apply (Hq s2 s'); [done|by eapply released_wf|by eapply released_keeps].
Qed.

Lemma steps_keeps a d (s s' : state) :
  reachable construct_T s → keeps a d s → rtc (step construct_T) s s' → keeps a d s'.
Proof.
  intros Hreach Hd Hsteps.
  induction Hsteps as [|s1 s2 s3 [Hfits [c [Hc|Hc]]] _ IH]; [done| |].
  - pose proof (reachable_wf s1 Hreach) as Hwf.
    destruct (exec_ret s1 s2 c Hwf Hfits Hc) as (Hsum & _).
    apply IH; [by eapply reachable_ret|by eapply summary_keeps].
  - pose proof (reachable_wf s1 Hreach) as Hwf.
    apply IH; [by eapply reachable_throw|].
    eapply quiet_keeps; [done|done|]. by eapply exec_throw_quiet.
Qed.

(** Nothing has happened at a block address that was not handed out yet. *)
Lemma summary_fresh_trace (s s' : state) :
  wf s → summary s s' →
  (∀ a, (next_addr s ≤ a)%nat → block_trace a (trace s) = []) →
  ∀ a, (next_addr s' ≤ a)%nat → block_trace a (trace s') = [].
Proof.
  assert (∀ s1 s2 : state, quiet s1 s2 →
            (∀ a, (next_addr s1 ≤ a)%nat → block_trace a (trace s1) = []) →
            ∀ a, (next_addr s2 ≤ a)%nat → block_trace a (trace s2) = []) as Hq.
  { intros s1 s2 Hq H1 a Ha.
    destruct (quiet_trace s1 s2 Hq) as [[-> Hn]|(al & -> & Hn)]; rewrite Hn in Ha.
    - by apply H1.
    - rewrite block_trace_app, H1 by lia. unfold block_trace. simpl.
      by rewrite bool_decide_eq_false_2 by lia. }
  assert (∀ s1 s2 : state, rtc quiet s1 s2 → wf s1 →
            (∀ a, (next_addr s1 ≤ a)%nat → block_trace a (trace s1) = []) →
            wf s2 ∧ ∀ a, (next_addr s2 ≤ a)%nat → block_trace a (trace s2) = []) as Hqs.
  { induction 1 as [|s1 s2 s3 H12 _ IH]; [done|]. intros Hwf1 H1.
    apply IH; [by eapply quiet_wf|by eapply Hq]. }
  assert (∀ a0 (s1 s2 : state), released a0 s1 s2 → wf s1 →
            (∀ a, (next_addr s1 ≤ a)%nat → block_trace a (trace s1) = []) →
            ∀ a, (next_addr s2 ≤ a)%nat → block_trace a (trace s2) = []) as Hr.
  { intros a0 s1 s2 Hrel Hwf1 H1 a Ha.
    destruct (released_trace a0 s1 s2 Hrel) as (Hn & b & Hb & _). rewrite Hn in Ha.
    destruct (wf_block s1 a0 b Hwf1 Hb) as [Hlt _].
    rewrite (released_trace_other a a0 s1 s2 Hrel) by lia. by apply H1. }
  intros Hwf [Hs | a0 s1 s2 H1 _ H2 H3] Hfresh.
  - by apply (Hqs s s').
  - destruct (Hqs s s1 H1 Hwf Hfresh) as [Hwf1 Hf1].
    apply (Hqs s2 s' H3); [by eapply released_wf|by eapply Hr].
Qed.

Lemma reachable_fresh_trace (s : state) a :
  reachable construct_T s → (next_addr s ≤ a)%nat → block_trace a (trace s) = [].
Proof.
  intros Hreach. revert a.
  induction Hreach as [|s c s' Hr IH Hfits Hexec|s c s' Hr IH Hfits Hexec]; intros a Ha.
  - done.
  - pose proof (reachable_wf s Hr) as Hwf.
    destruct (exec_ret s s' c Hwf Hfits Hexec) as (Hsum & _).
    by eapply (summary_fresh_trace s s').
  - destruct (exec_throw s s' c Hexec) as [al ->]. revert Ha. state_simpl. intros Ha.
    rewrite block_trace_app, IH by lia. unfold block_trace. simpl.
    by rewrite bool_decide_eq_false_2 by lia.
Qed.

Lemma block_trace_allocate a (al : Allocator) :
  block_trace a [EvAllocate al a : event] = [EvAllocate al a].
Proof. unfold block_trace. simpl. by rewrite bool_decide_eq_true_2. Qed.

(** A block that was just constructed begins its life. *)
Lemma life_begins (s : state) x al d :
  reachable construct_T s →
  shared_ptrs s !! x = None →
  al = block_alloc (mkBlock 1 0 d) →
  life (next_addr s) d
    (mkState (<[next_addr s := constructed (mkBlock 1 0 d)]> (heap s))
             (S (next_addr s)) (<[x := Some (next_addr s)]> (shared_ptrs s))
             (weak_ptrs s) (trace s ++ [EvAllocate al (next_addr s)])).
Proof.
  intros Hreach Hx ->. pose proof (reachable_wf s Hreach) as Hwf.
  split; [split|]; state_simpl.
  - lia.
  - by rewrite lookup_insert_eq.
  - pose proof (Hwf (next_addr s)) as C. unfold cell_ok in C.
    rewrite (wf_next_free s Hwf) in C. destruct C as [[Z1 Z2] _].
    rewrite block_trace_app, (reachable_fresh_trace s) by done.
    rewrite block_trace_allocate, refs_insert_fresh, one_if_same, Z1, Z2 by done.
    unfold lifetime_events. rewrite !decide_False by lia. done.
Qed.

(** When the managed objects neither hold nor use pointer objects: from
    [allocateShared(al, args...)] on, the calls made on the block it
    creates are, in this order and once each: its allocation by [al];
    [destroy()], which lets [al] destroy the managed object, as soon as no
    Strong Pointer references the block; its deallocation by [al] as soon
    as no Weak Pointer references it either.  At every later moment the
    trace has exactly those of them that are due. *)
Theorem allocateShared_block_lifetime
    (object_dtor : nat → list stmt) (depth : nat)
    (s s1 s2 : state) (x : nat) (al : Allocator) (args : Args) :
  plain_objects object_dtor →
  reachable_nested construct_T object_dtor s → fits s →
  exec_nested construct_T object_dtor depth (DeclAllocateShared x al args) s
    = Done (Ret tt s1) →
  rtc (step_nested construct_T object_dtor) s1 s2 →
  let a := next_addr s in
  block_trace a (trace s2) =
    EvAllocate al a ::
    (if decide (refs (shared_ptrs s2) a = 0%nat)
     then [EvDestroy a; EvDestructObject a al] else []) ++
    (if decide (refs (shared_ptrs s2) a = 0%nat ∧ refs (weak_ptrs s2) a = 0%nat)
     then [EvDeallocate a al] else []).
Proof.
  intros Hplain Hreach Hfits Hexec Hsteps a.
  apply (reachable_nested_plain _ Hplain) in Hreach.
  apply (exec_nested_plain_inv _ Hplain) in Hexec.
  apply (steps_nested_plain _ Hplain) in Hsteps.
  assert (reachable construct_T s1) as Hreach1 by (by eapply reachable_ret).
  unfold exec, allocateShared in Hexec.
  destruct (shared_ptrs s !! x) eqn:Hx.
  { exfalso. revert Hexec. unfold SharedPtr_ctor_alloc. run_code. discriminate. }
  destruct (construct_T args) as [v|] eqn:Hc.
  2: { by rewrite SharedPtr_ctor_alloc_throw in Hexec. }
  rewrite (SharedPtr_ctor_alloc_eval s x 1 0 al args v) in Hexec by done.
  injection Hexec as <-.
  pose proof (life_begins s x al (ControlBlockWithMakeShared v al) Hreach Hx eq_refl) as Hl.
  destruct (steps_life _ _ _ _ Hreach1 Hl Hsteps) as [_ Ht].
  exact Ht.
Qed.

(** When the managed objects neither hold nor use pointer objects: from
    the construction of a Strong Pointer from the raw pointer [p] and the
    disposer [d] on, the calls made on the block it creates are, in this
    order and once each: its allocation by a default-constructed allocator;
    [destroy()], which gives [p] to [d] unless [p] is null, as soon as no
    Strong Pointer references the block; its deallocation by the
    default-constructed allocator as soon as no Weak Pointer references it
    either. *)
Theorem raw_pointer_block_lifetime
    (object_dtor : nat → list stmt) (depth : nat)
    (s s1 s2 : state) (x : nat) (p : pointer) (d : option Deleter) (al : option Allocator) :
  plain_objects object_dtor →
  reachable_nested construct_T object_dtor s → fits s →
  exec_nested construct_T object_dtor depth (DeclSharedPtr x p d al) s = Done (Ret tt s1) →
  rtc (step_nested construct_T object_dtor) s1 s2 →
  let a := next_addr s in
  block_trace a (trace s2) =
    EvAllocate default_construct a ::
    (if decide (refs (shared_ptrs s2) a = 0%nat)
     then EvDestroy a ::
          (if is_nullptr p then [] else [EvDeleter a (default default_construct d) p])
     else []) ++
    (if decide (refs (shared_ptrs s2) a = 0%nat ∧ refs (weak_ptrs s2) a = 0%nat)
     then [EvDeallocate a default_construct] else []).
Proof.
  intros Hplain Hreach Hfits Hexec Hsteps a.
  apply (reachable_nested_plain _ Hplain) in Hreach.
  apply (exec_nested_plain_inv _ Hplain) in Hexec.
  apply (steps_nested_plain _ Hplain) in Hsteps.
  assert (reachable construct_T s1) as Hreach1 by (by eapply reachable_ret).
  unfold exec in Hexec.
  destruct (shared_ptrs s !! x) eqn:Hx.
  { exfalso. revert Hexec. unfold SharedPtr_ctor_ptr. run_code. discriminate. }
  rewrite SharedPtr_ctor_ptr_eval in Hexec by done. injection Hexec as <-.
  pose proof (life_begins s x default_construct
    (ControlBlockWithoutMakeShared p (default default_construct d) default_construct)
    Hreach Hx eq_refl) as Hl.
  destruct (steps_life _ _ _ _ Hreach1 Hl Hsteps) as [_ Ht].
  exact Ht.
Qed.

(** [get()] of a Strong Pointer that references a block returns, through
    every Strong Pointer that references the block and at every later
    moment, the same pointer; [operator->()] returns it too. *)
Theorem get_is_the_same_for_all_owners_at_all_times (s s' : state) (x y a : nat) :
  reachable construct_T s →
  rtc (step construct_T) s s' →
  shared_ptrs s !! x = Some (Some a) →
  shared_ptrs s' !! y = Some (Some a) →
  ∃ p, SharedPtr_get x s = Ret p s ∧
       SharedPtr_get y s' = Ret p s' ∧
       SharedPtr_arrow y s' = Ret p s'.
Proof.
  intros Hreach Hsteps Hx Hy.
  pose proof (reachable_wf s Hreach) as Hwf.
  pose proof (reachable_wf s' (steps_reachable s s' Hreach Hsteps)) as Hwf'.
  destruct (wf_shared_target s x a Hwf Hx) as (b & Hb & _).
  destruct (wf_shared_target s' y a Hwf' Hy) as (b' & Hb' & _).
  assert (keeps a (derived b) s) as Hk.
  { split; [by destruct (wf_block s a b Hwf Hb)|]. by rewrite Hb. }
  destruct (steps_keeps a (derived b) s s' Hreach Hk Hsteps) as [_ Hk'].
  rewrite Hb' in Hk'.
  exists (block_get a b).
  rewrite (SharedPtr_get_eval s x a b Hx Hb).
  unfold SharedPtr_arrow. rewrite (SharedPtr_get_eval s' y a b' Hy Hb').
  unfold block_get. rewrite Hk'. done.
Qed.

(** After [makeShared] has returned, every Strong Pointer that references
    its block at any later moment can be dereferenced: [operator*()] is
    defined and yields the object inside the block, on which nothing but
    the allocation has been called: the object was not destroyed. *)
Theorem makeShared_object_is_kept
    (s s1 s2 : state) (x y : nat) (args : Args) :
  reachable construct_T s → fits s →
  exec construct_T (DeclMakeShared x args) s = Ret tt s1 →
  rtc (step construct_T) s1 s2 →
  shared_ptrs s2 !! y = Some (Some (next_addr s)) →
  SharedPtr_deref y s2 = Ret (object_of (next_addr s)) s2 ∧
  block_trace (next_addr s) (trace s2) = [EvAllocate default_construct (next_addr s)].
Proof.
  intros Hreach Hfits Hexec Hsteps Hy.
  assert (reachable construct_T s1) as Hreach1 by (by eapply reachable_ret).
  pose proof (reachable_wf s2 (steps_reachable s1 s2 Hreach1 Hsteps)) as Hwf2.
  unfold exec, makeShared, allocateShared in Hexec.
  destruct (shared_ptrs s !! x) eqn:Hx.
  { exfalso. revert Hexec. unfold SharedPtr_ctor_alloc. run_code. discriminate. }
  destruct (construct_T args) as [v|] eqn:Hc.
  2: { by rewrite SharedPtr_ctor_alloc_throw in Hexec. }
  rewrite (SharedPtr_ctor_alloc_eval s x 1 0 _ args v) in Hexec by done.
  injection Hexec as <-.
  pose proof (life_begins s x default_construct
    (ControlBlockWithMakeShared v default_construct) Hreach Hx eq_refl) as Hl.
  destruct (steps_life _ _ _ _ Hreach1 Hl Hsteps) as [[_ Hk] Ht].
  destruct (wf_shared_target s2 y _ Hwf2 Hy) as (b & Hb & _).
  rewrite Hb in Hk.
  split.
  - unfold SharedPtr_deref, mbind, M_bind, bind.
    rewrite (SharedPtr_get_eval s2 y _ b Hy Hb). unfold block_get. by rewrite Hk.
  - rewrite Ht. unfold lifetime_events.
    pose proof (refs_lookup _ _ _ Hy).
    rewrite !decide_False by lia. done.
Qed.

(** ** Statements on live objects are defined *)

Lemma live_true (m : gmap nat (option nat)) l : live m l = true ↔ ∃ c, m !! l = Some c.
Proof. unfold live. destruct (m !! l); split; try done; eauto. by intros [? ?]. Qed.

Lemma live_false (m : gmap nat (option nat)) l : live m l = false ↔ m !! l = None.
Proof. unfold live. by destruct (m !! l). Qed.

Ltac scope_facts :=
  repeat match goal with
  | H : _ && _ = true |- _ => apply andb_true_iff in H; destruct H
  | H : negb _ = true |- _ => apply negb_true_iff in H
  | H : live _ _ = true |- _ => apply live_true in H; destruct H as [? H]
  | H : live _ _ = false |- _ => apply live_false in H
  end.

Lemma SharedPtr_reset_run (s : state) x cx :
  wf s → spare 6 s → shared_ptrs s !! x = Some cx →
  ∃ s', SharedPtr_reset x s = Ret tt s'.
Proof.
  intros Hwf Hsp Hx.
  unfold SharedPtr_reset, sp_fresh, sp_live, mbind, M_bind, bind.
  rewrite Hx. cbv beta iota.
  pose proof (fresh_shared s) as Ht. revert Ht.
  generalize (fresh (dom (shared_ptrs s))). intros t Ht.
  assert (x ≠ t) by congruence.
  rewrite (SharedPtr_ctor_default_eval s t Ht).
  set (s1 := with_shared_ptrs (<[t := None]> (shared_ptrs s)) s).
  assert (quiet s s1) as Q1 by (by apply quiet_sp_default).
  pose proof (quiet_wf _ _ Hwf Q1) as Hwf1.
  pose proof (quiet_spare 5 _ _ Q1 Hsp) as Hsp1.
  destruct (SharedPtr_assign_move_run s1 x t cx None) as (s2 & E2 & T2 & S2 & W2);
    try done.
  { unfold spare in *. lia. }
  { subst s1. state_simpl. by rewrite lookup_insert_ne. }
  { subst s1. state_simpl. apply lookup_insert_eq. }
  rewrite E2.
  pose proof (transfer_wf _ _ _ Hwf1 T2) as Hwf2.
  destruct (sp_dtor_step s2 t None) as (s3 & E3 & _); try done.
  { apply (spare_room 1 s2 ltac:(lia)). apply (spare_stores 1 5 s); [done|].
    rewrite S2, W2. subst s1. state_simpl. size_facts. lia. }
  { rewrite S2. rewrite lookup_insert_ne by done. apply lookup_insert_eq. }
  exists s3. exact E3.
Qed.

Lemma SharedPtr_reset_ptr_run (s : state) x cx p :
  wf s → spare 6 s → shared_ptrs s !! x = Some cx →
  ∃ s', SharedPtr_reset_ptr x p s = Ret tt s'.
Proof.
  intros Hwf Hsp Hx.
  unfold SharedPtr_reset_ptr, sp_fresh, sp_live, mbind, M_bind, bind.
  rewrite Hx. cbv beta iota.
  pose proof (fresh_shared s) as Ht. revert Ht.
  generalize (fresh (dom (shared_ptrs s))). intros t Ht.
  assert (x ≠ t) by congruence.
  rewrite (SharedPtr_ctor_ptr_eval s t p None None Ht).
  match goal with
  | |- ∃ _, match SharedPtr_assign_move _ _ ?st with _ => _ end = _ => set (s1 := st)
  end.
  assert (quiet s s1) as Q1 by (by apply quiet_sp_new).
  pose proof (quiet_wf _ _ Hwf Q1) as Hwf1.
  pose proof (quiet_spare 5 _ _ Q1 Hsp) as Hsp1.
  destruct (SharedPtr_assign_move_run s1 x t cx (Some (next_addr s)))
    as (s2 & E2 & T2 & S2 & W2); try done.
  { unfold spare in *. lia. }
  { subst s1. state_simpl. by rewrite lookup_insert_ne. }
  { subst s1. state_simpl. apply lookup_insert_eq. }
  rewrite E2.
  pose proof (transfer_wf _ _ _ Hwf1 T2) as Hwf2.
  destruct (sp_dtor_step s2 t None) as (s3 & E3 & _); try done.
  { apply (spare_room 1 s2 ltac:(lia)). apply (spare_stores 1 5 s); [done|].
    rewrite S2, W2. subst s1. state_simpl. size_facts. lia. }
  { rewrite S2. rewrite lookup_insert_ne by done. apply lookup_insert_eq. }
  exists s3. exact E3.
Qed.

Lemma WeakPtr_lock_run (s : state) w x cw :
  wf s → room s → weak_ptrs s !! w = Some cw → shared_ptrs s !! x = None →
  ∃ s', WeakPtr_lock w x s = Ret tt s'.
Proof.
  intros Hwf Hroom Hw Hx.
  unfold WeakPtr_lock, WeakPtr_expired, mbind, M_bind, bind, mret, M_ret, ret.
  destruct cw as [a|].
  - destruct (wf_weak_target s w a Hwf Hw) as (b & Ha & Hb).
    rewrite (WeakPtr_use_count_eval s w a b Hw Ha).
    destruct (shared_count b =? 0) eqn:E; cbn [negb].
    + eexists. by apply SharedPtr_ctor_default_eval.
    + unfold wp_get. rewrite Hw.
      destruct (sp_ctor_cb_step s x (Some a)) as (s1 & E1 & _); try done; [|by exists s1].
      intros a' [= <-]. unfold shared_of. rewrite Ha.
      pose proof (wf_count_bounds s a b Hwf Ha). apply Z.eqb_neq in E. lia.
  - rewrite (WeakPtr_use_count_null_eval s w Hw).
    change (negb (0 =? 0)) with false. cbv iota.
    eexists. by apply SharedPtr_ctor_default_eval.
Qed.

Lemma exec_defined (s : state) (c : stmt) :
  wf s → fits s → well_scoped c s = true →
  ∃ s', exec construct_T c s = Ret tt s' ∨ exec construct_T c s = Throw s'.
Proof.
  intros Hwf Hfits Hws. pose proof (fits_spare s Hfits) as Hsp.
  assert (room s) as Hroom by (by apply (spare_room 4)).
  assert (spare 3 s) as Hsp3 by (unfold spare in *; lia).
  assert (spare 6 s) as Hsp6 by (revert Hfits; unfold fits, spare, size_t_modulus; lia).
  assert (∀ o : @outcome T Deleter Allocator unit, (∃ s', o = Ret tt s') → ∃ s', o = Ret tt s' ∨ o = Throw s')
    as Hret by (intros o [s' ->]; eauto).
  destruct c as [x|x y|x y|x p d al|x al args|x args|x y|x y|x y|x|x p|x
                 |w|w v|w x|w v|w v|w v|w x|w|x w];
    cbn [well_scoped] in Hws; scope_facts; unfold exec.
  - (* SharedPtr<T> x; *)
    apply Hret. eexists. by apply SharedPtr_ctor_default_eval.
  - (* SharedPtr<T> x(y); *)
    apply Hret. unfold SharedPtr_ctor_copy, mbind, M_bind, bind, sp_get.
    match goal with Hy : shared_ptrs s !! y = Some ?cy |- _ =>
      rewrite Hy; destruct (sp_ctor_cb_step s x cy) as (s1 & E1 & _); try done;
        [intros a ->; by eapply wf_shared_of|by exists s1]
    end.
  - (* SharedPtr<T> x(std::move(y)); *)
    apply Hret.
    match goal with Hy : shared_ptrs s !! y = Some ?cy |- _ =>
      destruct (sp_ctor_move_step s x y cy) as (s1 & E1 & _); try done; by exists s1
    end.
  - (* SharedPtr<T> x(p, d, al); *)
    apply Hret. eexists. by apply SharedPtr_ctor_ptr_eval.
  - (* auto x = allocateShared<T>(al, args...); *)
    unfold allocateShared. destruct (construct_T args) as [object|] eqn:Hc.
    + eexists. left. by apply SharedPtr_ctor_alloc_eval.
    + eexists. right. by apply SharedPtr_ctor_alloc_throw.
  - (* auto x = makeShared<T>(args...); *)
    unfold makeShared, allocateShared. destruct (construct_T args) as [object|] eqn:Hc.
    + eexists. left. by apply SharedPtr_ctor_alloc_eval.
    + eexists. right. by apply SharedPtr_ctor_alloc_throw.
  - (* x = y; *)
    apply Hret.
    match goal with
    | Hx : shared_ptrs s !! x = Some ?cx, Hy : shared_ptrs s !! y = Some ?cy |- _ =>
      destruct (SharedPtr_assign_copy_run s x y cx cy) as (s1 & E1 & _); try done;
        by exists s1
    end.
  - (* x = std::move(y); *)
    apply Hret.
    match goal with
    | Hx : shared_ptrs s !! x = Some ?cx, Hy : shared_ptrs s !! y = Some ?cy |- _ =>
      destruct (SharedPtr_assign_move_run s x y cx cy) as (s1 & E1 & _); try done;
        by exists s1
    end.
  - (* x.swap(y); *)
    apply Hret.
    match goal with
    | Hx : shared_ptrs s !! x = Some ?cx, Hy : shared_ptrs s !! y = Some ?cy |- _ =>
      destruct (sp_swap_step s x y cx cy) as (s1 & E1 & _); try done; by exists s1
    end.
  - (* x.reset(); *)
    apply Hret. by eapply SharedPtr_reset_run.
  - (* x.reset(p); *)
    apply Hret. by eapply SharedPtr_reset_ptr_run.
  - (* the lifetime of x ends *)
    apply Hret.
    match goal with Hx : shared_ptrs s !! x = Some ?cx |- _ =>
      destruct (sp_dtor_step s x cx) as (s1 & E1 & _); try done; by exists s1
    end.
  - (* WeakPtr<T> w; *)
    apply Hret. eexists. by apply WeakPtr_ctor_default_eval.
  - (* WeakPtr<T> w(v); *)
    apply Hret. unfold WeakPtr_ctor_copy, mbind, M_bind, bind, wp_get.
    match goal with Hv : weak_ptrs s !! v = Some ?cv |- _ =>
      rewrite Hv; destruct (wp_ctor_cb_step s w cv) as (s1 & E1 & _); try done;
        [intros a ->; by eapply wf_is_constructed_weak|by exists s1]
    end.
  - (* WeakPtr<T> w(x); *)
    apply Hret. unfold WeakPtr_ctor_shared, mbind, M_bind, bind, sp_get.
    match goal with Hx : shared_ptrs s !! x = Some ?cx |- _ =>
      rewrite Hx; destruct (wp_ctor_cb_step s w cx) as (s1 & E1 & _); try done;
        [intros a ->; by eapply wf_is_constructed|by exists s1]
    end.
  - (* WeakPtr<T> w(std::move(v)); *)
    apply Hret.
    match goal with Hv : weak_ptrs s !! v = Some ?cv |- _ =>
      destruct (wp_ctor_move_step s w v cv) as (s1 & E1 & _); try done; by exists s1
    end.
  - (* w = v; *)
    apply Hret.
    match goal with
    | Hw : weak_ptrs s !! w = Some ?cw, Hv : weak_ptrs s !! v = Some ?cv |- _ =>
      destruct (WeakPtr_assign_run s w cw cv) as (s1 & E1 & _); try done;
        [intros a ->; by eapply wf_is_constructed_weak|];
      exists s1; rewrite <- E1;
      unfold WeakPtr_assign_copy, WeakPtr_ctor_copy, wp_fresh, wp_live, wp_get,
        mbind, M_bind, bind;
      rewrite Hw; cbv beta iota; by rewrite Hv
    end.
  - (* w = std::move(v); *)
    apply Hret.
    match goal with
    | Hw : weak_ptrs s !! w = Some ?cw, Hv : weak_ptrs s !! v = Some ?cv |- _ =>
      destruct (WeakPtr_assign_run s w cw cv) as (s1 & E1 & _); try done;
        [intros a ->; by eapply wf_is_constructed_weak|];
      exists s1; rewrite <- E1;
      unfold WeakPtr_assign_move, WeakPtr_ctor_copy, wp_fresh, wp_live, wp_get,
        mbind, M_bind, bind;
      rewrite Hw; cbv beta iota; by rewrite Hv
    end.
  - (* w = x; *)
    apply Hret.
    match goal with
    | Hw : weak_ptrs s !! w = Some ?cw, Hx : shared_ptrs s !! x = Some ?cx |- _ =>
      destruct (WeakPtr_assign_run s w cw cx) as (s1 & E1 & _); try done;
        [intros a ->; by eapply wf_is_constructed|];
      exists s1; rewrite <- E1;
      unfold WeakPtr_assign_shared, WeakPtr_ctor_shared, wp_fresh, wp_live, sp_get,
        mbind, M_bind, bind;
      rewrite Hw; cbv beta iota; by rewrite Hx
    end.
  - (* the lifetime of w ends *)
    apply Hret.
    match goal with Hw : weak_ptrs s !! w = Some ?cw |- _ =>
      destruct (wp_dtor_step s w cw) as (s1 & E1 & _); try done; by exists s1
    end.
  - (* SharedPtr<T> x = w.lock(); *)
    apply Hret. by eapply WeakPtr_lock_run.
Qed.

(** A statement on a dead object, or a declaration of a live one, is
    undefined. *)
Lemma exec_out_of_scope (s : state) (c : stmt) :
  well_scoped c s = false → exec construct_T c s = Undefined.
Proof.
  intros Hws.
  destruct c as [x|x y|x y|x p d al|x al args|x args|x y|x y|x y|x|x p|x
                 |w|w v|w x|w v|w v|w v|w x|w|x w];
    cbn [well_scoped] in Hws; unfold live in Hws;
    unfold exec, makeShared, allocateShared, SharedPtr_ctor_alloc,
      SharedPtr_reset, SharedPtr_reset_ptr, SharedPtr_assign_copy, SharedPtr_assign_move,
      SharedPtr_ctor_default, SharedPtr_ctor_copy, SharedPtr_ctor_cb, SharedPtr_ctor_move,
      SharedPtr_ctor_ptr, SharedPtr_swap, SharedPtr_dtor,
      WeakPtr_assign_copy, WeakPtr_assign_move, WeakPtr_assign_shared,
      WeakPtr_lock, WeakPtr_expired, WeakPtr_use_count,
      WeakPtr_ctor_default, WeakPtr_ctor_copy, WeakPtr_ctor_shared, WeakPtr_ctor_cb,
      WeakPtr_ctor_move, WeakPtr_dtor, sp_live, wp_live, sp_fresh, wp_fresh;
    repeat match type of Hws with
    | context [shared_ptrs s !! ?l] => destruct (shared_ptrs s !! l) eqn:?
    | context [weak_ptrs s !! ?l] => destruct (weak_ptrs s !! l) eqn:?
    end;
    try discriminate Hws; run_code; try done.
  (* SharedPtr<T> x = w.lock(); with [x] live *)
  match goal with |- context [match ?c with Some _ => _ | None => _ end s] =>
    destruct c as [a|]
  end.
  - destruct (heap s !! a) as [[|b]|]; try done.
    destruct (shared_count b =? 0); cbn [negb];
      unfold SharedPtr_ctor_cb, SharedPtr_ctor_default; by run_code.
  - change (negb (0 =? 0)) with false. cbv iota.
    unfold SharedPtr_ctor_default. by run_code.
Qed.

(** When the managed objects neither hold nor use pointer objects: in
    every reachable state whose pointer objects fit in memory, a statement
    has undefined behaviour exactly when it uses a Strong or Weak Pointer
    that is not live or declares one that is; otherwise it returns or
    leaves with an exception: no operation of the library reads a dead
    pointer object or a control block that was deallocated or never
    constructed. *)
Theorem undefined_behaviour_only_on_misuse
    (object_dtor : nat → list stmt) (depth : nat) (s : state) (c : stmt) :
  plain_objects object_dtor →
  reachable_nested construct_T object_dtor s → fits s →
  (exec_nested construct_T object_dtor (S depth) c s = Done Undefined
   ↔ well_scoped c s = false) ∧
  (well_scoped c s = true →
   ∃ s', exec_nested construct_T object_dtor (S depth) c s = Done (Ret tt s') ∨
         exec_nested construct_T object_dtor (S depth) c s = Done (Throw s')).
Proof.
  intros Hplain Hreach Hfits.
  apply (reachable_nested_plain _ Hplain) in Hreach.
  rewrite (exec_nested_plain _ Hplain).
  pose proof (reachable_wf s Hreach) as Hwf.
  assert (∀ o o' : @outcome T Deleter Allocator unit, Done o = Done o' ↔ o = o') as Hsome.
  { intros o o'. split; [by intros [= ->]|by intros ->]. }
  rewrite Hsome.
  assert ((∃ s', exec construct_T c s = Ret tt s' ∨ exec construct_T c s = Throw s') →
          ∃ s', Done (exec construct_T c s) = Done (Ret tt s') ∨
                Done (exec construct_T c s) = Done (Throw s')) as Hlift.
  { intros (s' & [-> | ->]); exists s'; auto. }
  split; [split|intros Hws; apply Hlift; revert Hws].
  - intros Hu. destruct (well_scoped c s) eqn:Hws; [|done].
    destruct (exec_defined s c Hwf Hfits Hws) as [s' [E|E]]; congruence.
  - apply exec_out_of_scope.
  - by apply exec_defined.
Qed.


(** ** The destructor and the pointer stores *)

(** What [~SharedPtr()] does to the heap and the trace depends on the
    pointer store only through the [cb] of the object it is called on. *)
Lemma SharedPtr_dtor_store (s : state) l l' (m' : gmap nat (option nat)) :
  m' !! l' = shared_ptrs s !! l →
  SharedPtr_dtor l' (with_shared_ptrs m' s)
  = on_state (λ s', with_shared_ptrs (delete l' m') s') (SharedPtr_dtor l s).
Proof.
  intros Hm. unfold SharedPtr_dtor, cb_destroy, cb_deallocate, on_state. run_code.
  destruct (shared_ptrs s !! l) as [[a|]|]; [|done|done].
  destruct (heap s !! a) as [[|b]|] eqn:Ha; run_code; try done.
  destruct (size_t_wrap (shared_count b - 1) =? 0); run_code; [|done].
  destruct (derived b) as [ptr d al|obj al]; [destruct (is_nullptr ptr)|]; run_code;
    (destruct (weak_count b =? 0); run_code; done).
Qed.

Lemma with_shared_ptrs_id (s : state) : with_shared_ptrs (shared_ptrs s) s = s.
Proof. by destruct s. Qed.

Lemma with_shared_ptrs_twice (s : state) m m' :
  with_shared_ptrs m (with_shared_ptrs m' s) = with_shared_ptrs m s.
Proof. done. Qed.

Lemma SharedPtr_dtor_ret_store (s s' : state) l :
  SharedPtr_dtor l s = Ret tt s' → shared_ptrs s' = delete l (shared_ptrs s).
Proof.
  intros E. pose proof (SharedPtr_dtor_store s l l (shared_ptrs s) eq_refl) as Hs.
  rewrite with_shared_ptrs_id, E in Hs. simpl in Hs. injection Hs as Hs.
  by rewrite Hs.
Qed.

Lemma fresh_after_insert (m : gmap nat (option nat)) t c :
  let n := fresh (dom (<[t := c]> m)) in n ≠ t ∧ m !! n = None.
Proof.
  intros n. assert ((<[t := c]> m) !! n = None) as Hn.
  { apply not_elem_of_dom. apply is_fresh. }
  rewrite lookup_insert in Hn. case_decide; [done|]. split; [congruence|done].
Qed.

(** With [cb_destroy] for [destroy()], [reset()] does what the destructor
    followed by default construction in place does. *)
Lemma SharedPtr_reset_plain (s : state) (x : nat) :
  SharedPtr_reset x s = (SharedPtr_dtor x;; SharedPtr_ctor_default x) s.
Proof.
  unfold SharedPtr_reset, SharedPtr_assign_move, sp_live, sp_fresh, mbind, M_bind, bind.
  destruct (shared_ptrs s !! x) as [cx|] eqn:Hx.
  2: { unfold SharedPtr_dtor. by run_code. }
  cbv beta iota.
  pose proof (fresh_shared s) as Ht. revert Ht.
  generalize (fresh (dom (shared_ptrs s))). intros t Ht.
  assert (x ≠ t) by congruence.
  rewrite (SharedPtr_ctor_default_eval s t Ht). state_simpl.
  rewrite lookup_insert_ne by done. rewrite Hx. cbv beta iota. state_simpl.
  destruct (fresh_after_insert (shared_ptrs s) t None) as [Hnt Hn]. revert Hnt Hn.
  generalize (fresh (dom (<[t := None]> (shared_ptrs s)))). intros n Hnt Hn.
  assert (x ≠ n) by congruence.
  rewrite (SharedPtr_ctor_move_eval _ n t None); state_simpl.
  2: { by rewrite lookup_insert_ne. }
  2: { apply lookup_insert_eq. }
  rewrite (SharedPtr_swap_eval _ x n cx None); state_simpl.
  2: { by rewrite !lookup_insert_ne. }
  2: { rewrite lookup_insert_ne by done. apply lookup_insert_eq. }
  rewrite !with_shared_ptrs_twice.
  rewrite (SharedPtr_dtor_store s x n) by (by rewrite lookup_insert_eq).
  pose proof (SharedPtr_dtor_never_throws x s) as Hnt'.
  destruct (SharedPtr_dtor x s) as [[] s0|s0|] eqn:E; [|by destruct (Hnt' s0)|done].
  pose proof (SharedPtr_dtor_ret_store s s0 x E) as Hs0. simpl.
  rewrite SharedPtr_dtor_null_eval; state_simpl.
  2: { rewrite lookup_delete_ne, lookup_insert_ne, lookup_insert_ne by done.
       apply lookup_insert_eq. }
  rewrite SharedPtr_ctor_default_eval.
  2: { rewrite Hs0. apply lookup_delete_eq. }
  f_equal. apply state_eq; state_simpl; try done.
  rewrite Hs0. apply map_eq. intros i.
  repeat first [rewrite lookup_insert | rewrite lookup_delete];
    repeat case_decide; subst; try done; congruence.
Qed.

(** With [cb_destroy] for [destroy()], move-assignment does what the
    destructor followed by move construction in place does. *)
Lemma SharedPtr_assign_move_plain (s : state) (x y : nat) :
  x ≠ y →
  SharedPtr_assign_move x y s = (SharedPtr_dtor x;; SharedPtr_ctor_move x y) s.
Proof.
  intros Hxy.
  unfold SharedPtr_assign_move, sp_live, sp_fresh, mbind, M_bind, bind.
  destruct (shared_ptrs s !! x) as [cx|] eqn:Hx.
  2: { unfold SharedPtr_dtor. by run_code. }
  cbv beta iota.
  pose proof (fresh_shared s) as Ht. revert Ht.
  generalize (fresh (dom (shared_ptrs s))). intros t Ht.
  assert (x ≠ t) by congruence.
  pose proof (SharedPtr_dtor_never_throws x s) as Hnt.
  destruct (shared_ptrs s !! y) as [cy|] eqn:Hy.
  - assert (y ≠ t) by congruence.
    rewrite (SharedPtr_ctor_move_eval s t y cy Ht Hy).
    rewrite (SharedPtr_swap_eval _ x t cx cy); state_simpl.
    2: { by rewrite !lookup_insert_ne. }
    2: { rewrite lookup_insert_ne by done. apply lookup_insert_eq. }
    rewrite !with_shared_ptrs_twice.
    rewrite (SharedPtr_dtor_store s x t) by (by rewrite lookup_insert_eq).
    destruct (SharedPtr_dtor x s) as [[] s0|s0|] eqn:E; [|by destruct (Hnt s0)|done].
    pose proof (SharedPtr_dtor_ret_store s s0 x E) as Hs0. simpl.
    rewrite (SharedPtr_ctor_move_eval s0 x y cy).
    2: { rewrite Hs0. apply lookup_delete_eq. }
    2: { rewrite Hs0. by rewrite lookup_delete_ne. }
    f_equal. apply state_eq; state_simpl; try done.
    rewrite Hs0. apply map_eq. intros i.
    repeat first [rewrite lookup_insert | rewrite lookup_delete];
      repeat case_decide; subst; try done; congruence.
  - assert (SharedPtr_ctor_move t y s = Undefined) as ->.
    { unfold SharedPtr_ctor_move. by run_code. }
    destruct (SharedPtr_dtor x s) as [[] s0|s0|] eqn:E; [|by destruct (Hnt s0)|done].
    pose proof (SharedPtr_dtor_ret_store s s0 x E) as Hs0.
    unfold SharedPtr_ctor_move, mbind, M_bind, bind, sp_get.
    by rewrite Hs0, lookup_delete_ne, Hy.
Qed.


Ltac map_eq_tac :=
  apply map_eq; intros ?;
  repeat first [rewrite lookup_insert | rewrite lookup_delete];
  repeat case_decide; subst; try done; try congruence.

Lemma set_shared_count_twice v v' (b : BaseControlBlock) :
  set_shared_count v (set_shared_count v' b) = set_shared_count v b.
Proof. done. Qed.

(** With [cb_destroy] for [destroy()], copy-assignment does what the
    destructor followed by copy construction in place does. *)
Lemma SharedPtr_assign_copy_plain (s : state) (x y : nat) :
  reachable construct_T s → fits s → x ≠ y →
  SharedPtr_assign_copy x y s = (SharedPtr_dtor x;; SharedPtr_ctor_copy x y) s.
Proof.
  intros Hreach Hfits Hxy. pose proof (reachable_wf s Hreach) as Hwf.
  pose proof (fits_room s Hfits) as Hroom. unfold room in Hroom.
  unfold SharedPtr_assign_copy, SharedPtr_ctor_copy, sp_live, sp_fresh, sp_get,
    mbind, M_bind, bind.
  destruct (shared_ptrs s !! x) as [cx|] eqn:Hx.
  2: { unfold SharedPtr_dtor. by run_code. }
  cbv beta iota.
  pose proof (fresh_shared s) as Ht. revert Ht.
  generalize (fresh (dom (shared_ptrs s))). intros t Ht.
  assert (x ≠ t) by congruence.
  destruct (shared_ptrs s !! y) as [cy|] eqn:Hy.
  2: { destruct (sp_dtor_step s x cx) as (s0 & E0 & _ & S0 & _); try done.
       rewrite E0, S0, lookup_delete_ne, Hy by done. done. }
  assert (y ≠ t) by congruence.
  destruct cx as [a|], cy as [b0|].
  - (* both reference a block *)
    destruct (wf_shared_target s x a Hwf Hx) as (A & Ha & HA).
    destruct (wf_shared_target s y b0 Hwf Hy) as (B & Hb & HB).
    pose proof (wf_count_bounds s a A Hwf Ha) as (_ & HAw & HAle).
    pose proof (wf_count_bounds s b0 B Hwf Hb) as (_ & HBw & HBle).
    rewrite (SharedPtr_ctor_cb_eval s t b0 B Ht Hb) by lia.
    rewrite (SharedPtr_swap_eval _ x t (Some a) (Some b0)); state_simpl.
    2: { by rewrite lookup_insert_ne. }
    2: { apply lookup_insert_eq. }
    rewrite (SharedPtr_dtor_eval s x a A Hx Ha) by lia.
    destruct (after_shared_release_stores x a A s) as [S0 W0].
    rewrite S0, lookup_delete_ne, Hy by done.
    destruct (decide (a = b0)) as [<-|Hne].
    + (* the same block: it has the two owners [x] and [y] at least *)
      assert (A = B) as <- by congruence.
      destruct (wf_block s a A Hwf Ha) as [_ [HAs _ _ _ _]].
      pose proof (refs_two (shared_ptrs s) x y a Hxy Hx Hy) as Htwo.
      rewrite (SharedPtr_dtor_eval _ t a (set_shared_count (shared_count A + 1) A));
        state_simpl.
      2: { apply lookup_insert_eq. }
      2: { apply lookup_insert_eq. }
      2: { lia. }
      unfold after_shared_release. state_simpl.
      assert ((shared_count A + 1 =? 1) = false) as -> by (apply Z.eqb_neq; lia).
      assert ((shared_count A =? 1) = false) as -> by (apply Z.eqb_neq; lia).
      rewrite (SharedPtr_ctor_cb_eval _ x a (set_shared_count (shared_count A - 1) A));
        state_simpl.
      2: { apply lookup_delete_eq. }
      2: { apply lookup_insert_eq. }
      2: { lia. }
      f_equal. apply state_eq; state_simpl; try done.
      * rewrite !insert_insert_eq, !set_shared_count_twice. do 3 f_equal. lia.
      * map_eq_tac.
    + rewrite (SharedPtr_dtor_eval _ t a A); state_simpl.
      2: { apply lookup_insert_eq. }
      2: { by rewrite lookup_insert_ne. }
      2: { lia. }
      rewrite (SharedPtr_ctor_cb_eval _ x b0 B).
      2: { rewrite S0. apply lookup_delete_eq. }
      2: { unfold after_shared_release.
           destruct (shared_count A =? 1); [destruct (weak_count A =? 0)|]; state_simpl;
             rewrite ?lookup_delete_ne, ?lookup_insert_ne by done; done. }
      2: { lia. }
      unfold after_shared_release. state_simpl.
      destruct (shared_count A =? 1); [destruct (weak_count A =? 0)|]; state_simpl;
        f_equal; apply state_eq; state_simpl; try done; map_eq_tac.
  - (* [y] is empty *)
    destruct (wf_shared_target s x a Hwf Hx) as (A & Ha & HA).
    pose proof (wf_count_bounds s a A Hwf Ha) as (_ & HAw & HAle).
    rewrite (SharedPtr_ctor_cb_null_eval s t Ht).
    rewrite (SharedPtr_swap_eval _ x t (Some a) None); state_simpl.
    2: { by rewrite lookup_insert_ne. }
    2: { apply lookup_insert_eq. }
    rewrite (SharedPtr_dtor_eval s x a A Hx Ha) by lia.
    destruct (after_shared_release_stores x a A s) as [S0 W0].
    rewrite S0, lookup_delete_ne, Hy by done.
    rewrite (SharedPtr_dtor_eval _ t a A); state_simpl.
    2: { apply lookup_insert_eq. }
    2: { done. }
    2: { lia. }
    rewrite SharedPtr_ctor_cb_null_eval.
    2: { rewrite S0. apply lookup_delete_eq. }
    unfold after_shared_release. state_simpl.
    destruct (shared_count A =? 1); [destruct (weak_count A =? 0)|]; state_simpl;
      f_equal; apply state_eq; state_simpl; try done; map_eq_tac.
  - (* [x] is empty *)
    destruct (wf_shared_target s y b0 Hwf Hy) as (B & Hb & HB).
    pose proof (wf_count_bounds s b0 B Hwf Hb) as (_ & HBw & HBle).
    rewrite (SharedPtr_ctor_cb_eval s t b0 B Ht Hb) by lia.
    rewrite (SharedPtr_swap_eval _ x t None (Some b0)); state_simpl.
    2: { by rewrite lookup_insert_ne. }
    2: { apply lookup_insert_eq. }
    rewrite (SharedPtr_dtor_null_eval s x Hx). state_simpl.
    rewrite lookup_delete_ne, Hy by done.
    rewrite SharedPtr_dtor_null_eval; state_simpl.
    2: { apply lookup_insert_eq. }
    rewrite (SharedPtr_ctor_cb_eval _ x b0 B); state_simpl.
    2: { apply lookup_delete_eq. }
    2: { done. }
    2: { lia. }
    f_equal. apply state_eq; state_simpl; try done; map_eq_tac.
  - (* both are empty *)
    rewrite (SharedPtr_ctor_cb_null_eval s t Ht).
    rewrite (SharedPtr_swap_eval _ x t None None); state_simpl.
    2: { by rewrite lookup_insert_ne. }
    2: { apply lookup_insert_eq. }
    rewrite (SharedPtr_dtor_null_eval s x Hx). state_simpl.
    rewrite lookup_delete_ne, Hy by done.
    rewrite SharedPtr_dtor_null_eval; state_simpl.
    2: { apply lookup_insert_eq. }
    rewrite SharedPtr_ctor_cb_null_eval; state_simpl.
    2: { apply lookup_delete_eq. }
    f_equal. apply state_eq; state_simpl; try done; map_eq_tac.
Qed.


(** ** Assignment and reset of Strong Pointers, for plain objects *)

Lemma nested_bind_plain {X} (object_dtor : nat → list stmt) (depth : nat) (x : nat)
    (k : M X) (s : state) :
  plain_objects object_dtor →
  nested_bind (SharedPtr_dtor_nested construct_T object_dtor depth x) (λ _, leaf k) s
  = Done ((SharedPtr_dtor x;; k) s).
Proof.
  intros Hplain. unfold mbind, M_bind.
  apply nested_bind_leaf; [by apply SharedPtr_dtor_nested_plain|done].
Qed.

(** When the managed objects neither hold nor use pointer objects,
    [x.reset()] does what the destructor of [x] followed by the default
    construction of a Strong Pointer in the place of [x] does, in every
    state: it releases the reference of [x] as the destructor would, and
    leaves [x] live and empty; where one is undefined, so is the other. *)
Theorem reset_is_destruction_then_default_construction
    (object_dtor : nat → list stmt) (depth : nat) (s : state) (x : nat) :
  plain_objects object_dtor →
  exec_nested construct_T object_dtor (S depth) (ResetShared x) s =
  nested_bind (SharedPtr_dtor_nested construct_T object_dtor depth x)
              (λ _, leaf (SharedPtr_ctor_default x)) s.
Proof.
  intros Hplain. rewrite (exec_nested_plain _ Hplain), (nested_bind_plain _ _ _ _ _ Hplain).
  f_equal. apply SharedPtr_reset_plain.
Qed.

(** When the managed objects neither hold nor use pointer objects,
    move-assignment [x = std::move(y)] between two different Strong
    Pointers does what the destructor of [x] followed by the move
    construction of a Strong Pointer from [y] in the place of [x] does, in
    every state; where one is undefined, so is the other. *)
Theorem move_assignment_is_destruction_then_move_construction
    (object_dtor : nat → list stmt) (depth : nat) (s : state) (x y : nat) :
  plain_objects object_dtor →
  x ≠ y →
  exec_nested construct_T object_dtor (S depth) (MoveAssignShared x y) s =
  nested_bind (SharedPtr_dtor_nested construct_T object_dtor depth x)
              (λ _, leaf (SharedPtr_ctor_move x y)) s.
Proof.
  intros Hplain Hxy.
  rewrite (exec_nested_plain _ Hplain), (nested_bind_plain _ _ _ _ _ Hplain).
  f_equal. by apply SharedPtr_assign_move_plain.
Qed.

(** When the managed objects neither hold nor use pointer objects: in
    every reachable state whose pointer objects fit in memory,
    copy-assignment [x = y] between two different Strong Pointers does
    what the destructor of [x] followed by the copy construction of a
    Strong Pointer from [y] in the place of [x] does: the same heap, the
    same pointers and the same calls in the same order. *)
Theorem copy_assignment_is_destruction_then_copy_construction
    (object_dtor : nat → list stmt) (depth : nat) (s : state) (x y : nat) :
  plain_objects object_dtor →
  reachable_nested construct_T object_dtor s → fits s → x ≠ y →
  exec_nested construct_T object_dtor (S depth) (AssignShared x y) s =
  nested_bind (SharedPtr_dtor_nested construct_T object_dtor depth x)
              (λ _, leaf (SharedPtr_ctor_copy x y)) s.
Proof.
  intros Hplain Hreach Hfits Hxy.
  apply (reachable_nested_plain _ Hplain) in Hreach.
  rewrite (exec_nested_plain _ Hplain), (nested_bind_plain _ _ _ _ _ Hplain).
  f_equal. by apply SharedPtr_assign_copy_plain.
Qed.

(** ** Swap and move construction *)

(** [x.swap(y)] on two live Strong Pointers exchanges the blocks they
    reference and changes nothing else: no other pointer, no block, no
    count, and it makes no call.  It is the same as [y.swap(x)], and doing
    it twice gives back the state it started from. *)
Theorem swap_exchanges_the_references (s : state) (x y : nat) (cx cy : option nat) :
  shared_ptrs s !! x = Some cx →
  shared_ptrs s !! y = Some cy →
  ∃ s', SharedPtr_swap x y s = Ret tt s' ∧
    SharedPtr_swap y x s = Ret tt s' ∧
    shared_ptrs s' !! x = Some cy ∧
    shared_ptrs s' !! y = Some cx ∧
    (∀ l, l ≠ x → l ≠ y → shared_ptrs s' !! l = shared_ptrs s !! l) ∧
    (∀ a, refs (shared_ptrs s') a = refs (shared_ptrs s) a) ∧
    heap s' = heap s ∧ weak_ptrs s' = weak_ptrs s ∧ trace s' = trace s ∧
    SharedPtr_swap x y s' = Ret tt s.
Proof.
  intros Hx Hy.
  exists (with_shared_ptrs (<[y := cx]> (<[x := cy]> (shared_ptrs s))) s).
  assert ((<[y := cx]> (<[x := cy]> (shared_ptrs s)) : gmap nat (option nat)) !! x = Some cy)
    as Hx'.
  { rewrite lookup_insert. case_decide; [|by rewrite lookup_insert_eq].
    subst. congruence. }
  split; [by apply SharedPtr_swap_eval|].
  split.
  { rewrite (SharedPtr_swap_eval s y x cy cx Hy Hx). f_equal.
    apply state_eq; state_simpl; try done. map_eq_tac. }
  state_simpl. split; [done|]. split; [apply lookup_insert_eq|].
  split; [intros l ? ?; by rewrite !lookup_insert_ne|].
  split; [intros a; by apply refs_swap|].
  do 3 (split; [done|]).
  rewrite (SharedPtr_swap_eval _ x y cy cx); state_simpl;
    [|done|apply lookup_insert_eq].
  f_equal. destruct s as [h n m wk tr]. apply state_eq; state_simpl; try done.
  simpl in Hx, Hy. map_eq_tac.
Qed.

(** Move construction of a Weak Pointer, unlike its move assignment,
    moves: the new pointer references what the source referenced, the
    source is left empty, and no block, no count and no other pointer
    changes. *)
Theorem WeakPtr_move_construction_moves (s : state) (w v : nat) (c : option nat) :
  weak_ptrs s !! w = None →
  weak_ptrs s !! v = Some c →
  ∃ s', WeakPtr_ctor_move w v s = Ret tt s' ∧
    weak_ptrs s' !! w = Some c ∧
    weak_ptrs s' !! v = Some None ∧
    (∀ a, refs (weak_ptrs s') a = refs (weak_ptrs s) a) ∧
    heap s' = heap s ∧ shared_ptrs s' = shared_ptrs s ∧ trace s' = trace s ∧
    WeakPtr_use_count v s' = Ret 0 s' ∧
    WeakPtr_expired v s' = Ret true s'.
Proof.
  intros Hw Hv. assert (w ≠ v) by congruence.
  exists (with_weak_ptrs (<[v := None]> (<[w := c]> (weak_ptrs s))) s).
  split; [by apply WeakPtr_ctor_move_eval|]. state_simpl.
  split; [by rewrite lookup_insert_ne, lookup_insert_eq|].
  split; [apply lookup_insert_eq|].
  split; [intros a; by apply refs_move|].
  do 3 (split; [done|]).
  assert (WeakPtr_use_count v (with_weak_ptrs (<[v := None]> (<[w := c]> (weak_ptrs s))) s)
          = Ret 0 (with_weak_ptrs (<[v := None]> (<[w := c]> (weak_ptrs s))) s)) as Hu.
  { apply WeakPtr_use_count_null_eval. state_simpl. apply lookup_insert_eq. }
  split; [exact Hu|].
  unfold WeakPtr_expired, mbind, M_bind, bind. by rewrite Hu.
Qed.

(** ** Assignment of Weak Pointers *)

Lemma set_weak_count_twice v v' (b : BaseControlBlock) :
  set_weak_count v (set_weak_count v' b) = set_weak_count v b.
Proof. done. Qed.

(** In every reachable state whose pointer objects fit in memory,
    assignment of a Weak Pointer to itself, by copy or by move, returns in
    the state it started in: nothing is deallocated and no count changes,
    also when the pointer is the only reference to a block without Strong
    Pointers. *)
Theorem WeakPtr_self_assignment_changes_nothing (s : state) (w : nat) (cw : option nat) :
  reachable construct_T s → fits s →
  weak_ptrs s !! w = Some cw →
  exec construct_T (AssignWeak w w) s = Ret tt s ∧
  exec construct_T (MoveAssignWeak w w) s = Ret tt s.
Proof.
  intros Hreach Hfits Hw. pose proof (reachable_wf s Hreach) as Hwf.
  pose proof (fits_room s Hfits) as Hroom. unfold room in Hroom.
  assert (WeakPtr_assign_copy w w s = Ret tt s) as Hcopy.
  2: { split; [exact Hcopy|]. exact Hcopy. }
  unfold WeakPtr_assign_copy, WeakPtr_ctor_copy, wp_fresh, wp_live, wp_get,
    mbind, M_bind, bind.
  rewrite Hw. cbv beta iota. rewrite Hw.
  pose proof (fresh_weak s) as Ht. revert Ht.
  generalize (fresh (dom (weak_ptrs s))). intros t Ht.
  assert (w ≠ t) by congruence.
  destruct cw as [a|].
  - destruct (wf_weak_target s w a Hwf Hw) as (b & Ha & Hb).
    pose proof (wf_count_bounds s a b Hwf Ha) as (Hs0 & Hw0 & Hle).
    rewrite (WeakPtr_ctor_cb_eval s t a b Ht Ha) by lia.
    rewrite (WeakPtr_swap_eval _ w t (Some a) (Some a)); state_simpl.
    2: { by rewrite lookup_insert_ne. }
    2: { apply lookup_insert_eq. }
    rewrite (WeakPtr_dtor_eval _ t a (set_weak_count (weak_count b + 1) b));
      state_simpl.
    2: { apply lookup_insert_eq. }
    2: { apply lookup_insert_eq. }
    2: { lia. }
    2: { lia. }
    2: { unfold size_t_modulus in *. lia. }
    unfold after_weak_release. state_simpl.
    assert ((weak_count b + 1 =? 1) = false) as -> by (apply Z.eqb_neq; lia).
    cbn [andb].
    f_equal. apply state_eq; state_simpl; try done.
    + rewrite insert_insert_eq. apply insert_id. rewrite Ha. do 2 f_equal.
      destruct b as [sc wc dv]. unfold set_weak_count. simpl. f_equal. lia.
    + map_eq_tac.
  - rewrite (WeakPtr_ctor_cb_null_eval s t Ht).
    rewrite (WeakPtr_swap_eval _ w t None None); state_simpl.
    2: { by rewrite lookup_insert_ne. }
    2: { apply lookup_insert_eq. }
    rewrite WeakPtr_dtor_null_eval; state_simpl.
    2: { apply lookup_insert_eq. }
    f_equal. apply state_eq; state_simpl; try done. map_eq_tac.
Qed.


(** The body of the assignment operators of [WeakPtr], on a temporary at
    [t], against destruction then construction in place. *)
Lemma WeakPtr_assign_body (s : state) w t cw cv :
  wf s → room s →
  weak_ptrs s !! w = Some cw →
  weak_ptrs s !! t = None →
  (∀ a, cv = Some a → ∃ b, heap s !! a = Some (constructed b) ∧
     (cw = Some a → 2 ≤ shared_count b + weak_count b)) →
  (WeakPtr_ctor_cb t cv;; WeakPtr_swap w t;; WeakPtr_dtor t) s
  = (WeakPtr_dtor w;; WeakPtr_ctor_cb w cv) s.
Proof.
  intros Hwf Hroom Hw Ht Hcv. unfold room in Hroom.
  assert (w ≠ t) by congruence.
  unfold mbind, M_bind, bind.
  destruct cw as [a|], cv as [b0|].
  - destruct (wf_weak_target s w a Hwf Hw) as (A & Ha & HA).
    destruct (Hcv b0 eq_refl) as (B & Hb & Htwo).
    pose proof (wf_count_bounds s a A Hwf Ha) as (HAs & _ & HAle).
    pose proof (wf_count_bounds s b0 B Hwf Hb) as (HBs & HBw & HBle).
    rewrite (WeakPtr_ctor_cb_eval s t b0 B Ht Hb) by lia.
    rewrite (WeakPtr_swap_eval _ w t (Some a) (Some b0)); state_simpl.
    2: { by rewrite lookup_insert_ne. }
    2: { apply lookup_insert_eq. }
    rewrite (WeakPtr_dtor_eval s w a A Hw Ha) by (unfold size_t_modulus in *; lia).
    destruct (after_weak_release_stores w a A s) as [S0 W0].
    destruct (decide (a = b0)) as [<-|Hne].
    + assert (A = B) as <- by congruence. specialize (Htwo eq_refl).
      rewrite (WeakPtr_dtor_eval _ t a (set_weak_count (weak_count A + 1) A));
        state_simpl.
      2: { apply lookup_insert_eq. }
      2: { apply lookup_insert_eq. }
      2: { lia. }
      2: { lia. }
      2: { unfold size_t_modulus in *. lia. }
      unfold after_weak_release. state_simpl.
      assert ((weak_count A + 1 =? 1) = false) as -> by (apply Z.eqb_neq; lia).
      assert ((weak_count A =? 1) && (shared_count A =? 0) = false) as ->.
      { apply andb_false_iff. rewrite !Z.eqb_neq. lia. }
      cbn [andb].
      rewrite (WeakPtr_ctor_cb_eval _ w a (set_weak_count (weak_count A - 1) A));
        state_simpl.
      2: { apply lookup_delete_eq. }
      2: { apply lookup_insert_eq. }
      2: { lia. }
      f_equal. apply state_eq; state_simpl; try done.
      * rewrite !insert_insert_eq, !set_weak_count_twice. do 3 f_equal. lia.
      * map_eq_tac.
    + rewrite (WeakPtr_dtor_eval _ t a A); state_simpl.
      2: { apply lookup_insert_eq. }
      2: { by rewrite lookup_insert_ne. }
      2: { lia. }
      2: { lia. }
      2: { unfold size_t_modulus in *. lia. }
      rewrite (WeakPtr_ctor_cb_eval _ w b0 B).
      2: { rewrite W0. apply lookup_delete_eq. }
      2: { unfold after_weak_release.
           destruct ((weak_count A =? 1) && (shared_count A =? 0)); state_simpl;
             rewrite ?lookup_delete_ne, ?lookup_insert_ne by done; done. }
      2: { lia. }
      unfold after_weak_release. state_simpl.
      destruct ((weak_count A =? 1) && (shared_count A =? 0)); state_simpl;
        f_equal; apply state_eq; state_simpl; try done; map_eq_tac.
  - destruct (wf_weak_target s w a Hwf Hw) as (A & Ha & HA).
    pose proof (wf_count_bounds s a A Hwf Ha) as (HAs & _ & HAle).
    rewrite (WeakPtr_ctor_cb_null_eval s t Ht).
    rewrite (WeakPtr_swap_eval _ w t (Some a) None); state_simpl.
    2: { by rewrite lookup_insert_ne. }
    2: { apply lookup_insert_eq. }
    rewrite (WeakPtr_dtor_eval s w a A Hw Ha) by (unfold size_t_modulus in *; lia).
    destruct (after_weak_release_stores w a A s) as [S0 W0].
    rewrite (WeakPtr_dtor_eval _ t a A); state_simpl.
    2: { apply lookup_insert_eq. }
    2: { done. }
    2: { lia. }
    2: { lia. }
    2: { unfold size_t_modulus in *. lia. }
    rewrite WeakPtr_ctor_cb_null_eval.
    2: { rewrite W0. apply lookup_delete_eq. }
    unfold after_weak_release. state_simpl.
    destruct ((weak_count A =? 1) && (shared_count A =? 0)); state_simpl;
      f_equal; apply state_eq; state_simpl; try done; map_eq_tac.
  - destruct (Hcv b0 eq_refl) as (B & Hb & _).
    pose proof (wf_count_bounds s b0 B Hwf Hb) as (HBs & HBw & HBle).
    rewrite (WeakPtr_ctor_cb_eval s t b0 B Ht Hb) by lia.
    rewrite (WeakPtr_swap_eval _ w t None (Some b0)); state_simpl.
    2: { by rewrite lookup_insert_ne. }
    2: { apply lookup_insert_eq. }
    rewrite (WeakPtr_dtor_null_eval s w Hw).
    rewrite WeakPtr_dtor_null_eval; state_simpl.
    2: { apply lookup_insert_eq. }
    rewrite (WeakPtr_ctor_cb_eval _ w b0 B); state_simpl.
    2: { apply lookup_delete_eq. }
    2: { done. }
    2: { lia. }
    f_equal. apply state_eq; state_simpl; try done; map_eq_tac.
  - rewrite (WeakPtr_ctor_cb_null_eval s t Ht).
    rewrite (WeakPtr_swap_eval _ w t None None); state_simpl.
    2: { by rewrite lookup_insert_ne. }
    2: { apply lookup_insert_eq. }
    rewrite (WeakPtr_dtor_null_eval s w Hw).
    rewrite WeakPtr_dtor_null_eval; state_simpl.
    2: { apply lookup_insert_eq. }
    rewrite WeakPtr_ctor_cb_null_eval; state_simpl.
    2: { apply lookup_delete_eq. }
    f_equal. apply state_eq; state_simpl; try done; map_eq_tac.
Qed.

(** In every reachable state whose pointer objects fit in memory,
    assignment to a Weak Pointer [w], from another Weak Pointer or from a
    Strong Pointer, does what the destructor of [w] followed by the
    construction of a Weak Pointer from the same source in the place of
    [w] does: the same heap, the same pointers, the same calls. *)
Theorem WeakPtr_assignment_is_destruction_then_construction (s : state) (w v x : nat) :
  reachable construct_T s → fits s →
  (w ≠ v →
   WeakPtr_assign_copy w v s = (WeakPtr_dtor w;; WeakPtr_ctor_copy w v) s) ∧
  WeakPtr_assign_shared w x s = (WeakPtr_dtor w;; WeakPtr_ctor_shared w x) s.
Proof.
  intros Hreach Hfits. pose proof (reachable_wf s Hreach) as Hwf.
  pose proof (fits_room s Hfits) as Hroom.
  split.
  - intros Hwv.
    unfold WeakPtr_assign_copy, WeakPtr_ctor_copy, wp_live, wp_fresh, wp_get,
      mbind, M_bind, bind.
    destruct (weak_ptrs s !! w) as [cw|] eqn:Hw.
    2: { unfold WeakPtr_dtor. by run_code. }
    cbv beta iota.
    destruct (wp_dtor_step s w cw Hwf Hroom Hw) as (s0 & E0 & _ & S0 & W0).
    destruct (weak_ptrs s !! v) as [cv|] eqn:Hv.
    2: { rewrite E0, W0, lookup_delete_ne, Hv by done. done. }
    pose proof (WeakPtr_assign_body s w _ cw cv Hwf Hroom Hw (fresh_weak s)) as Hbody.
    unfold mbind, M_bind, bind in Hbody. rewrite Hbody.
    + by rewrite E0, W0, lookup_delete_ne, Hv.
    + intros a ->. destruct (wf_weak_target s v a Hwf Hv) as (B & Hb & HB).
      exists B. split; [done|]. intros ->.
      destruct (wf_block s a B Hwf Hb) as [_ [Hsb Hwb _ _ _]].
      pose proof (refs_two (weak_ptrs s) w v a Hwv Hw Hv). lia.
  - unfold WeakPtr_assign_shared, WeakPtr_ctor_shared, wp_live, wp_fresh, sp_get,
      mbind, M_bind, bind.
    destruct (weak_ptrs s !! w) as [cw|] eqn:Hw.
    2: { unfold WeakPtr_dtor. by run_code. }
    cbv beta iota.
    destruct (wp_dtor_step s w cw Hwf Hroom Hw) as (s0 & E0 & _ & S0 & W0).
    destruct (shared_ptrs s !! x) as [cx|] eqn:Hx.
    2: { rewrite E0, S0, Hx. done. }
    pose proof (WeakPtr_assign_body s w _ cw cx Hwf Hroom Hw (fresh_weak s)) as Hbody.
    unfold mbind, M_bind, bind in Hbody. rewrite Hbody.
    + by rewrite E0, S0, Hx.
    + intros a ->. destruct (wf_shared_target s x a Hwf Hx) as (B & Hb & HB).
      exists B. split; [done|]. intros ->.
      destruct (wf_weak_target s w a Hwf Hw) as (B' & Hb' & HB').
      assert (B' = B) as -> by congruence. lia.
Qed.


(** ** [reset(p)] *)




(** ** What never comes back *)

Lemma quiet_dead a (s s' : state) :
  wf s → quiet s s' →
  (a < next_addr s)%nat → heap s !! a ≠ Some uninitialized →
  refs (shared_ptrs s) a = 0%nat →
  (a < next_addr s')%nat ∧ heap s' !! a ≠ Some uninitialized ∧
  refs (shared_ptrs s') a = 0%nat.
Proof.
  intros Hwf Hq Hlt Hraw Hz. pose proof (quiet_wf s s' Hwf Hq) as Hwf'.
  destruct (quiet_grows a s s' Hwf Hq) as [_ _ _ G4 _ Gn Gd Gf _ _].
  split; [lia|].
  destruct (heap s !! a) as [[|b]|] eqn:Hs; [done| |].
  - destruct G4 as [b' Hb']; [by exists b|]. rewrite Hb'. split; [done|].
    apply Gd; [by exists b|done].
  - rewrite (Gf eq_refl Hlt). split; [done|].
    pose proof (Hwf' a) as C. unfold cell_ok in C. rewrite (Gf eq_refl Hlt) in C.
    by destruct C as [[? ?] _].
Qed.

Lemma released_dead a a0 (s s' : state) :
  released a0 s s' →
  (a < next_addr s)%nat → heap s !! a ≠ Some uninitialized →
  refs (shared_ptrs s) a = 0%nat →
  (a < next_addr s')%nat ∧ heap s' !! a ≠ Some uninitialized ∧
  refs (shared_ptrs s') a = 0%nat.
Proof.
  intros Hr Hlt Hraw Hz.
  destruct (decide (a = a0)) as [<-|Hne].
  - destruct (released_same a s s' Hr) as ((_ & Hs & _) & _ & Hc & Hn & _).
    split; [lia|]. split; [|lia].
    destruct Hc as [[b' Hb']|Hb']; by rewrite Hb'.
  - destruct (released_other a a0 s s' Hr Hne) as (Hh & Hs & _ & Hn & _).
    rewrite Hh, Hs, Hn. done.
Qed.

Lemma steps_dead a (s s' : state) :
  reachable construct_T s → rtc (step construct_T) s s' →
  (a < next_addr s)%nat → heap s !! a ≠ Some uninitialized →
  refs (shared_ptrs s) a = 0%nat →
  refs (shared_ptrs s') a = 0%nat.
Proof.
  assert (∀ s1 s2 : state, rtc quiet s1 s2 → wf s1 →
            (a < next_addr s1)%nat → heap s1 !! a ≠ Some uninitialized →
            refs (shared_ptrs s1) a = 0%nat →
            wf s2 ∧ (a < next_addr s2)%nat ∧ heap s2 !! a ≠ Some uninitialized ∧
            refs (shared_ptrs s2) a = 0%nat) as Hqs.
  { induction 1 as [|s1 s2 s3 H12 _ IH]; [done|]. intros Hwf1 H1 H2 H3.
    destruct (quiet_dead a s1 s2 Hwf1 H12 H1 H2 H3) as (? & ? & ?).
    apply IH; try done. by eapply quiet_wf. }
  intros Hreach Hsteps. revert Hreach.
  induction Hsteps as [|s1 s2 s3 [Hfits [c [Hc|Hc]]] _ IH]; intros Hreach Hlt Hraw Hz;
    [done| |]; pose proof (reachable_wf s1 Hreach) as Hwf.
  - destruct (exec_ret s1 s2 c Hwf Hfits Hc) as (Hsum & _).
    assert ((a < next_addr s2)%nat ∧ heap s2 !! a ≠ Some uninitialized ∧
            refs (shared_ptrs s2) a = 0%nat) as (? & ? & ?).
    { destruct Hsum as [Hq | a0 t1 t2 H1 _ Hr H2].
      - by destruct (Hqs s1 s2 Hq Hwf Hlt Hraw Hz) as (_ & ? & ? & ?).
      - destruct (Hqs s1 t1 H1 Hwf Hlt Hraw Hz) as (Hwf1 & L1 & R1 & Z1).
        destruct (released_dead a a0 t1 t2 Hr L1 R1 Z1) as (L2 & R2 & Z2).
        pose proof (released_wf _ _ _ Hwf1 Hr) as Hwf2.
        by destruct (Hqs t2 s2 H2 Hwf2 L2 R2 Z2) as (_ & ? & ? & ?). }
    apply IH; try done. by eapply reachable_ret.
  - pose proof (exec_throw_quiet s1 s2 c Hc) as Hq.
    destruct (quiet_dead a s1 s2 Hwf Hq Hlt Hraw Hz) as (? & ? & ?).
    apply IH; try done. by eapply reachable_throw.
Qed.

(** A block that has lost its last Strong Pointer never gets one again:
    once [expired()] of a Weak Pointer that references a block is true, at
    every later moment no Strong Pointer references the block, [expired()]
    of every Weak Pointer that references it is true and [lock()] returns
    an empty Strong Pointer. *)
Theorem an_expired_block_stays_expired (s s' : state) (w w' x a : nat) :
  reachable construct_T s →
  rtc (step construct_T) s s' →
  weak_ptrs s !! w = Some (Some a) →
  WeakPtr_expired w s = Ret true s →
  weak_ptrs s' !! w' = Some (Some a) →
  shared_ptrs s' !! x = None →
  refs (shared_ptrs s') a = 0%nat ∧
  WeakPtr_expired w' s' = Ret true s' ∧
  WeakPtr_lock w' x s' = Ret tt (with_shared_ptrs (<[x := None]> (shared_ptrs s')) s').
Proof.
  intros Hreach Hsteps Hw He Hw' Hx.
  pose proof (reachable_wf s Hreach) as Hwf.
  pose proof (reachable_wf s' (steps_reachable s s' Hreach Hsteps)) as Hwf'.
  destruct (wf_weak_target s w a Hwf Hw) as (b & Hb & _).
  destruct (wf_block s a b Hwf Hb) as [Hlt [Hs _ _ _ _]].
  assert (refs (shared_ptrs s) a = 0%nat) as Hz.
  { revert He. unfold WeakPtr_expired, mbind, M_bind, bind, mret, M_ret, ret.
    rewrite (WeakPtr_use_count_eval s w a b Hw Hb).
    intros [= He]. apply Z.eqb_eq in He. lia. }
  assert (refs (shared_ptrs s') a = 0%nat) as Hz'.
  { apply (steps_dead a s s'); try done. by rewrite Hb. }
  destruct (wf_weak_target s' w' a Hwf' Hw') as (b' & Hb' & _).
  destruct (wf_block s' a b' Hwf' Hb') as [_ [Hs' _ _ _ _]].
  assert (WeakPtr_expired w' s' = Ret true s') as He'.
  { unfold WeakPtr_expired, mbind, M_bind, bind, mret, M_ret, ret.
    rewrite (WeakPtr_use_count_eval s' w' a b' Hw' Hb'). rewrite Hs', Hz'. done. }
  split; [done|]. split; [done|].
  unfold WeakPtr_lock, mbind, M_bind, bind. rewrite He'. cbn [negb].
  by apply SharedPtr_ctor_default_eval.
Qed.

Lemma quiet_raw a al (s s' : state) :
  wf s → quiet s s' →
  heap s !! a = Some uninitialized ∧ block_trace a (trace s) = [EvAllocate al a] →
  heap s' !! a = Some uninitialized ∧ block_trace a (trace s') = [EvAllocate al a].
Proof.
  intros Hwf Hq [Hraw Ht].
  destruct (quiet_grows a s s' Hwf Hq) as [_ _ G3 _ _ _ _ _ _ _].
  split; [by apply G3|].
  rewrite (quiet_block_trace a s s' Hq); [done|].
  pose proof (Hwf a) as C. unfold cell_ok in C. rewrite Hraw in C. by destruct C.
Qed.

Lemma released_raw a a0 al (s s' : state) :
  released a0 s s' →
  heap s !! a = Some uninitialized ∧ block_trace a (trace s) = [EvAllocate al a] →
  heap s' !! a = Some uninitialized ∧ block_trace a (trace s') = [EvAllocate al a].
Proof.
  intros Hr [Hraw Ht].
  assert (a ≠ a0) as Hne.
  { intros ->. destruct (released_constructed a0 s s' Hr) as [b Hb]. congruence. }
  destruct (released_other a a0 s s' Hr Hne) as (Hh & _).
  by rewrite Hh, (released_trace_other a a0 s s' Hr Hne).
Qed.

(** The memory that [allocateShared] or [makeShared] has allocated when
    the constructor of the managed object throws is never released: at
    every later moment it is still allocated and raw, no pointer
    references it, and its allocation is the only call that was ever made
    on it. *)
Theorem memory_left_by_a_throwing_constructor_is_never_released
    (s s1 s2 : state) (c : stmt) :
  reachable construct_T s → fits s →
  exec construct_T c s = Throw s1 →
  rtc (step construct_T) s1 s2 →
  ∃ al,
    heap s2 !! next_addr s = Some uninitialized ∧
    block_trace (next_addr s) (trace s2) = [EvAllocate al (next_addr s)] ∧
    refs (shared_ptrs s2) (next_addr s) = 0%nat ∧
    refs (weak_ptrs s2) (next_addr s) = 0%nat.
Proof.
  intros Hreach Hfits Hexec Hsteps.
  assert (reachable construct_T s1) as Hreach1 by (by eapply reachable_throw).
  destruct (exec_throw s s1 c Hexec) as [al Hs1]. exists al.
  assert (heap s1 !! next_addr s = Some uninitialized ∧
          block_trace (next_addr s) (trace s1) = [EvAllocate al (next_addr s)]) as Hraw1.
  { rewrite Hs1. state_simpl. split; [apply lookup_insert_eq|].
    rewrite block_trace_app, (reachable_fresh_trace s) by done.
    apply block_trace_allocate. }
  clear Hs1.
  assert (heap s2 !! next_addr s = Some uninitialized ∧
          block_trace (next_addr s) (trace s2) = [EvAllocate al (next_addr s)]) as [Hh2 Ht2].
  { clear Hexec. revert Hreach1 Hraw1.
    induction Hsteps as [|t1 t2 t3 [Hf [c' [Hc|Hc]]] _ IH]; intros Hreach1 Hraw1; [done| |];
      pose proof (reachable_wf t1 Hreach1) as Hwf1.
    - apply IH; [by eapply reachable_ret|].
      destruct (exec_ret t1 t2 c' Hwf1 Hf Hc) as (Hsum & _).
      assert (∀ u1 u2 : state, rtc quiet u1 u2 → wf u1 →
                heap u1 !! next_addr s = Some uninitialized ∧
                block_trace (next_addr s) (trace u1) = [EvAllocate al (next_addr s)] →
                wf u2 ∧ heap u2 !! next_addr s = Some uninitialized ∧
                block_trace (next_addr s) (trace u2) = [EvAllocate al (next_addr s)]) as Hqs.
      { induction 1 as [|u1 u2 u3 H12 _ IHq]; [done|]. intros Hwfu Hu.
        apply IHq; [by eapply quiet_wf|by eapply quiet_raw]. }
      destruct Hsum as [Hq | a0 u1 u2 H1 _ Hr H2].
      + by destruct (Hqs t1 t2 Hq Hwf1 Hraw1) as (_ & ? & ?).
      + destruct (Hqs t1 u1 H1 Hwf1 Hraw1) as (Hwfu & Hu).
        pose proof (released_raw _ a0 al u1 u2 Hr Hu) as Hu2.
        pose proof (released_wf _ _ _ Hwfu Hr) as Hwf2.
        by destruct (Hqs u2 t2 H2 Hwf2 Hu2) as (_ & ? & ?).
    - apply IH; [by eapply reachable_throw|].
      eapply quiet_raw; [exact Hwf1| |exact Hraw1]. by eapply exec_throw_quiet. }
  split; [done|]. split; [done|].
  pose proof (reachable_wf s2 (steps_reachable s1 s2 Hreach1 Hsteps) (next_addr s)) as C.
  unfold cell_ok in C. rewrite Hh2 in C. by destruct C as (_ & [? ?] & _).
Qed.


(** ** Which operations allocate, and which release *)

Lemma allocations_app (t1 t2 : list event) :
  allocations (t1 ++ t2) = (allocations t1 + allocations t2)%nat.
Proof. apply occurrences_app. Qed.

Lemma bind_silent {X Y} (m : M X) (k : X → M Y) :
  silent m → (∀ x, silent (k x)) → silent (m ≫= k).
Proof.
  intros Hm Hk s y s'. unfold mbind, M_bind, bind.
  destruct (m s) as [x s1| s1 |] eqn:E; [|done|done].
  intros E'. rewrite (Hk x s1 y s' E'). by eapply Hm.
Qed.

Lemma ret_silent {X} (x : X) : silent (mret x : M X).
Proof. intros s y s'. unfold mret, M_ret, ret. by intros [= _ <-]. Qed.

Lemma bind_allocates {X Y} n k (m : M X) (f : X → M Y) :
  allocates n m → (∀ x, allocates k (f x)) → allocates (n + k) (m ≫= f).
Proof.
  intros Hm Hf s y s'. unfold mbind, M_bind, bind.
  destruct (m s) as [x s1| s1 |] eqn:E; [|done|done].
  intros E'. destruct (Hm s x s1 E) as (n1 & T1 & A1).
  destruct (Hf x s1 y s' E') as (n2 & T2 & A2).
  exists (n1 ++ n2). rewrite T2, T1, allocations_app, app_assoc. split; [done|lia].
Qed.

Lemma bind_allocates_0 {X Y} (m : M X) (f : X → M Y) :
  allocates 0 m → (∀ x, allocates 0 (f x)) → allocates 0 (m ≫= f).
Proof. apply (bind_allocates 0 0). Qed.

Lemma silent_allocates {X} (m : M X) : silent m → allocates 0 m.
Proof. intros Hm s x s' E. exists []. rewrite app_nil_r. split; [by eapply Hm|done]. Qed.

Ltac prim_silent :=
  intros s ? s';
  unfold SharedPtr_ctor_default, WeakPtr_ctor_default,
    sp_get, sp_set, sp_begin, sp_end, sp_fresh, sp_live,
    wp_get, wp_set, wp_begin, wp_end, wp_fresh, wp_live,
    load, store, emplace, undefined;
  cbv beta; repeat case_match; try done; by intros [= _ <-].

Ltac silent_tac :=
  repeat first
    [ apply bind_silent; [|intros ?]
    | apply ret_silent
    | progress (repeat case_match)
    | solve [prim_silent] ].

Lemma SharedPtr_ctor_cb_silent this c : silent (SharedPtr_ctor_cb this c : M _).
Proof. unfold SharedPtr_ctor_cb. silent_tac. Qed.

Lemma SharedPtr_ctor_move_silent this other : silent (SharedPtr_ctor_move this other : M _).
Proof. unfold SharedPtr_ctor_move. silent_tac. Qed.

Lemma SharedPtr_swap_silent this other : silent (SharedPtr_swap this other : M _).
Proof. unfold SharedPtr_swap. silent_tac. Qed.

Lemma WeakPtr_ctor_cb_silent this c : silent (WeakPtr_ctor_cb this c : M _).
Proof. unfold WeakPtr_ctor_cb. silent_tac. Qed.

Lemma WeakPtr_ctor_move_silent this other : silent (WeakPtr_ctor_move this other : M _).
Proof. unfold WeakPtr_ctor_move. silent_tac. Qed.

Lemma WeakPtr_swap_silent this other : silent (WeakPtr_swap this other : M _).
Proof. unfold WeakPtr_swap. silent_tac. Qed.

Lemma WeakPtr_use_count_silent this : silent (WeakPtr_use_count this : M _).
Proof. unfold WeakPtr_use_count. silent_tac. Qed.

Lemma WeakPtr_lock_silent this result : silent (WeakPtr_lock this result : M _).
Proof.
  unfold WeakPtr_lock, WeakPtr_expired.
  repeat first
    [ apply ret_silent
    | apply SharedPtr_ctor_cb_silent
    | apply WeakPtr_use_count_silent
    | apply bind_silent; [|intros ?]
    | progress (repeat case_match)
    | solve [prim_silent] ].
Qed.

Lemma emit_allocates (e : event) : is_allocate e = false → allocates 0 (emit e : M _).
Proof.
  intros He s x s'. unfold emit. intros [= _ <-]. exists [e]. split; [done|].
  unfold allocations, occurrences. simpl. by rewrite He.
Qed.

Lemma release_memory_allocates (al : Allocator) a : allocates 0 (release_memory al a : M _).
Proof.
  intros s x s'. unfold release_memory. destruct (heap s !! a); [|done].
  intros [= _ <-]. by exists [EvDeallocate a al].
Qed.

Lemma allocate_allocates (al : Allocator) : allocates 1 (allocate al : M _).
Proof.
  intros s x s'. unfold allocate. intros [= _ <-]. by exists [EvAllocate al (next_addr s)].
Qed.

Ltac allocates_tac :=
  repeat first
    [ apply bind_allocates_0; [|intros ?]
    | apply silent_allocates; solve [silent_tac]
    | apply release_memory_allocates
    | apply emit_allocates; reflexivity
    | progress (repeat case_match) ].

Lemma cb_destroy_allocates a : allocates 0 (cb_destroy a : M _).
Proof. unfold cb_destroy. allocates_tac. Qed.

Lemma cb_deallocate_allocates a : allocates 0 (cb_deallocate a : M _).
Proof. unfold cb_deallocate. allocates_tac. Qed.

Lemma SharedPtr_dtor_allocates this : allocates 0 (SharedPtr_dtor this : M _).
Proof.
  unfold SharedPtr_dtor.
  repeat first
    [ apply cb_destroy_allocates
    | apply cb_deallocate_allocates
    | apply bind_allocates_0; [|intros ?]
    | apply silent_allocates; solve [silent_tac]
    | progress (repeat case_match) ].
Qed.

Lemma WeakPtr_dtor_allocates this : allocates 0 (WeakPtr_dtor this : M _).
Proof.
  unfold WeakPtr_dtor.
  repeat first
    [ apply cb_deallocate_allocates
    | apply silent_allocates; apply WeakPtr_use_count_silent
    | apply bind_allocates_0; [|intros ?]
    | apply silent_allocates; solve [silent_tac]
    | progress (repeat case_match) ].
Qed.

Lemma SharedPtr_assign_move_allocates this other :
  allocates 0 (SharedPtr_assign_move this other : M _).
Proof.
  unfold SharedPtr_assign_move.
  repeat first
    [ apply SharedPtr_dtor_allocates
    | apply silent_allocates; apply SharedPtr_ctor_move_silent
    | apply silent_allocates; apply SharedPtr_swap_silent
    | apply bind_allocates_0; [|intros ?]
    | apply silent_allocates; solve [silent_tac] ].
Qed.

Lemma SharedPtr_ctor_ptr_allocates this p d al :
  allocates 1 (SharedPtr_ctor_ptr this p d al : M _).
Proof.
  unfold SharedPtr_ctor_ptr, ControlBlockWithoutMakeShared_ctor.
  apply (bind_allocates 0 1); [apply silent_allocates; silent_tac|intros ?].
  apply (bind_allocates 1 0); [apply allocate_allocates|intros ?].
  apply silent_allocates. silent_tac.
Qed.

Lemma exec_silent (c : stmt) :
  creates c = false → releases c = false → silent (exec construct_T c).
Proof.
  intros Hc Hr.
  destruct c; try discriminate Hc; try discriminate Hr;
    unfold exec, SharedPtr_ctor_copy, WeakPtr_ctor_copy, WeakPtr_ctor_shared;
    repeat first
      [ apply ret_silent
      | apply SharedPtr_ctor_cb_silent
      | apply SharedPtr_ctor_move_silent
      | apply SharedPtr_swap_silent
      | apply WeakPtr_ctor_cb_silent
      | apply WeakPtr_ctor_move_silent
      | apply WeakPtr_lock_silent
      | apply bind_silent; [|intros ?]
      | solve [prim_silent] ].
Qed.

Lemma exec_releasing_allocates (c : stmt) :
  releases c = true → allocates (if creates c then 1%nat else 0%nat) (exec construct_T c).
Proof.
  intros Hr.
  destruct c; try discriminate Hr; cbn [creates];
    unfold exec, SharedPtr_assign_copy, SharedPtr_ctor_copy, SharedPtr_reset,
      SharedPtr_reset_ptr, WeakPtr_assign_copy, WeakPtr_assign_move, WeakPtr_assign_shared,
      WeakPtr_ctor_copy, WeakPtr_ctor_shared;
    try (apply (bind_allocates 0 1); [apply silent_allocates; silent_tac|intros ?];
         apply (bind_allocates 0 1); [apply silent_allocates; silent_tac|intros ?];
         apply (bind_allocates 1 0); [apply SharedPtr_ctor_ptr_allocates|intros ?]);
    repeat first
      [ apply SharedPtr_dtor_allocates
      | apply WeakPtr_dtor_allocates
      | apply SharedPtr_assign_move_allocates
      | apply silent_allocates; apply SharedPtr_ctor_cb_silent
      | apply silent_allocates; apply SharedPtr_swap_silent
      | apply silent_allocates; apply WeakPtr_ctor_cb_silent
      | apply silent_allocates; apply WeakPtr_swap_silent
      | apply bind_allocates_0; [|intros ?]
      | apply silent_allocates; solve [silent_tac] ].
Qed.

(** Whatever the state: the construction of a Strong Pointer from a raw
    pointer, [reset(p)], [allocateShared] and [makeShared] call the
    allocator's [allocate] exactly once, also when the constructor of the
    managed object throws, and no other operation ever calls it.
    Moreover construction, swap and [lock()] make no other call: they
    never call [destroy()], a disposer, a destructor or [deallocate()]. *)
Theorem only_constructions_allocate (s s' : state) (c : stmt) :
  exec construct_T c s = Ret tt s' ∨ exec construct_T c s = Throw s' →
  ∃ new, trace s' = trace s ++ new ∧
    allocations new = (if creates c then 1%nat else 0%nat) ∧
    (releases c = false → length new = allocations new).
Proof.
  intros [E|E].
  2: { destruct (exec_throw s s' c E) as [al ->].
       exists [EvAllocate al (next_addr s)]. split; [done|].
       destruct c; try (exfalso; eapply exec_never_throws; [| |exact E]; done); done. }
  destruct (releases c) eqn:Hr.
  { destruct (exec_releasing_allocates c Hr s tt s' E) as (new & Ht & Ha).
    exists new. by repeat split. }
  destruct (creates c) eqn:Hc.
  2: { exists []. rewrite app_nil_r. split; [|done].
       by apply (exec_silent c Hc Hr s tt s'). }
  destruct c; try discriminate Hc; try discriminate Hr; unfold exec in E.
  - (* SharedPtr<T> x(p, d, al); *)
    destruct (shared_ptrs s !! x) eqn:Hx.
    { exfalso. revert E. unfold SharedPtr_ctor_ptr. run_code. discriminate. }
    rewrite SharedPtr_ctor_ptr_eval in E by done. injection E as <-.
    by eexists.
  - (* auto x = allocateShared<T>(al, args...); *)
    unfold allocateShared in E.
    destruct (shared_ptrs s !! x) eqn:Hx.
    { exfalso. revert E. unfold SharedPtr_ctor_alloc. run_code. discriminate. }
    destruct (construct_T args) as [v|] eqn:Hv.
    2: { by rewrite SharedPtr_ctor_alloc_throw in E. }
    rewrite (SharedPtr_ctor_alloc_eval s x 1 0 al args v) in E by done.
    injection E as <-. by eexists.
  - (* auto x = makeShared<T>(args...); *)
    unfold makeShared, allocateShared in E.
    destruct (shared_ptrs s !! x) eqn:Hx.
    { exfalso. revert E. unfold SharedPtr_ctor_alloc. run_code. discriminate. }
    destruct (construct_T args) as [v|] eqn:Hv.
    2: { by rewrite SharedPtr_ctor_alloc_throw in E. }
    rewrite (SharedPtr_ctor_alloc_eval s x 1 0 _ args v) in E by done.
    injection E as <-. by eexists.
Qed.

End Proofs.

(** * The claims on concrete programs *)

Lemma state_after_reachable (p : list (@stmt Z nat nat)) (s : @state Z nat nat) :
  run_fitting construct_Z p initial_state = Some s → reachable construct_Z s.
Proof. apply run_fitting_reachable. apply reachable_initial. Qed.

Lemma int_objects_are_plain : plain_objects int_dtor.
Proof. intros a. reflexivity. Qed.

Lemma state_after_reachable_nested (p : list (@stmt Z nat nat)) (s : @state Z nat nat) :
  run_fitting construct_Z p initial_state = Some s →
  reachable_nested construct_Z int_dtor s.
Proof.
  intros Hrun. apply reachable_plain_nested; [exact int_objects_are_plain|].
  by apply (state_after_reachable p).
Qed.

(** [auto p = makeShared<Node>(42); p->self = p;] and then the end of [p]:
    the state is one that the program reaches, and the destructor of [p]
    reads the block that [destroy()] has freed. *)
Lemma C1_witness :
  let s := state_after self_observer in
  let b := mkBlock 1 1 (ControlBlockWithMakeShared 42 0%nat) in
  reachable_nested construct_Z Node_dtor s ∧ fits s ∧
  shared_ptrs s !! 0%nat = Some (Some 0%nat) ∧
  weak_ptrs s !! 0%nat = Some (Some 0%nat) ∧
  heap s !! 0%nat = Some (constructed b) ∧
  shared_count b = 1 ∧ weak_count b = 1 ∧
  is_nullptr (block_get 0%nat b) = false ∧
  Node_dtor 0%nat = [DestroyWeak 0%nat] ∧
  let s0 := with_heap (<[0%nat := constructed (set_shared_count 0 b)]> (heap s)) s in
  ∃ s1,
    cb_destroy_nested construct_Z Node_dtor 1 0%nat s0 = Done (Ret tt s1) ∧
    trace s1 = trace s ++ destroy_events 0%nat b ++ [EvDeallocate 0%nat (block_alloc b)] ∧
    heap s1 !! 0%nat = None ∧
    load 0%nat s1 = Undefined ∧
    cb_deallocate 0%nat s1 = Undefined ∧
    exec_nested construct_Z Node_dtor 2 (DestroyShared 0%nat) s = Done Undefined.
Proof.
  intros s b.
  assert (reachable_nested construct_Z Node_dtor s) as Hr.
  { apply (run_fitting_nested_reachable construct_Z Node_dtor 1 self_observer initial_state);
      [apply reachable_nested_initial|]. vm_compute. reflexivity. }
  assert (fits s) as Hf by (vm_compute; reflexivity).
  assert (shared_ptrs s !! 0%nat = Some (Some 0%nat)) as Hx by (vm_compute; reflexivity).
  assert (weak_ptrs s !! 0%nat = Some (Some 0%nat)) as Hw by (vm_compute; reflexivity).
  assert (heap s !! 0%nat = Some (constructed b)) as Ha by (vm_compute; reflexivity).
  assert (shared_count b = 1) as Hs by reflexivity.
  assert (weak_count b = 1) as Hk by reflexivity.
  assert (is_nullptr (block_get 0%nat b) = false) as Hp by reflexivity.
  assert (Node_dtor 0%nat = [DestroyWeak 0%nat]) as Hd by reflexivity.
  split; [exact Hr|]. split; [exact Hf|]. split; [exact Hx|]. split; [exact Hw|].
  split; [exact Ha|]. split; [exact Hs|]. split; [exact Hk|]. split; [exact Hp|].
  split; [exact Hd|].
  exact (C1_the_weak_count_is_read_after_the_block_was_freed
           construct_Z Node_dtor 0%nat s 0%nat 0%nat 0%nat b Hx Hw Ha Hs Hk Hp Hd).
Defined.

(** The calls on the block of the node when [destroy()] returns. *)
Example self_observer_calls :
  let s := state_after self_observer in
  let b := mkBlock 0 1 (ControlBlockWithMakeShared 42 0%nat) in
  cb_destroy_nested construct_Z Node_dtor 1 0%nat
    (with_heap (<[0%nat := constructed b]> (heap s)) s)
  = Done (Ret tt (mkState ∅ 1%nat (shared_ptrs s) ∅
                    [EvAllocate 0%nat 0%nat; EvDestroy 0%nat;
                     EvDestructObject 0%nat 0%nat; EvDeallocate 0%nat 0%nat])).
Proof. vm_compute. reflexivity. Qed.

(** A child that holds a Weak Pointer to its parent: the destructor of the
    last Strong Pointer to the parent destroys the parent, the parent its
    Strong Pointer to the child, the child its Weak Pointer to the parent,
    which deallocates the block of the parent; the destructor then reads
    that block. *)
Example parent_and_child_destruction_is_undefined :
  let s := state_after parent_and_child in
  run_fitting_nested construct_Z family_dtor 1 parent_and_child initial_state = Some s ∧
  shared_of s 0%nat = 1 ∧ weak_of s 0%nat = 1 ∧
  exec_nested construct_Z family_dtor 3 (DestroyShared 0%nat) s = Done Undefined.
Proof. vm_compute. done. Qed.

(** Objects that own one another without a pointer back are destroyed in
    turn, each block once. *)
Example items_are_destroyed_in_turn :
  let s := state_after two_items in
  ∃ s', exec_nested construct_Z Item_dtor 3 (DestroyShared 0%nat) s = Done (Ret tt s') ∧
        heap s' = ∅ ∧
        trace s' = [EvAllocate 0%nat 0%nat; EvAllocate 0%nat 1%nat;
                    EvDestroy 0%nat; EvDestructObject 0%nat 0%nat;
                    EvDestroy 1%nat; EvDestructObject 1%nat 0%nat;
                    EvDeallocate 1%nat 0%nat; EvDeallocate 0%nat 0%nat].
Proof. eexists. vm_compute. done. Qed.

(** [x = x->next]: the assignment copies [next] before the temporary
    releases the first item, and leaves [x] the only owner of the second;
    the destructor of [x] followed by copy construction from [next] copies
    from a destroyed object. *)
Example assignment_from_inside_the_released_object :
  let s := state_after two_items in
  (∃ s', exec_nested construct_Z Item_dtor 3 (AssignShared 0%nat 1%nat) s = Done (Ret tt s') ∧
         shared_ptrs s' !! 0%nat = Some (Some 1%nat) ∧
         shared_of s' 1%nat = 1 ∧ heap s' !! 0%nat = None) ∧
  nested_bind (SharedPtr_dtor_nested construct_Z Item_dtor 2 0%nat)
              (λ _, leaf (SharedPtr_ctor_copy 0%nat 1%nat)) s = Done Undefined.
Proof. split; [eexists|]; vm_compute; done. Qed.

Lemma C2_witness :
  let s := state_after two_owners in
  reachable construct_Z s ∧
  shared_ptrs s !! 1%nat = Some (Some 0%nat) ∧
  SharedPtr_use_count 1%nat s = Ret (Z.of_nat (refs (shared_ptrs s) 0%nat)) s.
Proof.
  intros s.
  assert (reachable construct_Z s) as Hr.
  { apply (state_after_reachable two_owners). vm_compute. reflexivity. }
  assert (shared_ptrs s !! 1%nat = Some (Some 0%nat)) as Hx by (vm_compute; reflexivity).
  split; [exact Hr|]. split; [exact Hx|].
  exact (C2_use_count_is_the_number_of_live_owners construct_Z s 1%nat 0%nat Hr Hx).
Defined.

(** Two owners: [use_count()] is 2. *)
Example two_owners_use_count :
  SharedPtr_use_count 1%nat (state_after two_owners) = Ret 2 (state_after two_owners).
Proof. vm_compute. reflexivity. Qed.

(** The constructor of the managed object throws: the exception leaves
    [makeShared] while the block's memory is still allocated, and nothing in
    the trace releases it. *)
Lemma C3_counterexample :
  construct_Z (-1) = None ∧
  makeShared construct_Z 0%nat (-1) (initial_state : @state Z nat nat) =
    Throw (mkState {[0%nat := uninitialized]} 1%nat ∅ ∅ [EvAllocate 0%nat 0%nat]).
Proof. split; vm_compute; reflexivity. Qed.

Lemma C3_witness :
  shared_ptrs (initial_state : @state Z nat nat) !! 0%nat = None ∧
  allocateShared construct_Z 0%nat 5%nat (-1) (initial_state : @state Z nat nat) =
    Throw (mkState (<[0%nat := uninitialized]> ∅) 1%nat ∅ ∅ [EvAllocate 5%nat 0%nat]).
Proof.
  assert (shared_ptrs (initial_state : @state Z nat nat) !! 0%nat = None) as Hx
    by reflexivity.
  split; [exact Hx|].
  exact (proj1 (C3_a_throwing_constructor_leaves_the_block_allocated
                  construct_Z initial_state 0%nat 5%nat (-1) Hx)).
Defined.

(** Allocator 9 is given, the block records allocator 0, the
    default-constructed one. *)
Lemma C4_counterexample :
  SharedPtr_ctor_ptr 0%nat (at_address 7) (Some 3%nat) (Some 9%nat)
    (initial_state : @state Z nat nat) =
    Ret tt (mkState
              {[0%nat := constructed
                  (mkBlock 1 0 (ControlBlockWithoutMakeShared (at_address 7) 3%nat 0%nat))]}
              1%nat {[0%nat := Some 0%nat]} ∅ [EvAllocate 0%nat 0%nat]) ∧
  block_alloc (mkBlock (T:=Z) 1 0 (ControlBlockWithoutMakeShared (at_address 7) 3%nat 0%nat))
    ≠ 9%nat.
Proof. split; [vm_compute; reflexivity | discriminate]. Qed.

Lemma C4_witness :
  shared_ptrs (initial_state : @state Z nat nat) !! 0%nat = None ∧
  SharedPtr_ctor_ptr 0%nat (at_address 7) (Some 3%nat) (Some 9%nat)
    (initial_state : @state Z nat nat) =
    Ret tt (mkState
              (<[0%nat := constructed
                   (mkBlock 1 0 (ControlBlockWithoutMakeShared (at_address 7) 3%nat 0%nat))]> ∅)
              1%nat (<[0%nat := Some 0%nat]> ∅) ∅ [EvAllocate 0%nat 0%nat]).
Proof.
  assert (shared_ptrs (initial_state : @state Z nat nat) !! 0%nat = None) as Hx
    by reflexivity.
  split; [exact Hx|].
  exact (C4_raw_pointer_constructor_ignores_the_allocator
           initial_state 0%nat (at_address 7) (Some 3%nat) (Some 9%nat) Hx).
Defined.

Lemma C5_witness :
  let s := state_after owner_and_observers in
  reachable construct_Z s ∧ fits s ∧
  weak_ptrs s !! 0%nat = Some (Some 0%nat) ∧
  shared_ptrs s !! 5%nat = None ∧
  ∃ u, WeakPtr_use_count 0%nat s = Ret u s ∧ 0 ≤ u ∧
    if 0 <? u then
      ∃ a b, Some 0%nat = Some a ∧ heap s !! a = Some (constructed b) ∧
        u = shared_count b ∧
        let s' := mkState
                    (<[a := constructed (set_shared_count (shared_count b + 1) b)]> (heap s))
                    (next_addr s) (<[5%nat := Some a]> (shared_ptrs s))
                    (weak_ptrs s) (trace s) in
        WeakPtr_lock 0%nat 5%nat s = Ret tt s' ∧
        SharedPtr_use_count 5%nat s' = Ret (u + 1) s' ∧
        SharedPtr_get 5%nat s' = Ret (block_get a b) s' ∧
        cb_get a s = Ret (block_get a b) s
    else
      WeakPtr_lock 0%nat 5%nat s
      = Ret tt (with_shared_ptrs (<[5%nat := None]> (shared_ptrs s)) s).
Proof.
  intros s.
  assert (reachable construct_Z s) as Hr.
  { apply (state_after_reachable owner_and_observers). vm_compute. reflexivity. }
  assert (fits s) as Hf by (vm_compute; reflexivity).
  assert (weak_ptrs s !! 0%nat = Some (Some 0%nat)) as Hw by (vm_compute; reflexivity).
  assert (shared_ptrs s !! 5%nat = None) as Hx by (vm_compute; reflexivity).
  split; [exact Hr|]. split; [exact Hf|]. split; [exact Hw|]. split; [exact Hx|].
  exact (C5_lock_shares_the_block_or_returns_empty
           construct_Z s 0%nat 5%nat (Some 0%nat) Hr Hf Hw Hx).
Defined.

(** Locking while one owner is alive: the result shares block 0, whose
    [shared_count] becomes 2. *)
Example lock_with_one_owner :
  SharedPtr_use_count 5%nat
    (state_after (owner_and_observers ++ [DeclLock 5%nat 0%nat])) =
  Ret 2 (state_after (owner_and_observers ++ [DeclLock 5%nat 0%nat])).
Proof. vm_compute. reflexivity. Qed.



(** The raw pointer at address 7 is adopted with disposer 3; after all
    Strong and Weak Pointers are gone the disposer has run once, on it. *)
Lemma C7_witness :
  let s : @state Z nat nat := initial_state in
  let s1 := state_after adopted in
  let s2 := state_after (adopted ++ share_then_release_all) in
  reachable construct_Z s ∧ fits s ∧
  exec construct_Z (DeclSharedPtr 0%nat (at_address 7) (Some 3%nat) (Some 9%nat)) s
    = Ret tt s1 ∧
  rtc (step construct_Z) s1 s2 ∧
  refs (shared_ptrs s2) (next_addr s) = 0%nat ∧
  refs (weak_ptrs s2) (next_addr s) = 0%nat ∧
  deleter_calls (next_addr s) (trace s2) =
    if is_nullptr (at_address 7) then []
    else [(default default_construct (Some 3%nat), at_address 7)].
Proof.
  intros s s1 s2.
  assert (reachable construct_Z s) as Hr by apply reachable_initial.
  assert (fits s) as Hf by (vm_compute; reflexivity).
  assert (exec construct_Z
            (DeclSharedPtr 0%nat (at_address 7) (Some 3%nat) (Some 9%nat)) s = Ret tt s1)
    as He by (vm_compute; reflexivity).
  assert (rtc (step construct_Z) s1 s2) as Hs.
  { apply (run_fitting_steps construct_Z share_then_release_all).
    vm_compute. reflexivity. }
  assert (refs (shared_ptrs s2) (next_addr s) = 0%nat) as H1 by (vm_compute; reflexivity).
  assert (refs (weak_ptrs s2) (next_addr s) = 0%nat) as H2 by (vm_compute; reflexivity).
  split; [exact Hr|]. split; [exact Hf|]. split; [exact He|]. split; [exact Hs|].
  split; [exact H1|]. split; [exact H2|].
  exact (C7_the_disposer_runs_once_on_the_raw_pointer
           construct_Z s s1 s2 0%nat (at_address 7) (Some 3%nat) (Some 9%nat)
           Hr Hf He Hs H1 H2).
Defined.

Example disposer_ran_once :
  deleter_calls 0%nat (trace (state_after (adopted ++ share_then_release_all)))
  = [(3%nat, at_address 7)].
Proof. vm_compute. reflexivity. Qed.

Lemma C8_witness :
  shared_ptrs (initial_state : @state Z nat nat) !! 0%nat = None ∧
  construct_Z 42 = Some 42 ∧
  ∃ (s' : @state Z nat nat) p,
    makeShared construct_Z 0%nat 42 initial_state = Ret tt s' ∧
    SharedPtr_get 0%nat s' = Ret p s' ∧
    p ≠ nullptr ∧
    pointee s' p = Some 42.
Proof.
  assert (shared_ptrs (initial_state : @state Z nat nat) !! 0%nat = None) as Hx
    by reflexivity.
  assert (construct_Z 42 = Some 42) as Hc by reflexivity.
  split; [exact Hx|]. split; [exact Hc|].
  exact (C8_makeShared_then_get_points_to_the_constructed_value
           construct_Z initial_state 0%nat 42 42 Hx Hc).
Defined.

Lemma C9_witness :
  let s := state_after owner_and_observers in
  reachable construct_Z s ∧ fits s ∧
  weak_ptrs s !! 0%nat = Some (Some 0%nat) ∧
  weak_ptrs s !! 1%nat = Some None ∧
  ∃ s', exec construct_Z (MoveAssignWeak 1%nat 0%nat) s = Ret tt s' ∧
    exec construct_Z (AssignWeak 1%nat 0%nat) s = Ret tt s' ∧
    weak_ptrs s' !! 0%nat = Some (Some 0%nat) ∧
    weak_ptrs s' !! 1%nat = Some (Some 0%nat) ∧
    weak_of s' 0%nat = Z.of_nat (refs (weak_ptrs s') 0%nat) ∧
    (0%nat ≠ 1%nat → 2 ≤ weak_of s' 0%nat).
Proof.
  intros s.
  assert (reachable construct_Z s) as Hr.
  { apply (state_after_reachable owner_and_observers). vm_compute. reflexivity. }
  assert (fits s) as Hf by (vm_compute; reflexivity).
  assert (weak_ptrs s !! 0%nat = Some (Some 0%nat)) as H1 by (vm_compute; reflexivity).
  assert (weak_ptrs s !! 1%nat = Some None) as H2 by (vm_compute; reflexivity).
  split; [exact Hr|]. split; [exact Hf|]. split; [exact H1|]. split; [exact H2|].
  exact (C9_weak_move_assignment_is_a_copy
           construct_Z s 0%nat 1%nat 0%nat None Hr Hf H1 H2).
Defined.

(** After [v = std::move(w)] both Weak Pointers reference block 0, whose
    [weak_count] is 2. *)
Example weak_move_assignment_counts_both :
  let s' := state_after (owner_and_observers ++ [MoveAssignWeak 1%nat 0%nat]) in
  weak_ptrs s' !! 0%nat = Some (Some 0%nat) ∧
  weak_ptrs s' !! 1%nat = Some (Some 0%nat) ∧
  weak_of s' 0%nat = 2.
Proof. repeat split; vm_compute; reflexivity. Qed.

Lemma C10_witness :
  let s := state_after two_owners in
  reachable construct_Z s ∧ fits s ∧
  shared_ptrs s !! 0%nat = Some (Some 0%nat) ∧
  exec construct_Z (AssignShared 0%nat 0%nat) s = Ret tt s.
Proof.
  intros s.
  assert (reachable construct_Z s) as Hr.
  { apply (state_after_reachable two_owners). vm_compute. reflexivity. }
  assert (fits s) as Hf by (vm_compute; reflexivity).
  assert (shared_ptrs s !! 0%nat = Some (Some 0%nat)) as Hx by (vm_compute; reflexivity).
  split; [exact Hr|]. split; [exact Hf|]. split; [exact Hx|].
  exact (C10_self_copy_assignment_changes_nothing
           construct_Z s 0%nat (Some 0%nat) Hr Hf Hx).
Defined.

(** The scenario of the specification: [a = makeShared<int>(42)], [b = a],
    [a] ends, [w] observes [b], [b] ends: [w] is expired, [lock()] returns
    an empty pointer, and the block is still allocated for [w]. *)
Example specification_scenario :
  let s := state_after
             [DeclMakeShared 0%nat 42; DeclSharedCopy 1%nat 0%nat; DestroyShared 0%nat;
              DeclWeakShared 0%nat 1%nat; DestroyShared 1%nat; DeclLock 2%nat 0%nat] in
  WeakPtr_expired 0%nat s = Ret true s ∧
  SharedPtr_get 2%nat s = Ret nullptr s ∧
  is_Some (heap s !! 0%nat) ∧
  destroy_calls 0%nat (trace s) = 1%nat ∧
  deallocate_calls 0%nat (trace s) = 0%nat.
Proof. repeat split; try (vm_compute; reflexivity). by eexists. Qed.

(** * Further properties on concrete programs *)

(** The last owner of an [int] is destroyed: one [destroy()], one
    [deallocate()]. *)
Lemma destroy_and_deallocate_follow_count_transitions_witness :
  let s := state_after single_owner in
  let s' := state_after (single_owner ++ [DestroyShared 0%nat]) in
  plain_objects int_dtor ∧
  reachable_nested construct_Z int_dtor s ∧ fits s ∧
  exec_nested construct_Z int_dtor 1 (DestroyShared 0%nat) s = Done (Ret tt s') ∧
  ∃ new, trace s' = trace s ++ new ∧
    destroy_calls 0%nat new =
      (if decide (shared_of s 0%nat = 1 ∧ shared_of s' 0%nat = 0) then 1%nat else 0%nat) ∧
    deallocate_calls 0%nat new =
      (if decide ((shared_of s 0%nat = 1 ∧ shared_of s' 0%nat = 0 ∧ weak_of s 0%nat = 0) ∨
                  (weak_of s 0%nat = 1 ∧ weak_of s' 0%nat = 0 ∧ shared_of s 0%nat = 0))
       then 1%nat else 0%nat) ∧
    (destroy_calls 0%nat (trace s') ≤ 1)%nat ∧
    (deallocate_calls 0%nat (trace s') ≤ 1)%nat.
Proof.
  intros s s'.
  assert (reachable_nested construct_Z int_dtor s) as Hr.
  { apply (state_after_reachable_nested single_owner). vm_compute. reflexivity. }
  assert (fits s) as Hf by (vm_compute; reflexivity).
  assert (exec_nested construct_Z int_dtor 1 (DestroyShared 0%nat) s = Done (Ret tt s'))
    as He by (vm_compute; reflexivity).
  split; [exact int_objects_are_plain|].
  split; [exact Hr|]. split; [exact Hf|]. split; [exact He|].
  exact (destroy_and_deallocate_follow_count_transitions
           construct_Z int_dtor 1%nat s s' (DestroyShared 0%nat) 0%nat
           int_objects_are_plain Hr Hf He).
Defined.

(** With an observer left, the last owner's destructor calls [destroy()]
    and leaves the block in memory; the observer's destructor then
    deallocates it. *)
Example calls_of_owner_then_observer :
  let s := state_after owner_and_observers in
  let s1 := state_after (owner_and_observers ++ [DestroyShared 0%nat]) in
  let s2 := state_after (owner_and_observers ++ [DestroyShared 0%nat; DestroyWeak 0%nat]) in
  exec_nested construct_Z int_dtor 1 (DestroyShared 0%nat) s = Done (Ret tt s1) ∧
  trace s1 = trace s ++ [EvDestroy 0%nat; EvDestructObject 0%nat 0%nat] ∧
  exec_nested construct_Z int_dtor 1 (DestroyWeak 0%nat) s1 = Done (Ret tt s2) ∧
  trace s2 = trace s1 ++ [EvDeallocate 0%nat 0%nat].
Proof. vm_compute. done. Qed.

Lemma control_block_in_memory_iff_referenced_witness :
  let s := state_after two_owners in
  reachable construct_Z s ∧
  (is_constructed s 0%nat ↔
     (∃ l, shared_ptrs s !! l = Some (Some 0%nat)) ∨
     (∃ l, weak_ptrs s !! l = Some (Some 0%nat))).
Proof.
  intros s.
  assert (reachable construct_Z s) as Hr.
  { apply (state_after_reachable two_owners). vm_compute. reflexivity. }
  split; [exact Hr|].
  exact (control_block_in_memory_iff_referenced construct_Z s 0%nat Hr).
Defined.

Lemma counters_are_the_numbers_of_live_pointers_witness :
  let s := state_after owner_and_observers in
  let b := mkBlock 1 1 (ControlBlockWithMakeShared 42 0%nat) in
  reachable construct_Z s ∧
  heap s !! 0%nat = Some (constructed b) ∧
  shared_count b = Z.of_nat (refs (shared_ptrs s) 0%nat) ∧
  weak_count b = Z.of_nat (refs (weak_ptrs s) 0%nat) ∧
  0 < shared_count b + weak_count b ≤ Z.of_nat (population s).
Proof.
  intros s b.
  assert (reachable construct_Z s) as Hr.
  { apply (state_after_reachable owner_and_observers). vm_compute. reflexivity. }
  assert (heap s !! 0%nat = Some (constructed b)) as Hb by (vm_compute; reflexivity).
  split; [exact Hr|]. split; [exact Hb|].
  exact (counters_are_the_numbers_of_live_pointers construct_Z s 0%nat b Hr Hb).
Defined.

Lemma an_owned_object_is_alive_witness :
  let s := state_after two_owners in
  reachable construct_Z s ∧
  shared_ptrs s !! 1%nat = Some (Some 0%nat) ∧
  destroy_calls 0%nat (trace s) = 0%nat ∧
  object_ends 0%nat (trace s) = 0%nat ∧
  deallocate_calls 0%nat (trace s) = 0%nat.
Proof.
  intros s.
  assert (reachable construct_Z s) as Hr.
  { apply (state_after_reachable two_owners). vm_compute. reflexivity. }
  assert (shared_ptrs s !! 1%nat = Some (Some 0%nat)) as Hx by (vm_compute; reflexivity).
  split; [exact Hr|]. split; [exact Hx|].
  exact (an_owned_object_is_alive construct_Z s 1%nat 0%nat Hr Hx).
Defined.

Lemma WeakPtr_use_count_and_expired_witness :
  let s := state_after expired_observer in
  reachable construct_Z s ∧
  weak_ptrs s !! 0%nat = Some (Some 0%nat) ∧
  WeakPtr_use_count 0%nat s = Ret (Z.of_nat (refs (shared_ptrs s) 0%nat)) s ∧
  WeakPtr_expired 0%nat s = Ret (bool_decide (refs (shared_ptrs s) 0%nat = 0%nat)) s.
Proof.
  intros s.
  assert (reachable construct_Z s) as Hr.
  { apply (state_after_reachable expired_observer). vm_compute. reflexivity. }
  assert (weak_ptrs s !! 0%nat = Some (Some 0%nat)) as Hw by (vm_compute; reflexivity).
  split; [exact Hr|]. split; [exact Hw|].
  exact (WeakPtr_use_count_and_expired construct_Z s 0%nat (Some 0%nat) Hr Hw).
Defined.

(** The Weak Pointer of [expired_observer] is expired. *)
Example observer_is_expired :
  WeakPtr_expired 0%nat (state_after expired_observer)
  = Ret true (state_after expired_observer).
Proof. vm_compute. reflexivity. Qed.

Lemma allocateShared_block_lifetime_witness :
  let s : @state Z nat nat := initial_state in
  let s1 := state_after allocated in
  let s2 := state_after (allocated ++ share_then_release_all) in
  plain_objects int_dtor ∧
  reachable_nested construct_Z int_dtor s ∧ fits s ∧
  exec_nested construct_Z int_dtor 1 (DeclAllocateShared 0%nat 5%nat 42) s
    = Done (Ret tt s1) ∧
  rtc (step_nested construct_Z int_dtor) s1 s2 ∧
  block_trace (next_addr s) (trace s2) =
    EvAllocate 5%nat (next_addr s) ::
    (if decide (refs (shared_ptrs s2) (next_addr s) = 0%nat)
     then [EvDestroy (next_addr s); EvDestructObject (next_addr s) 5%nat] else []) ++
    (if decide (refs (shared_ptrs s2) (next_addr s) = 0%nat ∧
                refs (weak_ptrs s2) (next_addr s) = 0%nat)
     then [EvDeallocate (next_addr s) 5%nat] else []).
Proof.
  intros s s1 s2.
  assert (reachable_nested construct_Z int_dtor s) as Hr by apply reachable_nested_initial.
  assert (fits s) as Hf by (vm_compute; reflexivity).
  assert (exec_nested construct_Z int_dtor 1 (DeclAllocateShared 0%nat 5%nat 42) s
          = Done (Ret tt s1)) as He by (vm_compute; reflexivity).
  assert (rtc (step_nested construct_Z int_dtor) s1 s2) as Hs.
  { apply (steps_plain_nested construct_Z int_dtor int_objects_are_plain).
    apply (run_fitting_steps construct_Z share_then_release_all).
    vm_compute. reflexivity. }
  split; [exact int_objects_are_plain|].
  split; [exact Hr|]. split; [exact Hf|]. split; [exact He|]. split; [exact Hs|].
  exact (allocateShared_block_lifetime construct_Z int_dtor 1%nat s s1 s2 0%nat 5%nat 42
           int_objects_are_plain Hr Hf He Hs).
Defined.

(** The whole life of the block of [allocated]: allocator 5 allocates it,
    destroys the object and deallocates it. *)
Example allocated_block_calls :
  block_trace 0%nat (trace (state_after (allocated ++ share_then_release_all)))
  = [EvAllocate 5%nat 0%nat; EvDestroy 0%nat; EvDestructObject 0%nat 5%nat;
     EvDeallocate 0%nat 5%nat].
Proof. vm_compute. reflexivity. Qed.

Lemma raw_pointer_block_lifetime_witness :
  let s : @state Z nat nat := initial_state in
  let s1 := state_after adopted in
  let s2 := state_after (adopted ++ share_then_release_all) in
  plain_objects int_dtor ∧
  reachable_nested construct_Z int_dtor s ∧ fits s ∧
  exec_nested construct_Z int_dtor 1
    (DeclSharedPtr 0%nat (at_address 7) (Some 3%nat) (Some 9%nat)) s = Done (Ret tt s1) ∧
  rtc (step_nested construct_Z int_dtor) s1 s2 ∧
  block_trace (next_addr s) (trace s2) =
    EvAllocate default_construct (next_addr s) ::
    (if decide (refs (shared_ptrs s2) (next_addr s) = 0%nat)
     then EvDestroy (next_addr s) ::
          (if is_nullptr (at_address 7) then []
           else [EvDeleter (next_addr s) (default default_construct (Some 3%nat))
                   (at_address 7)])
     else []) ++
    (if decide (refs (shared_ptrs s2) (next_addr s) = 0%nat ∧
                refs (weak_ptrs s2) (next_addr s) = 0%nat)
     then [EvDeallocate (next_addr s) default_construct] else []).
Proof.
  intros s s1 s2.
  assert (reachable_nested construct_Z int_dtor s) as Hr by apply reachable_nested_initial.
  assert (fits s) as Hf by (vm_compute; reflexivity).
  assert (exec_nested construct_Z int_dtor 1
            (DeclSharedPtr 0%nat (at_address 7) (Some 3%nat) (Some 9%nat)) s
          = Done (Ret tt s1)) as He by (vm_compute; reflexivity).
  assert (rtc (step_nested construct_Z int_dtor) s1 s2) as Hs.
  { apply (steps_plain_nested construct_Z int_dtor int_objects_are_plain).
    apply (run_fitting_steps construct_Z share_then_release_all).
    vm_compute. reflexivity. }
  split; [exact int_objects_are_plain|].
  split; [exact Hr|]. split; [exact Hf|]. split; [exact He|]. split; [exact Hs|].
  exact (raw_pointer_block_lifetime construct_Z int_dtor 1%nat s s1 s2 0%nat (at_address 7)
           (Some 3%nat) (Some 9%nat) int_objects_are_plain Hr Hf He Hs).
Defined.

Lemma get_is_the_same_for_all_owners_at_all_times_witness :
  let s := state_after single_owner in
  let s' := state_after two_owners in
  reachable construct_Z s ∧
  rtc (step construct_Z) s s' ∧
  shared_ptrs s !! 0%nat = Some (Some 0%nat) ∧
  shared_ptrs s' !! 1%nat = Some (Some 0%nat) ∧
  ∃ p, SharedPtr_get 0%nat s = Ret p s ∧
       SharedPtr_get 1%nat s' = Ret p s' ∧
       SharedPtr_arrow 1%nat s' = Ret p s'.
Proof.
  intros s s'.
  assert (reachable construct_Z s) as Hr.
  { apply (state_after_reachable single_owner). vm_compute. reflexivity. }
  assert (rtc (step construct_Z) s s') as Hs.
  { apply (run_fitting_steps construct_Z [DeclSharedCopy 1%nat 0%nat]).
    vm_compute. reflexivity. }
  assert (shared_ptrs s !! 0%nat = Some (Some 0%nat)) as Hx by (vm_compute; reflexivity).
  assert (shared_ptrs s' !! 1%nat = Some (Some 0%nat)) as Hy by (vm_compute; reflexivity).
  split; [exact Hr|]. split; [exact Hs|]. split; [exact Hx|]. split; [exact Hy|].
  exact (get_is_the_same_for_all_owners_at_all_times construct_Z s s' 0%nat 1%nat 0%nat
           Hr Hs Hx Hy).
Defined.

Lemma makeShared_object_is_kept_witness :
  let s : @state Z nat nat := initial_state in
  let s1 := state_after single_owner in
  let s2 := state_after two_owners in
  reachable construct_Z s ∧ fits s ∧
  exec construct_Z (DeclMakeShared 0%nat 42) s = Ret tt s1 ∧
  rtc (step construct_Z) s1 s2 ∧
  shared_ptrs s2 !! 1%nat = Some (Some (next_addr s)) ∧
  SharedPtr_deref 1%nat s2 = Ret (object_of (next_addr s)) s2 ∧
  block_trace (next_addr s) (trace s2) = [EvAllocate default_construct (next_addr s)].
Proof.
  intros s s1 s2.
  assert (reachable construct_Z s) as Hr by apply reachable_initial.
  assert (fits s) as Hf by (vm_compute; reflexivity).
  assert (exec construct_Z (DeclMakeShared 0%nat 42) s = Ret tt s1) as He
    by (vm_compute; reflexivity).
  assert (rtc (step construct_Z) s1 s2) as Hs.
  { apply (run_fitting_steps construct_Z [DeclSharedCopy 1%nat 0%nat]).
    vm_compute. reflexivity. }
  assert (shared_ptrs s2 !! 1%nat = Some (Some (next_addr s))) as Hy
    by (vm_compute; reflexivity).
  split; [exact Hr|]. split; [exact Hf|]. split; [exact He|].
  split; [exact Hs|]. split; [exact Hy|].
  exact (makeShared_object_is_kept construct_Z s s1 s2 0%nat 1%nat 42 Hr Hf He Hs Hy).
Defined.

Lemma undefined_behaviour_only_on_misuse_witness :
  let s := state_after two_owners in
  let c : @stmt Z nat nat := DestroyShared 0%nat in
  plain_objects int_dtor ∧
  reachable_nested construct_Z int_dtor s ∧ fits s ∧
  (exec_nested construct_Z int_dtor 1 c s = Done Undefined ↔ well_scoped c s = false) ∧
  (well_scoped c s = true →
   ∃ s', exec_nested construct_Z int_dtor 1 c s = Done (Ret tt s') ∨
         exec_nested construct_Z int_dtor 1 c s = Done (Throw s')).
Proof.
  intros s c.
  assert (reachable_nested construct_Z int_dtor s) as Hr.
  { apply (state_after_reachable_nested two_owners). vm_compute. reflexivity. }
  assert (fits s) as Hf by (vm_compute; reflexivity).
  split; [exact int_objects_are_plain|]. split; [exact Hr|]. split; [exact Hf|].
  exact (undefined_behaviour_only_on_misuse construct_Z int_dtor 0%nat s c
           int_objects_are_plain Hr Hf).
Defined.

(** Destroying a Strong Pointer twice is undefined. *)
Example double_destruction_is_undefined :
  exec construct_Z (DestroyShared 0%nat)
    (state_after (single_owner ++ [DestroyShared 0%nat])) = Undefined.
Proof. vm_compute. reflexivity. Qed.

Lemma reset_is_destruction_then_default_construction_witness :
  let s := state_after two_owners in
  plain_objects int_dtor ∧
  exec_nested construct_Z int_dtor 1 (ResetShared 0%nat) s =
  nested_bind (SharedPtr_dtor_nested construct_Z int_dtor 0 0%nat)
              (λ _, leaf (SharedPtr_ctor_default 0%nat)) s.
Proof.
  intros s.
  split; [exact int_objects_are_plain|].
  exact (reset_is_destruction_then_default_construction construct_Z int_dtor 0%nat s 0%nat
           int_objects_are_plain).
Defined.

Lemma move_assignment_is_destruction_then_move_construction_witness :
  let s := state_after two_owners in
  plain_objects int_dtor ∧
  0%nat ≠ 1%nat ∧
  exec_nested construct_Z int_dtor 1 (MoveAssignShared 0%nat 1%nat) s =
  nested_bind (SharedPtr_dtor_nested construct_Z int_dtor 0 0%nat)
              (λ _, leaf (SharedPtr_ctor_move 0%nat 1%nat)) s.
Proof.
  intros s.
  assert (0%nat ≠ 1%nat) as Hne by discriminate.
  split; [exact int_objects_are_plain|]. split; [exact Hne|].
  exact (move_assignment_is_destruction_then_move_construction construct_Z int_dtor 0%nat
           s 0%nat 1%nat int_objects_are_plain Hne).
Defined.

Lemma copy_assignment_is_destruction_then_copy_construction_witness :
  let s := state_after (two_owners ++ [DeclMakeShared 2%nat 7]) in
  plain_objects int_dtor ∧
  reachable_nested construct_Z int_dtor s ∧ fits s ∧ 0%nat ≠ 2%nat ∧
  exec_nested construct_Z int_dtor 1 (AssignShared 0%nat 2%nat) s =
  nested_bind (SharedPtr_dtor_nested construct_Z int_dtor 0 0%nat)
              (λ _, leaf (SharedPtr_ctor_copy 0%nat 2%nat)) s.
Proof.
  intros s.
  assert (reachable_nested construct_Z int_dtor s) as Hr.
  { apply (state_after_reachable_nested (two_owners ++ [DeclMakeShared 2%nat 7])).
    vm_compute. reflexivity. }
  assert (fits s) as Hf by (vm_compute; reflexivity).
  assert (0%nat ≠ 2%nat) as Hne by discriminate.
  split; [exact int_objects_are_plain|].
  split; [exact Hr|]. split; [exact Hf|]. split; [exact Hne|].
  exact (copy_assignment_is_destruction_then_copy_construction construct_Z int_dtor 0%nat
           s 0%nat 2%nat int_objects_are_plain Hr Hf Hne).
Defined.

Lemma swap_exchanges_the_references_witness :
  let s := state_after (two_owners ++ [DeclShared 2%nat]) in
  shared_ptrs s !! 0%nat = Some (Some 0%nat) ∧
  shared_ptrs s !! 2%nat = Some None ∧
  ∃ s', SharedPtr_swap 0%nat 2%nat s = Ret tt s' ∧
    SharedPtr_swap 2%nat 0%nat s = Ret tt s' ∧
    shared_ptrs s' !! 0%nat = Some None ∧
    shared_ptrs s' !! 2%nat = Some (Some 0%nat) ∧
    (∀ l, l ≠ 0%nat → l ≠ 2%nat → shared_ptrs s' !! l = shared_ptrs s !! l) ∧
    (∀ a, refs (shared_ptrs s') a = refs (shared_ptrs s) a) ∧
    heap s' = heap s ∧ weak_ptrs s' = weak_ptrs s ∧ trace s' = trace s ∧
    SharedPtr_swap 0%nat 2%nat s' = Ret tt s.
Proof.
  intros s.
  assert (shared_ptrs s !! 0%nat = Some (Some 0%nat)) as Hx by (vm_compute; reflexivity).
  assert (shared_ptrs s !! 2%nat = Some None) as Hy by (vm_compute; reflexivity).
  split; [exact Hx|]. split; [exact Hy|].
  exact (swap_exchanges_the_references s 0%nat 2%nat (Some 0%nat) None Hx Hy).
Defined.

Lemma WeakPtr_move_construction_moves_witness :
  let s := state_after owner_and_observers in
  weak_ptrs s !! 5%nat = None ∧
  weak_ptrs s !! 0%nat = Some (Some 0%nat) ∧
  ∃ s', WeakPtr_ctor_move 5%nat 0%nat s = Ret tt s' ∧
    weak_ptrs s' !! 5%nat = Some (Some 0%nat) ∧
    weak_ptrs s' !! 0%nat = Some None ∧
    (∀ a, refs (weak_ptrs s') a = refs (weak_ptrs s) a) ∧
    heap s' = heap s ∧ shared_ptrs s' = shared_ptrs s ∧ trace s' = trace s ∧
    WeakPtr_use_count 0%nat s' = Ret 0 s' ∧
    WeakPtr_expired 0%nat s' = Ret true s'.
Proof.
  intros s.
  assert (weak_ptrs s !! 5%nat = None) as Hw by (vm_compute; reflexivity).
  assert (weak_ptrs s !! 0%nat = Some (Some 0%nat)) as Hv by (vm_compute; reflexivity).
  split; [exact Hw|]. split; [exact Hv|].
  exact (WeakPtr_move_construction_moves s 5%nat 0%nat (Some 0%nat) Hw Hv).
Defined.

Lemma WeakPtr_self_assignment_changes_nothing_witness :
  let s := state_after expired_observer in
  reachable construct_Z s ∧ fits s ∧
  weak_ptrs s !! 0%nat = Some (Some 0%nat) ∧
  exec construct_Z (AssignWeak 0%nat 0%nat) s = Ret tt s ∧
  exec construct_Z (MoveAssignWeak 0%nat 0%nat) s = Ret tt s.
Proof.
  intros s.
  assert (reachable construct_Z s) as Hr.
  { apply (state_after_reachable expired_observer). vm_compute. reflexivity. }
  assert (fits s) as Hf by (vm_compute; reflexivity).
  assert (weak_ptrs s !! 0%nat = Some (Some 0%nat)) as Hw by (vm_compute; reflexivity).
  split; [exact Hr|]. split; [exact Hf|]. split; [exact Hw|].
  exact (WeakPtr_self_assignment_changes_nothing construct_Z s 0%nat (Some 0%nat)
           Hr Hf Hw).
Defined.

Lemma WeakPtr_assignment_is_destruction_then_construction_witness :
  let s := state_after owner_and_observers in
  reachable construct_Z s ∧ fits s ∧
  (1%nat ≠ 0%nat →
   WeakPtr_assign_copy 1%nat 0%nat s
   = (WeakPtr_dtor 1%nat;; WeakPtr_ctor_copy 1%nat 0%nat) s) ∧
  WeakPtr_assign_shared 1%nat 0%nat s
  = (WeakPtr_dtor 1%nat;; WeakPtr_ctor_shared 1%nat 0%nat) s.
Proof.
  intros s.
  assert (reachable construct_Z s) as Hr.
  { apply (state_after_reachable owner_and_observers). vm_compute. reflexivity. }
  assert (fits s) as Hf by (vm_compute; reflexivity).
  split; [exact Hr|]. split; [exact Hf|].
  exact (WeakPtr_assignment_is_destruction_then_construction construct_Z s
           1%nat 0%nat 0%nat Hr Hf).
Defined.


(** [x.reset(p)] on the only owner of a [makeShared] block: the new block
    is allocated before the old one is destroyed and deallocated. *)
Example reset_allocates_first :
  trace (state_after (single_owner ++ [ResetSharedPtr 0%nat (at_address 7)]))
  = [EvAllocate 0%nat 0%nat; EvAllocate 0%nat 1%nat; EvDestroy 0%nat;
     EvDestructObject 0%nat 0%nat; EvDeallocate 0%nat 0%nat].
Proof. vm_compute. reflexivity. Qed.

Lemma an_expired_block_stays_expired_witness :
  let s := state_after expired_observer in
  let s' := state_after (expired_observer ++ [DeclWeakCopy 1%nat 0%nat]) in
  reachable construct_Z s ∧
  rtc (step construct_Z) s s' ∧
  weak_ptrs s !! 0%nat = Some (Some 0%nat) ∧
  WeakPtr_expired 0%nat s = Ret true s ∧
  weak_ptrs s' !! 1%nat = Some (Some 0%nat) ∧
  shared_ptrs s' !! 5%nat = None ∧
  refs (shared_ptrs s') 0%nat = 0%nat ∧
  WeakPtr_expired 1%nat s' = Ret true s' ∧
  WeakPtr_lock 1%nat 5%nat s'
  = Ret tt (with_shared_ptrs (<[5%nat := None]> (shared_ptrs s')) s').
Proof.
  intros s s'.
  assert (reachable construct_Z s) as Hr.
  { apply (state_after_reachable expired_observer). vm_compute. reflexivity. }
  assert (rtc (step construct_Z) s s') as Hs.
  { apply (run_fitting_steps construct_Z [DeclWeakCopy 1%nat 0%nat]).
    vm_compute. reflexivity. }
  assert (weak_ptrs s !! 0%nat = Some (Some 0%nat)) as Hw by (vm_compute; reflexivity).
  assert (WeakPtr_expired 0%nat s = Ret true s) as He by (vm_compute; reflexivity).
  assert (weak_ptrs s' !! 1%nat = Some (Some 0%nat)) as Hw' by (vm_compute; reflexivity).
  assert (shared_ptrs s' !! 5%nat = None) as Hx by (vm_compute; reflexivity).
  split; [exact Hr|]. split; [exact Hs|]. split; [exact Hw|]. split; [exact He|].
  split; [exact Hw'|]. split; [exact Hx|].
  exact (an_expired_block_stays_expired construct_Z s s' 0%nat 1%nat 5%nat 0%nat
           Hr Hs Hw He Hw' Hx).
Defined.

Lemma memory_left_by_a_throwing_constructor_is_never_released_witness :
  let s : @state Z nat nat := initial_state in
  let s1 := state_after failed_construction in
  let s2 := state_after (failed_construction ++ single_owner ++ [DestroyShared 0%nat]) in
  reachable construct_Z s ∧ fits s ∧
  exec construct_Z (DeclMakeShared 0%nat (-1)) s = Throw s1 ∧
  rtc (step construct_Z) s1 s2 ∧
  ∃ al,
    heap s2 !! next_addr s = Some uninitialized ∧
    block_trace (next_addr s) (trace s2) = [EvAllocate al (next_addr s)] ∧
    refs (shared_ptrs s2) (next_addr s) = 0%nat ∧
    refs (weak_ptrs s2) (next_addr s) = 0%nat.
Proof.
  intros s s1 s2.
  assert (reachable construct_Z s) as Hr by apply reachable_initial.
  assert (fits s) as Hf by (vm_compute; reflexivity).
  assert (exec construct_Z (DeclMakeShared 0%nat (-1)) s = Throw s1) as He
    by (vm_compute; reflexivity).
  assert (rtc (step construct_Z) s1 s2) as Hs.
  { apply (run_fitting_steps construct_Z (single_owner ++ [DestroyShared 0%nat])).
    vm_compute. reflexivity. }
  split; [exact Hr|]. split; [exact Hf|]. split; [exact He|]. split; [exact Hs|].
  exact (memory_left_by_a_throwing_constructor_is_never_released construct_Z s s1 s2
           (DeclMakeShared 0%nat (-1)) Hr Hf He Hs).
Defined.

(** The raw block of [failed_construction] is still in the heap after
    another block has come and gone. *)
Example failed_construction_leaks :
  heap (state_after (failed_construction ++ single_owner ++ [DestroyShared 0%nat]))
  = {[0%nat := uninitialized]}.
Proof. vm_compute. reflexivity. Qed.

Lemma only_constructions_allocate_witness :
  let s := state_after single_owner in
  let c : @stmt Z nat nat := ResetSharedPtr 0%nat (at_address 7) in
  let s' := state_after (single_owner ++ [c]) in
  (exec construct_Z c s = Ret tt s' ∨ exec construct_Z c s = Throw s') ∧
  ∃ new, trace s' = trace s ++ new ∧
    allocations new = (if creates c then 1%nat else 0%nat) ∧
    (releases c = false → length new = allocations new).
Proof.
  intros s c s'.
  assert (exec construct_Z c s = Ret tt s' ∨ exec construct_Z c s = Throw s') as He
    by (left; vm_compute; reflexivity).
  split; [exact He|].
  exact (only_constructions_allocate construct_Z s s' c He).
Defined.
